(** * MarketingMix backend: validation, normalisation, storage and routes

    A shallow embedding of the TypeScript backend
    (utils/validation.ts, utils/channelNormalization.ts,
    utils/performance.ts, models/MarketingMetrics.ts, models/Account.ts,
    services/redis.ts, middleware/auth.ts, middleware/cache.ts and the
    auth, data, forecast, optimizer, models and uploads routes) together
    with the properties of it that the design document relies on.

    Conventions of the embedding.
    - JavaScript strings are [string]s restricted to ASCII: case mapping
      touches only the letters A-Z and a-z, and white space is TAB, LF,
      VT, FF, CR and SPACE (the ASCII part of the class the regular
      expression [\s] and [String.prototype.trim] use).
    - A JavaScript [number] that is only compared or stored is a rational
      [Q]; NaN is the [None] of an [option].
    - Points in time are milliseconds since the epoch, in [Z]; every
      [new Date()], every SQL [NOW()] and the clock of the Redis server
      is an explicit argument.
    - An awaited promise ends fulfilled, rejected or pending; what a
      database statement or a synchronous call does is a value or a
      [throw].
    - A handler that calls another service returns, next to its response,
      the list of calls it made. *)

From Stdlib Require Import ZArith QArith Ascii String List Lia Bool.
From Stdlib Require Qcanon.
From stdpp Require Import gmap strings list pretty.

Open Scope string_scope.

(** ** JavaScript primitives used by the backend *)

Module Js.

(** The result of evaluating an expression that may [throw]. *)
Inductive outcome (A : Type) : Type :=
| Returned (a : A)
| Threw (e : string).
Arguments Returned {A} a.
Arguments Threw {A} e.

(** Code that reads and writes a store [S] and may throw: the store is
    threaded through, and a [throw] keeps the store as it stands. *)
Definition Eff (S A : Type) : Type := S -> outcome A * S.

Definition ret {S A} (a : A) : Eff S A := fun s => (Returned a, s).
Definition throw {S A} (e : string) : Eff S A := fun s => (Threw e, s).
Definition bind {S A B} (m : Eff S A) (k : A -> Eff S B) : Eff S B :=
  fun s =>
    match m s with
    | (Returned a, s') => k a s'
    | (Threw e, s') => (Threw e, s')
    end.

(** [try { body } catch (e) { handler(e) }]. *)
Definition try_catch {S A} (body : Eff S A) (handler : string -> Eff S A)
  : Eff S A :=
  fun s =>
    match body s with
    | (Returned a, s') => (Returned a, s')
    | (Threw e, s') => handler e s'
    end.

#[global] Instance Eff_ret {S} : MRet (Eff S) := @ret S.
#[global] Instance Eff_bind {S} : MBind (Eff S) := fun A B k m => bind m k.

(** [for (const x of xs) { await body(x) }]. *)
Fixpoint for_each {S A} (xs : list A) (body : A -> Eff S unit) : Eff S unit :=
  match xs with
  | [] => ret tt
  | x :: xs' => body x ;; for_each xs' body
  end.

(** White space, as [trim] and [\s] see it on ASCII text. *)
Definition is_white_space (c : ascii) : bool :=
  let n := nat_of_ascii c in
  ((9 <=? n)%nat && (n <=? 13)%nat) || (n =? 32)%nat.

Definition is_ascii_char (c : ascii) : bool := (nat_of_ascii c <? 128)%nat.

Fixpoint is_ascii_string (s : string) : bool :=
  match s with
  | EmptyString => true
  | String c s' => is_ascii_char c && is_ascii_string s'
  end.

Definition toLowerChar (c : ascii) : ascii :=
  let n := nat_of_ascii c in
  if ((65 <=? n)%nat && (n <=? 90)%nat) then ascii_of_nat (n + 32) else c.

Definition toUpperChar (c : ascii) : ascii :=
  let n := nat_of_ascii c in
  if ((97 <=? n)%nat && (n <=? 122)%nat) then ascii_of_nat (n - 32) else c.

Fixpoint toLowerCase (s : string) : string :=
  match s with
  | EmptyString => EmptyString
  | String c s' => String (toLowerChar c) (toLowerCase s')
  end.

Fixpoint toUpperCase (s : string) : string :=
  match s with
  | EmptyString => EmptyString
  | String c s' => String (toUpperChar c) (toUpperCase s')
  end.

Fixpoint trimStart (s : string) : string :=
  match s with
  | EmptyString => EmptyString
  | String c s' => if is_white_space c then trimStart s' else s
  end.

Fixpoint trimEnd (s : string) : string :=
  match s with
  | EmptyString => EmptyString
  | String c s' =>
      match trimEnd s' with
      | EmptyString => if is_white_space c then EmptyString else String c EmptyString
      | t => String c t
      end
  end.

Definition trim (s : string) : string := trimEnd (trimStart s).

Definition starts_with_space (s : string) : bool :=
  match s with
  | EmptyString => false
  | String c _ => is_white_space c
  end.

(** [s.split(/\s+/)]: the pieces between maximal runs of white space.  A
    leading or trailing run leaves an empty first or last piece, and the
    empty string splits into one empty piece. *)
Fixpoint split_spaces (s : string) : list string :=
  match s with
  | EmptyString => [EmptyString]
  | String c s' =>
      if is_white_space c then
        if starts_with_space s' then split_spaces s'
        else EmptyString :: split_spaces s'
      else
        match split_spaces s' with
        | w :: ws => String c w :: ws
        | [] => [String c EmptyString]
        end
  end.

(** [words.join(sep)]. *)
Definition join (sep : string) (words : list string) : string :=
  String.concat sep words.

(** [s.charAt(0)] and [s.slice(1)]. *)
Definition charAt0 (s : string) : string :=
  match s with
  | EmptyString => EmptyString
  | String c _ => String c EmptyString
  end.

Definition slice1 (s : string) : string :=
  match s with
  | EmptyString => EmptyString
  | String _ s' => s'
  end.

(** *** Scalars of a JSON body *)

(** A member of a parsed JSON body: absent, [null], a boolean or a
    number.  (Strings, arrays and objects are not covered.) *)
Inductive scalar :=
| Missing
| Null
| Boolean (b : bool)
| Number (q : Q).

(** [!!x]. *)
Definition truthy (x : scalar) : bool :=
  match x with
  | Missing | Null => false
  | Boolean b => b
  | Number q => negb (Qeq_bool q 0)
  end.

(** [x <= 0], after conversion to a number ([undefined] is NaN, [null]
    is 0, [true] is 1). *)
Definition le_zero (x : scalar) : bool :=
  match x with
  | Missing => false
  | Null => true
  | Boolean b => negb b
  | Number q => Qle_bool q 0
  end.

(** *** parseInt *)

Definition digit_value (radix : Z) (c : ascii) : option Z :=
  let n := Z.of_nat (nat_of_ascii c) in
  let d :=
    if (48 <=? n)%Z && (n <=? 57)%Z then Some (n - 48)%Z
    else if (97 <=? n)%Z && (n <=? 122)%Z then Some (n - 87)%Z
    else if (65 <=? n)%Z && (n <=? 90)%Z then Some (n - 55)%Z
    else None in
  match d with
  | Some v => if (v <? radix)%Z then Some v else None
  | None => None
  end.

(** The longest prefix of radix-[radix] digits, read left to right;
    [None] when the prefix is empty. *)
Fixpoint digits_prefix (radix : Z) (acc : option Z) (s : string) : option Z :=
  match s with
  | EmptyString => acc
  | String c s' =>
      match digit_value radix c with
      | Some d =>
          digits_prefix radix
            (Some (match acc with Some a => a * radix + d | None => d end)%Z) s'
      | None => acc
      end
  end.

Definition strip_hex_prefix (s : string) : option string :=
  match s with
  | String "0" (String "x" rest) => Some rest
  | String "0" (String "X" rest) => Some rest
  | _ => None
  end.

(** [parseInt(s)] with no radix argument: leading white space is skipped,
    a sign is read, a [0x]/[0X] prefix selects radix 16, and the longest
    digit prefix is the value; [None] is NaN.  Negative zero is [0]: the
    backend only tests the result for truthiness and order. *)
Definition parseInt (s : string) : option Z :=
  let s1 := trimStart s in
  let '(sign, s2) :=
    match s1 with
    | String "-" r => ((-1)%Z, r)
    | String "+" r => (1%Z, r)
    | _ => (1%Z, s1)
    end in
  let '(radix, s3) :=
    match strip_hex_prefix s2 with
    | Some r => (16%Z, r)
    | None => (10%Z, s2)
    end in
  match digits_prefix radix None s3 with
  | Some m => Some (sign * m)%Z
  | None => None
  end.

End Js.

(** ** utils/validation.ts *)

Module Validation.

(** The object literal [{ valid: boolean; error?: string }]. *)
Record ValidationResult := mkResult { valid : bool; error : option string }.

Definition ok : ValidationResult := mkResult true None.
Definition fail (msg : string) : ValidationResult := mkResult false (Some msg).

Definition msPerDay : Z := 86400000.

(** [d.setDate(d.getDate() - n)] moves a date [n] calendar days back and
    keeps its time of day; on a server clock without daylight-saving
    shifts that is [n] times 24 hours.  The limit of the [Date] range
    (100 million days around the epoch) is not modelled. *)
Definition setDate_back (t : Z) (n : Z) : Z := (t - n * msPerDay)%Z.

Section DateRange.

(** [new Date(s).getTime()]; [None] is the NaN of an unparsable string. *)
Variable Date_parse : string -> option Z.

(** [validateDateRange].  [now] and [now'] are the two readings of the
    clock ([const now = new Date()] and [const maxDate = new Date()]);
    the optional argument defaults to 730. *)
Definition validateDateRange (now now' : Z) (date : string)
    (maxDaysBack_arg : option Z) : ValidationResult :=
  let maxDaysBack := default 730%Z maxDaysBack_arg in
  let dateObj := Date_parse date in
  let maxDate := setDate_back now' maxDaysBack in
  match dateObj with
  | None => fail "Invalid date format"
  | Some t =>
      if (now <? t)%Z then fail "Date cannot be in the future"
      else if (t <? maxDate)%Z then
        fail ("Date must be within last " ++ pretty maxDaysBack ++ " days")
      else ok
  end.

End DateRange.

Definition msg_min_days : string :=
  "Minimum 60 days of data required for attribution".
Definition msg_min_unique_days : string :=
  "Minimum 60 unique days of data required".

(** [validateMinimumDataDays]: [dates.length] is tested first, then the
    size of [new Set(dates)].  The account id is not consulted. *)
Definition validateMinimumDataDays (accountId : string) (dates : list string)
  : ValidationResult :=
  if (length dates <? 60)%nat then fail msg_min_days
  else
    let uniqueDates : gset string := list_to_set dates in
    if (size uniqueDates <? 60)%nat then fail msg_min_unique_days
    else ok.

End Validation.

(** ** utils/channelNormalization.ts *)

Module ChannelNormalization.

(** The own properties of the object literal [CHANNEL_MAP]. *)
Definition CHANNEL_MAP : list (string * string) :=
  [ ("fb ads", "Facebook Ads");
    ("facebook ads", "Facebook Ads");
    ("fb", "Facebook Ads");
    ("google ads", "Google Ads");
    ("google", "Google Ads");
    ("gads", "Google Ads");
    ("linkedin", "LinkedIn Ads");
    ("linkedin ads", "LinkedIn Ads");
    ("twitter", "Twitter Ads");
    ("twitter ads", "Twitter Ads");
    ("x", "Twitter Ads");
    ("instagram", "Instagram Ads");
    ("instagram ads", "Instagram Ads");
    ("tiktok", "TikTok Ads");
    ("tiktok ads", "TikTok Ads");
    ("snapchat", "Snapchat Ads");
    ("snapchat ads", "Snapchat Ads");
    ("pinterest", "Pinterest Ads");
    ("pinterest ads", "Pinterest Ads");
    ("bing", "Bing Ads");
    ("bing ads", "Bing Ads");
    ("email", "Email Marketing");
    ("email marketing", "Email Marketing");
    ("seo", "SEO");
    ("organic", "Organic");
    ("direct", "Direct");
    ("referral", "Referral") ].

(** [CHANNEL_MAP] is a plain object, so a property read that misses the
    literal goes on to [Object.prototype]. *)
Definition object_prototype_properties : list string :=
  [ "constructor"; "__proto__"; "hasOwnProperty"; "isPrototypeOf";
    "propertyIsEnumerable"; "toLocaleString"; "toString"; "valueOf";
    "__defineGetter__"; "__defineSetter__"; "__lookupGetter__";
    "__lookupSetter__" ].

Inductive property :=
| Own (v : string)
| Inherited (name : string)
| Undefined.

Fixpoint own_property (m : list (string * string)) (key : string)
  : option string :=
  match m with
  | [] => None
  | (k, v) :: m' => if String.eqb k key then Some v else own_property m' key
  end.

(** [CHANNEL_MAP[key]]. *)
Definition CHANNEL_MAP_get (key : string) : property :=
  match own_property CHANNEL_MAP key with
  | Some v => Own v
  | None =>
      if existsb (String.eqb key) object_prototype_properties
      then Inherited key else Undefined
  end.

(** What [normalizeChannel] hands back: a channel name, or for a key found
    on the prototype the function or object stored there. *)
Inductive channel_value :=
| Name (s : string)
| PrototypeValue (name : string).

(** A row of [channel_normalization]. *)
Record NormalizationRow := mkNormalizationRow {
  nr_account_id : string;
  raw_name : string;
  normalized_name : string
}.

(** [word.charAt(0).toUpperCase() + word.slice(1).toLowerCase()]. *)
Definition capitalize (word : string) : string :=
  Js.toUpperCase (Js.charAt0 word) ++ Js.toLowerCase (Js.slice1 word).

(** The default branch: title-case every piece of the raw name. *)
Definition titleCase (rawChannel : string) : string :=
  Js.join " " (map capitalize (Js.split_spaces rawChannel)).

(** [normalizeChannel]: the account's own mapping first, then the global
    map, then title-casing of the raw (untrimmed) name. *)
Definition normalizeChannel (channel_normalization : list NormalizationRow)
    (accountId : string) (rawChannel : string) : channel_value :=
  let normalized := Js.toLowerCase (Js.trim rawChannel) in
  let accountMap :=
    filter (fun r => nr_account_id r = accountId /\ raw_name r = normalized)
           channel_normalization in
  match accountMap with
  | r :: _ => Name (normalized_name r)
  | [] =>
      match CHANNEL_MAP_get normalized with
      | Own v =>
          if negb (String.eqb v "") then Name v else Name (titleCase rawChannel)
      | Inherited p => PrototypeValue p
      | Undefined => Name (titleCase rawChannel)
      end
  end.

End ChannelNormalization.

(** ** models/MarketingMetrics.ts over the table of db/migrations *)

Module MarketingMetrics.

(** [MetricInput]: the optional fields are absent ([None]) or a number;
    the numbers are finite. *)
Record MetricInput := mkMetricInput {
  date : string;
  channel : string;
  spend : Q;
  revenue : option Q;
  impressions : option Q;
  clicks : option Q;
  conversions : option Q;
  new_customers : option Q;
  returning_customers : option Q
}.

(** A row of [marketing_daily_metrics].  [m_date] is the value of the
    DATE column (a day number), the INTEGER columns hold integers, and a
    NULL is [None]. *)
Record MarketingMetric := mkMarketingMetric {
  id : nat;
  account_id : string;
  m_date : Z;
  m_channel : string;
  m_spend : Q;
  m_revenue : option Q;
  m_impressions : option Z;
  m_clicks : option Z;
  m_conversions : option Z;
  m_new_customers : option Z;
  m_returning_customers : option Z;
  created_at : Z;
  updated_at : Z
}.

(** The columns of [UNIQUE(account_id, date, channel)]. *)
Definition key_of (r : MarketingMetric) : string * Z * string :=
  (account_id r, m_date r, m_channel r).

(** The database as other connections see it. *)
Record Db := mkDb {
  accounts : gset string;
  marketing_daily_metrics : list MarketingMetric
}.

(** A pooled connection: the table as this connection sees it, the copy
    taken at [BEGIN] while a transaction is open, and the source of
    [gen_random_uuid()]. *)
Record Client := mkClient {
  known_accounts : gset string;
  table : list MarketingMetric;
  saved : option (list MarketingMetric);
  next_uuid : nat
}.

(** What is persisted: inside a transaction, the table as it was at
    [BEGIN]. *)
Definition persisted (c : Client) : list MarketingMetric :=
  match saved c with
  | Some old => old
  | None => table c
  end.

(** Statements run against a connection and may throw. *)
Abbreviation M := (Js.Eff Client).

(** [x || null] on an optional number: absent and zero both become NULL. *)
Definition or_null (x : option Q) : option Q :=
  match x with
  | Some q => if Qeq_bool q 0 then None else Some q
  | None => None
  end.

(** The value an INTEGER column takes from a number, which the driver
    sends as its decimal text: a whole number between -2147483648 and
    2147483647.  A fraction, and a whole number from 10^21 on (whose text
    has an exponent), is no integer to PostgreSQL; the other whole
    numbers are out of range. *)
Definition to_integer (x : option Q) : Js.outcome (option Z) :=
  match x with
  | None => Js.Returned None
  | Some q =>
      let r := Qred q in
      if Pos.eqb (Qden r) 1 then
        let z := Qnum r in
        if ((-2147483648 <=? z) && (z <=? 2147483647))%Z
        then Js.Returned (Some z)
        else if (Z.abs z <? 10 ^ 21)%Z
        then Js.Threw "value is out of range for type integer"
        else Js.Threw "invalid input syntax for type integer"
      else Js.Threw "invalid input syntax for type integer"
  end.

(** The nearest whole number, a half going away from zero. *)
Definition round_half_away (q : Q) : Z :=
  (Z.sgn (Qnum q)
   * ((2 * Z.abs (Qnum q) + Z.pos (Qden q)) / (2 * Z.pos (Qden q))))%Z.

(** The value a NUMERIC(12,2) column takes from a number: the number
    rounded to two decimals, which must leave at most ten digits before
    the point. *)
Definition to_numeric_12_2 (q : Q) : Js.outcome Q :=
  let hundredths := round_half_away (q * 100) in
  if (Z.abs hundredths <? 10 ^ 12)%Z then Js.Returned (hundredths # 100)
  else Js.Threw "numeric field overflow".

Definition to_numeric_12_2_or_null (x : option Q) : Js.outcome (option Q) :=
  match x with
  | None => Js.Returned None
  | Some q =>
      match to_numeric_12_2 q with
      | Js.Returned v => Js.Returned (Some v)
      | Js.Threw e => Js.Threw e
      end
  end.

(** One conversion after the other; the first that throws ends them. *)
Definition and_then {A B} (r : Js.outcome A) (k : A -> Js.outcome B)
  : Js.outcome B :=
  match r with
  | Js.Returned a => k a
  | Js.Threw e => Js.Threw e
  end.

Definition non_negative (x : option Z) : bool :=
  match x with
  | Some z => (0 <=? z)%Z
  | None => true
  end.

Definition non_negative_Q (x : option Q) : bool :=
  match x with
  | Some q => Qle_bool 0 q
  | None => true
  end.

(** [ON CONFLICT (account_id, date, channel) DO UPDATE SET ...]: the row
    with the key takes the new values and [updated_at]; with no such row
    a new one is appended. *)
Fixpoint upsert (fresh : MarketingMetric) (rows : list MarketingMetric)
  : list MarketingMetric :=
  match rows with
  | [] => [fresh]
  | r :: rows' =>
      if bool_decide (key_of r = key_of fresh) then
        mkMarketingMetric (id r) (account_id r) (m_date r) (m_channel r)
          (m_spend fresh) (m_revenue fresh) (m_impressions fresh)
          (m_clicks fresh) (m_conversions fresh) (m_new_customers fresh)
          (m_returning_customers fresh) (created_at r) (updated_at fresh)
        :: rows'
      else r :: upsert fresh rows'
  end.

Section Queries.

(** PostgreSQL's reading of a text parameter for a DATE column; [None]
    when it is not a date. *)
Variable pg_date : string -> option Z.

(** [NOW()]: the start time of the transaction. *)
Variable now : Z.

Definition query_BEGIN : M unit :=
  fun c =>
    (Js.Returned tt,
     mkClient (known_accounts c) (table c)
       (match saved c with Some old => Some old | None => Some (table c) end)
       (next_uuid c)).

Definition query_COMMIT : M unit :=
  fun c =>
    (Js.Returned tt, mkClient (known_accounts c) (table c) None (next_uuid c)).

Definition query_ROLLBACK : M unit :=
  fun c =>
    (Js.Returned tt,
     mkClient (known_accounts c) (persisted c) None (next_uuid c)).

(** The values the columns take from the parameters of the INSERT
    statement.  The parameters are read in their order when the statement
    is bound (the date, then the five counts), and the two amounts are
    brought to NUMERIC(12,2) when it runs. *)
Record Values := mkValues {
  v_date : Z;
  v_spend : Q;
  v_revenue : option Q;
  v_impressions : option Z;
  v_clicks : option Z;
  v_conversions : option Z;
  v_new_customers : option Z;
  v_returning_customers : option Z
}.

Definition column_values (metric : MetricInput) : Js.outcome Values :=
  match pg_date (date metric) with
  | None => Js.Threw "invalid input syntax for type date"
  | Some d =>
      and_then (to_integer (or_null (impressions metric))) (fun imp =>
      and_then (to_integer (or_null (clicks metric))) (fun clk =>
      and_then (to_integer (or_null (conversions metric))) (fun conv =>
      and_then (to_integer (or_null (new_customers metric))) (fun newc =>
      and_then (to_integer (or_null (returning_customers metric))) (fun retc =>
      and_then (to_numeric_12_2 (spend metric)) (fun sp =>
      and_then (to_numeric_12_2_or_null (or_null (revenue metric))) (fun rev =>
      Js.Returned (mkValues d sp rev imp clk conv newc retc))))))))
  end.

(** The CHECK constraints of the table, on the values as stored. *)
Definition checks (v : Values) : bool :=
  Qle_bool 0 (v_spend v) && non_negative_Q (v_revenue v)
  && non_negative (v_impressions v) && non_negative (v_clicks v)
  && non_negative (v_conversions v) && non_negative (v_new_customers v)
  && non_negative (v_returning_customers v).

(** The row the statement proposes. *)
Definition proposed (uuid : nat) (accountId : string) (metric : MetricInput)
    (v : Values) : MarketingMetric :=
  mkMarketingMetric uuid accountId (v_date v) (channel metric)
    (v_spend v) (v_revenue v) (v_impressions v) (v_clicks v)
    (v_conversions v) (v_new_customers v) (v_returning_customers v) now now.

(** The [INSERT ... ON CONFLICT ... DO UPDATE] statement with the ten
    parameters [bulkInsert] passes.  It throws, and changes nothing, when
    a parameter does not fit its column, a CHECK constraint fails or the
    account does not exist. *)
Definition query_INSERT (accountId : string) (metric : MetricInput) : M unit :=
  fun c =>
    match column_values metric with
    | Js.Threw e => (Js.Threw e, c)
    | Js.Returned v =>
        if negb (checks v)
        then (Js.Threw "violates check constraint", c)
        else if negb (bool_decide (accountId ∈ known_accounts c))
        then (Js.Threw "violates foreign key constraint", c)
        else
          (Js.Returned tt,
           mkClient (known_accounts c)
             (upsert (proposed (next_uuid c) accountId metric v) (table c))
             (saved c) (S (next_uuid c)))
    end.

(** [pool.connect()] and, after [client.release()], what the database
    holds. *)
Definition connect (uuid_seed : nat) (db : Db) : Client :=
  mkClient (accounts db) (marketing_daily_metrics db) None uuid_seed.

Definition release (c : Client) : Db :=
  mkDb (known_accounts c) (persisted c).

(** The body of [bulkInsert] on its connection. *)
Definition bulkInsert_on_client (accountId : string)
    (metrics : list MetricInput) : M unit :=
  Js.try_catch
    (query_BEGIN ;;
     Js.for_each metrics (query_INSERT accountId) ;;
     query_COMMIT)
    (fun error => query_ROLLBACK ;; Js.throw error).

(** [MarketingMetricsModel.bulkInsert]. *)
Definition bulkInsert (uuid_seed : nat) (accountId : string)
    (metrics : list MetricInput) (db : Db) : Js.outcome unit * Db :=
  let '(r, c) := bulkInsert_on_client accountId metrics (connect uuid_seed db) in
  (r, release c).

End Queries.

End MarketingMetrics.

(** ** Promises *)

Module Promise.

(** How an awaited promise ends: it is fulfilled, it is rejected, or it
    stays pending, and then the code after the [await] never runs. *)
Inductive settled (A : Type) : Type :=
| Fulfilled (a : A)
| Rejected (e : string)
| Pending.
Arguments Fulfilled {A} a.
Arguments Rejected {A} e.
Arguments Pending {A}.

(** An [async] function over a store [S]. *)
Definition Eff (S A : Type) : Type := S -> settled A * S.

Definition ret {S A} (a : A) : Eff S A := fun s => (Fulfilled a, s).

(** [const a = await m; k(a)]. *)
Definition bind {S A B} (m : Eff S A) (k : A -> Eff S B) : Eff S B :=
  fun s =>
    match m s with
    | (Fulfilled a, s') => k a s'
    | (Rejected e, s') => (Rejected e, s')
    | (Pending, s') => (Pending, s')
    end.

(** [try { await body } catch (e) { handler(e) }]: a rejection is caught,
    a promise that stays pending is not. *)
Definition try_catch {S A} (body : Eff S A) (handler : string -> Eff S A)
  : Eff S A :=
  fun s =>
    match body s with
    | (Fulfilled a, s') => (Fulfilled a, s')
    | (Rejected e, s') => handler e s'
    | (Pending, s') => (Pending, s')
    end.

(** [m().catch(console.error)] with no [await]: the call is made, and the
    caller goes on whatever becomes of it. *)
Definition detached {S A} (m : Eff S A) : Eff S unit :=
  fun s => (Fulfilled tt, snd (m s)).

(** A synchronous expression inside an [async] function. *)
Definition settle {S A} (r : Js.outcome A) : Eff S A :=
  fun s =>
    match r with
    | Js.Returned a => (Fulfilled a, s)
    | Js.Threw e => (Rejected e, s)
    end.

#[global] Instance Eff_ret {S} : MRet (Eff S) := @ret S.
#[global] Instance Eff_bind {S} : MBind (Eff S) := fun A B k m => bind m k.

End Promise.

(** ** services/redis.ts *)

Module Redis.

(** The commands the service sends. *)
Inductive command :=
| CONNECT
| GET (key : string)
| SETEX (key : string)
| DEL (key : string)
| KEYS (pattern : string)
| DEL_keys (keys : list string).

(** What becomes of a command: the server replies; the command is
    rejected (the connection breaks under it, or the server answers with
    an error for a reason of its own); or the server cannot be reached and
    the command waits in the queue of the client, its promise pending. *)
Inductive fate := Replies | Rejects | Queued.

(** The Redis client: whether the socket counts as open, what the server
    holds (a value with the time, in milliseconds, up to which it lives),
    and what becomes of each command.  The module calls [connect()] when
    it is loaded, and [isOpen] is true from that call on, also while the
    client is still trying to reach the server. *)
Record Client := mkClient {
  isOpen : bool;
  store : gmap string (string * Z);
  fate_of : command -> fate
}.

Abbreviation M := (Promise.Eff Client).

Definition connection_error : string := "Socket closed unexpectedly".

(** A command whose reply, when the server gives one, is [reply]. *)
Definition send {A} (cmd : command) (reply : Client -> Js.outcome A * Client)
  : M A :=
  fun c =>
    match fate_of c cmd with
    | Replies =>
        match reply c with
        | (Js.Returned a, c') => (Promise.Fulfilled a, c')
        | (Js.Threw e, c') => (Promise.Rejected e, c')
        end
    | Rejects => (Promise.Rejected connection_error, c)
    | Queued => (Promise.Pending, c)
    end.

Definition client_connect : M unit :=
  fun c =>
    match fate_of c CONNECT with
    | Replies => (Promise.Fulfilled tt, mkClient true (store c) (fate_of c))
    | Rejects => (Promise.Rejected connection_error, c)
    | Queued => (Promise.Pending, mkClient true (store c) (fate_of c))
    end.

(** A key lives up to its time and is gone after it. *)
Definition alive (now : Z) (entry : string * Z) : bool := (now <=? snd entry)%Z.

Definition read (now : Z) (values : gmap string (string * Z)) (key : string)
  : option string :=
  match values !! key with
  | Some entry => if alive now entry then Some (fst entry) else None
  | None => None
  end.

Definition client_get (now : Z) (key : string) : M (option string) :=
  send (GET key) (fun c => (Js.Returned (read now (store c) key), c)).

(** The time up to which [SETEX key seconds value], received at [now],
    lets the key live; the server refuses a time to live that is not a
    whole number of seconds from 1 on, or that leaves its 64-bit clock. *)
Definition LLONG_MAX : Z := 9223372036854775807%Z.

Definition expiry (now : Z) (seconds : Q) : option Z :=
  let r := Qred seconds in
  if Pos.eqb (Qden r) 1 then
    let s := Qnum r in
    if ((1 <=? s) && (s <=? LLONG_MAX / 1000)
        && (s * 1000 <=? LLONG_MAX - now))%Z
    then Some (now + s * 1000)%Z
    else None
  else None.

Definition client_setEx (now : Z) (key : string) (seconds : Q) (value : string)
  : M unit :=
  send (SETEX key)
    (fun c =>
       match expiry now seconds with
       | Some until =>
           (Js.Returned tt,
            mkClient (isOpen c) (<[key := (value, until)]> (store c)) (fate_of c))
       | None => (Js.Threw "ERR invalid expire time in 'setex' command", c)
       end).

Definition client_del (key : string) : M unit :=
  send (DEL key)
    (fun c =>
       (Js.Returned tt, mkClient (isOpen c) (delete key (store c)) (fate_of c))).

(** [KEYS pattern] lists the keys that live and match; how the server
    matches a key against a glob pattern is [glob_match]. *)
Definition live_keys (now : Z) (values : gmap string (string * Z)) : list string :=
  map fst (List.filter (fun kv => alive now (snd kv)) (map_to_list values)).

Definition client_keys (glob_match : string -> string -> bool) (now : Z)
    (pattern : string) : M (list string) :=
  send (KEYS pattern)
    (fun c =>
       (Js.Returned (List.filter (glob_match pattern) (live_keys now (store c))),
        c)).

Definition client_del_keys (keys : list string) : M unit :=
  send (DEL_keys keys)
    (fun c =>
       (Js.Returned tt,
        mkClient (isOpen c) (foldr delete (store c) keys) (fate_of c))).

(** [if (!redisClient.isOpen) { await redisClient.connect() }]. *)
Definition ensure_open : M unit :=
  fun c => if isOpen c then (Promise.Fulfilled tt, c) else client_connect c.

Section Json.

(** The values handlers send, with [JSON.parse], [JSON.stringify] (both
    may throw) and truthiness. *)
Variable body : Type.
Variable JSON_parse : string -> Js.outcome body.
Variable JSON_stringify : body -> Js.outcome string.
Variable truthy : body -> bool.

(** [getCached], called at [now]: [None] is [null]. *)
Definition getCached (now : Z) (key : string) : M (option body) :=
  Promise.try_catch
    (ensure_open ;;
     value ← client_get now key;
     match value with
     | Some v =>
         if negb (String.eqb v "")
         then parsed ← Promise.settle (JSON_parse v); mret (Some parsed)
         else mret None
     | None => mret None
     end)
    (fun error => mret None).

(** [setCached], whose time to live defaults to 3600 seconds. *)
Definition setCached (now : Z) (key : string) (value : body)
    (ttlSeconds : option Q) : M unit :=
  Promise.try_catch
    (ensure_open ;;
     text ← Promise.settle (JSON_stringify value);
     client_setEx now key (default 3600%Q ttlSeconds) text)
    (fun error => mret tt).

Definition deleteCached (key : string) : M unit :=
  Promise.try_catch (ensure_open ;; client_del key) (fun error => mret tt).

End Json.

(** [invalidatePattern]. *)
Definition invalidatePattern (glob_match : string -> string -> bool) (now : Z)
    (pattern : string) : M unit :=
  Promise.try_catch
    (ensure_open ;;
     keys ← client_keys glob_match now pattern;
     if (0 <? length keys)%nat then client_del_keys keys else mret tt)
    (fun error => mret tt).

End Redis.

(** ** middleware/cache.ts *)

Module Cache.

Record Request := mkRequest {
  method : string;
  path : string;
  (** [JSON.stringify(req.query)] *)
  query_json : string;
  accountId : option string
}.

Record CacheOptions := mkCacheOptions {
  ttl : option Q;
  keyGenerator : option (Request -> string)
}.

(** [req.accountId || 'anonymous']. *)
Definition account_or_anonymous (req : Request) : string :=
  match accountId req with
  | Some a => if String.eqb a "" then "anonymous" else a
  | None => "anonymous"
  end.

Definition cacheKey_of (options : CacheOptions) (req : Request) : string :=
  match keyGenerator options with
  | Some generate => generate req
  | None =>
      "cache:" ++ path req ++ ":" ++ query_json req ++ ":"
        ++ account_or_anonymous req
  end.

Section Middleware.

Variable body : Type.
Variable JSON_parse : string -> Js.outcome body.
Variable JSON_stringify : body -> Js.outcome string.
Variable truthy : body -> bool.

(** The route behind the middleware: the body it passes to [res.json]. *)
Variable handler : Request -> body.

(** The wrapped [res.json]: [setCached] is called and not awaited, and
    the body is sent. *)
Definition send_and_store (later : Z) (cacheKey : string) (ttlSeconds : Q)
    (sent : body) : Redis.M body :=
  Promise.detached
    (Redis.setCached body JSON_stringify later cacheKey sent (Some ttlSeconds)) ;;
  mret sent.

(** [cacheMiddleware(options)(req, res, next)]: the body the client
    receives, for a request whose cache is read at [now] and whose
    handler answers at [later].  A request other than GET goes straight
    to the handler; a truthy cached value is sent as it is; otherwise the
    handler runs behind the wrapped [res.json] (time to live 300 seconds
    by default); and while [getCached] is pending nothing is sent. *)
Definition cacheMiddleware (options : CacheOptions) (req : Request)
    (now later : Z) : Redis.M body :=
  if negb (String.eqb (method req) "GET") then mret (handler req)
  else
    let cacheKey := cacheKey_of options req in
    let ttlSeconds := default 300%Q (ttl options) in
    Promise.try_catch
      (cached ← Redis.getCached body JSON_parse now cacheKey;
       match cached with
       | Some hit =>
           if truthy hit then mret hit
           else send_and_store later cacheKey ttlSeconds (handler req)
       | None => send_and_store later cacheKey ttlSeconds (handler req)
       end)
      (fun error => mret (handler req)).

End Middleware.

End Cache.

(** ** The ML service, as the routes see it *)

Module MlService.

(** What an axios call comes back with: the response body, or an
    [AxiosError] carrying the status and the [detail] of the error
    response when there is one. *)
Inductive axios (A : Type) : Type :=
| Replied (data : A)
| AxiosError (response_status : option nat) (detail : option string).
Arguments Replied {A} data.
Arguments AxiosError {A} response_status detail.

(** The requests the routes send. *)
Inductive call :=
| GetForecast (account_id : string) (horizon : Z)
| PostOptimizerRun (account_id : string) (budget : Js.scalar) (constraints : string)
| PostAttributionRun (account_id : string)
| GetAttribution (job_id : string).

(** The body of [GET /attribution/:job_id]: [{ status, data, message }]. *)
Record JobReply := mkJobReply {
  reply_status : option string;
  reply_data : option string;
  reply_message : option string
}.

Inductive job_status := pending | processing | completed | failed.

Definition status_name (s : job_status) : string :=
  match s with
  | pending => "pending"
  | processing => "processing"
  | completed => "completed"
  | failed => "failed"
  end.

(** Modelled from the spec: the job record of the ML service, whose
    Python source is not part of the sources at hand ([{id, account_id,
    status, result, error}]; a job belongs to exactly one account). *)
Record Job := mkJob {
  job_id : string;
  job_account_id : string;
  status : job_status;
  result : option string;
  job_error : option string
}.

(** Modelled from the spec: [GET /attribution/:job_id] of the ML service
    looks the job up by the id in the URL, the only thing the request
    carries, and answers 404 for an unknown id. *)
Definition get_attribution (jobs : list Job) (id : string) : axios JobReply :=
  match List.find (fun j => String.eqb (job_id j) id) jobs with
  | Some j =>
      Replied (mkJobReply (Some (status_name (status j))) (result j) (job_error j))
  | None => AxiosError (Some 404%nat) (Some "Job not found")
  end.

End MlService.

(** ** routes/forecast.ts, routes/optimizer.ts, routes/models.ts *)

Module Routes.
Import MlService.

(** The JSON bodies the routes send. *)
Inductive Body :=
| ErrorMessage (message : string)
| Success (data : string)
| SuccessRow (account_id : string) (id : string) (data : string)
| JobStatus (status : string) (message : option string) (job_id : string).

(** How a handler ends: [res.status(code).json(body)], or [next(error)]
    with an [AppError]. *)
Inductive Response :=
| Respond (code : nat) (body : Body)
| NextError (message : string) (statusCode : nat).

(** [if (!req.accountId)]. *)
Definition authenticated (accountId : option string) : option string :=
  match accountId with
  | Some a => if String.eqb a "" then None else Some a
  | None => None
  end.

(** [error.response?.status || 502] and
    [error.response?.data?.detail || 'ML service unavailable']. *)
Definition relay_axios_error (response_status : option nat)
    (detail : option string) : Response :=
  let code :=
    match response_status with
    | Some 0%nat | None => 502%nat
    | Some s => s
    end in
  let message :=
    match detail with
    | Some d => if String.eqb d "" then "ML service unavailable" else d
    | None => "ML service unavailable"
    end in
  Respond code (ErrorMessage message).

(** *** GET /api/v1/forecast *)

(** [parseInt(req.query.horizon as string) || 30]: NaN and zero are both
    falsy. *)
Definition horizon_of (param : option string) : Z :=
  match param with
  | Some s =>
      match Js.parseInt s with
      | Some h => if (h =? 0)%Z then 30%Z else h
      | None => 30%Z
      end
  | None => 30%Z
  end.

Definition forecast (ml : string -> Z -> axios string)
    (accountId : option string) (horizon_param : option string)
  : Response * list call :=
  match authenticated accountId with
  | None => (NextError "Unauthorized" 401, [])
  | Some account =>
      let horizon := horizon_of horizon_param in
      if (horizon <? 7)%Z || (90 <? horizon)%Z then
        (Respond 400 (ErrorMessage "Horizon must be between 7 and 90 days"), [])
      else
        (match ml account horizon with
         | Replied data => Respond 200 (Success data)
         | AxiosError st detail => relay_axios_error st detail
         end,
         [GetForecast account horizon])
  end.

(** *** POST /api/v1/optimizer/run *)

(** [const { budget, constraints } = req.body]: the budget is passed on
    as it came; absent constraints become [{}]. *)
Definition optimizer (ml : string -> Js.scalar -> string -> axios string)
    (accountId : option string) (budget : Js.scalar)
    (constraints : option string) : Response * list call :=
  match authenticated accountId with
  | None => (NextError "Unauthorized" 401, [])
  | Some account =>
      if negb (Js.truthy budget) || Js.le_zero budget then
        (Respond 400 (ErrorMessage "Budget must be greater than 0"), [])
      else
        let constraints' := default "{}" constraints in
        (match ml account budget constraints' with
         | Replied data => Respond 200 (Success data)
         | AxiosError st detail => relay_axios_error st detail
         end,
         [PostOptimizerRun account budget constraints'])
  end.

(** *** GET /api/v1/models/attribution/:id *)

(** A row of [attribution_results]; [ar_data] stands for the model
    columns, and a NULL [expires_at] is [None]. *)
Record AttributionResult := mkAttributionResult {
  ar_id : string;
  ar_account_id : string;
  ar_data : string;
  expires_at : option Z
}.

(** [expires_at IS NULL OR expires_at > NOW()]. *)
Definition not_expired (now : Z) (r : AttributionResult) : bool :=
  match expires_at r with
  | None => true
  | Some e => (now <? e)%Z
  end.

(** The cache query of the handler. *)
Definition select_cached (attribution_results : list AttributionResult)
    (now : Z) (accountId id : string) : list AttributionResult :=
  List.filter
    (fun r => String.eqb (ar_account_id r) accountId
              && String.eqb (ar_id r) id
              && not_expired now r)
    attribution_results.

(** [response.data.status === 'completed' && response.data.data]: the
    job is completed and its data is there and is not the empty text. *)
Definition has_result (r : JobReply) : option string :=
  match reply_status r, reply_data r with
  | Some st, Some data =>
      if String.eqb st "completed" && negb (String.eqb data "")
      then Some data else None
  | _, _ => None
  end.

(** What the handler makes of the reply of the ML service. *)
Definition relay_job (id : string) (reply : axios JobReply) : Response :=
  match reply with
  | AxiosError _ _ => Respond 502 (ErrorMessage "ML service unavailable")
  | Replied r =>
      match has_result r with
      | Some data => Respond 200 (Success data)
      | None =>
          let shown :=
            match reply_status r with
            | Some s => if String.eqb s "" then "unknown" else s
            | None => "unknown"
            end in
          Respond 200 (JobStatus shown (reply_message r) id)
      end
  end.

Definition attribution_by_id (attribution_results : list AttributionResult)
    (now : Z) (ml : string -> axios JobReply)
    (accountId : option string) (id : string) : Response * list call :=
  match authenticated accountId with
  | None => (NextError "Unauthorized" 401, [])
  | Some account =>
      match select_cached attribution_results now account id with
      | row :: _ =>
          (Respond 200 (SuccessRow (ar_account_id row) (ar_id row) (ar_data row)),
           [])
      | [] => (relay_job id (ml id), [GetAttribution id])
      end
  end.

End Routes.

(** ** routes/uploads.ts: validation of the parsed CSV records *)

Module Uploads.
Import Validation ChannelNormalization.

(** An issue of a [ZodError]: [{ path, message }]. *)
Record ZodIssue := mkZodIssue {
  issue_path : list string;
  issue_message : string
}.

(** What the loop pushes on [metrics]: the parsed row with its channel
    replaced by the normalised one. *)
Record Metric := mkMetric {
  row : MarketingMetrics.MetricInput;
  normalizedChannel : channel_value
}.

(** The three arrays the loop fills. *)
Record Collected := mkCollected {
  metrics : list Metric;
  errors : list string;
  dates : list string
}.

Definition nothing : Collected := mkCollected [] [] [].

(** The prefix [Row ${i + 2}: ] of a per-row message. *)
Definition row_label (i : nat) : string := "Row " ++ pretty (i + 2)%nat ++ ": ".

Definition zod_message (issues : list ZodIssue) : string :=
  Js.join ", "
    (map (fun e => Js.join "." (issue_path e) ++ ": " ++ issue_message e) issues).

(** [[...new Set(xs)]]: the first occurrence of every element, in order. *)
Fixpoint dedupe_from (seen : gset string) (xs : list string) : list string :=
  match xs with
  | [] => []
  | x :: xs' =>
      if bool_decide (x ∈ seen) then dedupe_from seen xs'
      else x :: dedupe_from ({[x]} ∪ seen) xs'
  end.

Definition dedupe (xs : list string) : list string := dedupe_from ∅ xs.

Section Handler.

(** One parsed CSV record, and [csvRowSchema.parse] on it: the row, or
    the issues of the [ZodError] it throws. *)
Variable record : Type.
Variable csvRowSchema_parse : record -> list ZodIssue + MarketingMetrics.MetricInput.

Variable Date_parse : string -> option Z.
Variable channel_normalization : list NormalizationRow.

(** The two clock readings [validateDateRange] takes at row [i]. *)
Variable clock : nat -> Z * Z.

Variable accountId : string.
Variable tier : option string.

(** [req.tier === 'free' ? 730 : 3650]. *)
Definition maxDaysBack : Z :=
  match tier with
  | Some t => if String.eqb t "free" then 730%Z else 3650%Z
  | None => 3650%Z
  end.

(** One turn of the [for] loop, for the record at index [i]. *)
Definition upload_row (i : nat) (rec : record) (st : Collected) : Collected :=
  match csvRowSchema_parse rec with
  | inl issues =>
      mkCollected (metrics st)
        (errors st ++ [row_label i ++ zod_message issues]) (dates st)
  | inr parsed =>
      let normalized :=
        normalizeChannel channel_normalization accountId
          (MarketingMetrics.channel parsed) in
      let dateValidation :=
        validateDateRange Date_parse (fst (clock i)) (snd (clock i))
          (MarketingMetrics.date parsed) (Some maxDaysBack) in
      if negb (valid dateValidation) then
        mkCollected (metrics st)
          (errors st ++ [row_label i ++ default "undefined" (error dateValidation)])
          (dates st)
      else
        mkCollected (metrics st ++ [mkMetric parsed normalized]) (errors st)
          (dates st ++ [MarketingMetrics.date parsed])
  end.

(** The loop over [records], from index [i] on. *)
Fixpoint upload_rows (i : nat) (records : list record) (st : Collected)
  : Collected :=
  match records with
  | [] => st
  | rec :: records' => upload_rows (S i) records' (upload_row i rec st)
  end.

(** The minimum-data step after the loop.  [existingDays] is the
    [COUNT(DISTINCT date)] of the account; the placeholders standing for
    those days are empty strings, which [filter(Boolean)] drops again. *)
Definition minimum_days_step (existingDays : nat) (st : Collected) : Collected :=
  match metrics st with
  | [] => st
  | _ :: _ =>
      let allDates := dedupe (dates st ++ replicate existingDays "") in
      let minDaysValidation :=
        validateMinimumDataDays accountId
          (List.filter (fun d => negb (String.eqb d "")) allDates) in
      if negb (valid minDaysValidation) && (existingDays <? 60)%nat then
        mkCollected (metrics st)
          (errors st ++
             ["Warning: " ++ default "undefined" (error minDaysValidation)
                ++ ". Attribution models require at least 60 days of data."])
          (dates st)
      else st
  end.

(** Where validation ends: the 400 response 'CSV validation failed' with
    the collected messages, or the rows to store with the messages that
    go into the success response. *)
Inductive verdict :=
| Rejected (errors : list string)
| Accepted (metrics : list Metric) (errors : list string).

Definition validate_upload (existingDays : nat) (records : list record)
  : verdict :=
  let st := minimum_days_step existingDays (upload_rows 0 records nothing) in
  match errors st, metrics st with
  | _ :: _, [] => Rejected (errors st)
  | _, _ => Accepted (metrics st) (errors st)
  end.

End Handler.

End Uploads.

(** ** middleware/auth.ts *)

Module Auth.

(** The payload [jwt.verify] hands back; the cast in the source checks
    nothing, so every member may be missing. *)
Record Claims := mkClaims {
  userId : option string;
  accountId : option string;
  tier : option string
}.

(** What [jwt.verify(token, secret)] does: it returns the payload, throws
    a [JsonWebTokenError] (also for an expired token), or throws
    something else. *)
Inductive verified :=
| Decoded (claims : Claims)
| JsonWebTokenError (message : string)
| OtherError (message : string).

(** How the middleware ends: [next()] with the request fields set, or
    [next(error)] with an [AppError] (which has a status code) or a plain
    [Error]. *)
Inductive outcome :=
| Next (claims : Claims)
| NextAppError (message : string) (statusCode : nat)
| NextPlainError (message : string).

Definition falsy (s : option string) : bool :=
  match s with
  | Some t => String.eqb t ""
  | None => true
  end.

Section Authenticate.

Variable jwt_verify : string -> string -> verified.

(** [authenticate]: [JWT_SECRET] is [process.env.JWT_SECRET]. *)
Definition authenticate (JWT_SECRET : option string)
    (authorization : option string) : outcome :=
  match authorization with
  | None => NextAppError "No token provided" 401
  | Some authHeader =>
      if String.eqb authHeader "" || negb (String.prefix "Bearer " authHeader)
      then NextAppError "No token provided" 401
      else
        let token := String.substring 7 (String.length authHeader - 7) authHeader in
        match JWT_SECRET with
        | None => NextPlainError "JWT_SECRET not configured"
        | Some secret =>
            if String.eqb secret "" then NextPlainError "JWT_SECRET not configured"
            else
              match jwt_verify token secret with
              | Decoded claims => Next claims
              | JsonWebTokenError _ => NextAppError "Invalid token" 401
              | OtherError message => NextPlainError message
              end
        end
  end.

End Authenticate.

(** [requirePremium]: the 403 response, or [None] for [next()]. *)
Definition premium_required : Routes.Response :=
  Routes.Respond 403
    (Routes.ErrorMessage "Premium feature. Please upgrade to access this feature.").

Definition is_premium (tier : option string) : bool :=
  match tier with
  | Some t => String.eqb t "premium"
  | None => false
  end.

Definition requirePremium (tier : option string) : option Routes.Response :=
  if is_premium tier then None else Some premium_required.

(** How a request to a route behind the middleware ends. *)
Inductive served :=
| ByAuthenticate (o : outcome)
| ByRoute (response : Routes.Response) (calls : list MlService.call).

Section Chains.

Variable jwt_verify : string -> string -> verified.
Variable JWT_SECRET : option string.

(** [router.get(path, authenticate, requirePremium, handler)]. *)
Definition premium_route
    (handler : option string -> Routes.Response * list MlService.call)
    (authorization : option string) : served :=
  match authenticate jwt_verify JWT_SECRET authorization with
  | Next claims =>
      match requirePremium (tier claims) with
      | Some forbidden => ByRoute forbidden []
      | None =>
          let '(response, calls) := handler (accountId claims) in
          ByRoute response calls
      end
  | rejected => ByAuthenticate rejected
  end.

End Chains.

End Auth.

(** ** routes/models.ts: POST /api/v1/models/attribution/run *)

Module ModelsRoute.
Import MlService.

(** [{ status: 'success', data: { job_id } }] or an error body. *)
Inductive RunBody :=
| JobStarted (job_id : string)
| RunFailed (message : string).

Inductive RunResponse :=
| RunRespond (code : nat) (body : RunBody)
| RunNextError (message : string) (statusCode : nat).

Definition attribution_run (ml : string -> axios string)
    (accountId : option string) : RunResponse * list call :=
  match Routes.authenticated accountId with
  | None => (RunNextError "Unauthorized" 401, [])
  | Some account =>
      (match ml account with
       | Replied job_id => RunRespond 200 (JobStarted job_id)
       | AxiosError _ _ => RunRespond 502 (RunFailed "ML service unavailable")
       end,
       [PostAttributionRun account])
  end.

End ModelsRoute.

(** ** The free-tier limits: FREE_TIER_LIMITS and enforceFreeTier *)

Module FreeTier.

Definition maxChannels : Q := 5.
Definition maxDataRows : Q := 500.
Definition historicalDays : Q := 90.

(** The [data] argument of [enforceFreeTier]. *)
Record Usage := mkUsage {
  rows : option Q;
  channels : option Q;
  days : option Q
}.

(** [x && x > limit] on an optional number: absent and zero are falsy. *)
Definition exceeds (x : option Q) (limit : Q) : bool :=
  match x with
  | Some q => negb (Qeq_bool q 0) && negb (Qle_bool q limit)
  | None => false
  end.

(** [enforceFreeTier]: returns, or throws an [Error] with a message. *)
Definition enforceFreeTier (tier : string) (data : Usage) : Js.outcome unit :=
  if String.eqb tier "free" then
    if exceeds (rows data) maxDataRows then
      Js.Threw "Free tier limit: 500 rows per month. Please upgrade to Premium."
    else if exceeds (channels data) maxChannels then
      Js.Threw "Free tier limit: 5 channels. Please upgrade to Premium."
    else if exceeds (days data) historicalDays then
      Js.Threw "Free tier limit: 90 days of history. Please upgrade to Premium."
    else Js.Returned tt
  else Js.Returned tt.

End FreeTier.

(** ** routes/data.ts *)

Module DataRoutes.
Import ChannelNormalization.

(** *** GET /api/v1/data/summary *)

(** [req.tier === 'free' ? 90 : parseInt(req.query.days as string) || 365]. *)
Definition is_free (tier : option string) : bool :=
  match tier with
  | Some t => String.eqb t "free"
  | None => false
  end.

Definition summary_days (tier : option string) (days_param : option string) : Z :=
  if is_free tier then 90%Z
  else
    match days_param with
    | Some s =>
        match Js.parseInt s with
        | Some d => if (d =? 0)%Z then 365%Z else d
        | None => 365%Z
        end
    | None => 365%Z
    end.

Definition summary_cacheKey (accountId : string) (days : Z) : string :=
  "data:summary:" ++ accountId ++ ":" ++ pretty days.

Section Summary.

(** The [data] object of the response, with the JSON functions on it. *)
Variable body : Type.
Variable JSON_parse : string -> Js.outcome body.
Variable JSON_stringify : body -> Js.outcome string.
Variable truthy : body -> bool.

(** [{ status: 'success', data }], or [next(error)]. *)
Inductive SummaryResponse :=
| SummaryData (data : body)
| SummaryNextError (message : string) (statusCode : option nat).

(** The two reads of the database ([getSummary] and [getTimeSeries] over
    the last [days] days) put together with [period_days]; they may
    throw. *)
Variable fetch : string -> Z -> Js.outcome body.

(** What the handler does with the data it has read: [await
    setCached(cacheKey, data, 300)], then the response. *)
Definition store_and_respond (later : Z) (cacheKey : string)
    (fetched : Js.outcome body) : Redis.M SummaryResponse :=
  match fetched with
  | Js.Threw e => mret (SummaryNextError e None)
  | Js.Returned data =>
      Redis.setCached body JSON_stringify later cacheKey data (Some 300%Q) ;;
      mret (SummaryData data)
  end.

(** The handler, for a request whose cache is read at [now] and whose
    data is stored at [later]. *)
Definition summary (accountId tier days_param : option string) (now later : Z)
  : Redis.M SummaryResponse :=
  match Routes.authenticated accountId with
  | None => mret (SummaryNextError "Unauthorized" (Some 401%nat))
  | Some account =>
      let days := summary_days tier days_param in
      let cacheKey := summary_cacheKey account days in
      cached ← Redis.getCached body JSON_parse now cacheKey;
      match cached with
      | Some hit =>
          if truthy hit then mret (SummaryData hit)
          else store_and_respond later cacheKey (fetch account days)
      | None => store_and_respond later cacheKey (fetch account days)
      end
  end.

End Summary.

(** *** POST /api/v1/data/map *)

(** An element of [mappings]; a member that is missing is sent as NULL. *)
Record Mapping := mkMapping {
  m_raw_name : option string;
  m_normalized_name : option string
}.

(** The table [channel_normalization] with the accounts its foreign key
    refers to. *)
Record Tables := mkTables {
  accounts : gset string;
  channel_normalization : list NormalizationRow
}.

(** [ON CONFLICT (account_id, raw_name) DO UPDATE SET normalized_name]. *)
Fixpoint upsert_mapping (fresh : NormalizationRow) (rows : list NormalizationRow)
  : list NormalizationRow :=
  match rows with
  | [] => [fresh]
  | r :: rows' =>
      if bool_decide (nr_account_id r = nr_account_id fresh /\
                      raw_name r = raw_name fresh)
      then mkNormalizationRow (nr_account_id r) (raw_name r) (normalized_name fresh)
           :: rows'
      else r :: upsert_mapping fresh rows'
  end.

(** The INSERT statement for one mapping.  Both names are [NOT NULL] and
    [VARCHAR(255)], and the account must exist. *)
Definition query_INSERT_mapping (accountId : string) (mapping : Mapping)
  : Js.Eff Tables unit :=
  fun t =>
    match m_raw_name mapping, m_normalized_name mapping with
    | Some raw, Some normalized =>
        if (255 <? String.length raw)%nat || (255 <? String.length normalized)%nat
        then (Js.Threw "value too long for type character varying(255)", t)
        else if negb (bool_decide (accountId ∈ accounts t))
        then (Js.Threw "violates foreign key constraint", t)
        else
          (Js.Returned tt,
           mkTables (accounts t)
             (upsert_mapping (mkNormalizationRow accountId raw normalized)
                (channel_normalization t)))
    | _, _ => (Js.Threw "violates not-null constraint", t)
    end.

(** The loop of the handler: one statement after the other, each on its
    own (there is no transaction). *)
Definition save_mappings (accountId : string) (mappings : list Mapping)
  : Js.Eff Tables unit :=
  Js.for_each mappings (query_INSERT_mapping accountId).

Inductive MapResponse :=
| MapRespond (code : nat) (status message : string)
| MapNextError (message : string) (statusCode : option nat).

Section MapHandler.

Variable glob_match : string -> string -> bool.

(** The statements of the handler on the tables, inside its [async]
    body. *)
Definition on_tables {A} (m : Js.Eff Tables A)
  : Promise.Eff (Tables * Redis.Client) A :=
  fun '(t, c) =>
    match m t with
    | (Js.Returned a, t') => (Promise.Fulfilled a, (t', c))
    | (Js.Threw e, t') => (Promise.Rejected e, (t', c))
    end.

Definition on_redis {A} (m : Redis.M A) : Promise.Eff (Tables * Redis.Client) A :=
  fun '(t, c) => let '(r, c') := m c in (r, (t, c')).

(** The handler, at [now]; [mappings] is [None] when the body member is
    not an array.  The two invalidations are awaited: while one of them is
    pending, the mappings are saved and no response is sent. *)
Definition map_channels (now : Z) (accountId : option string)
    (mappings : option (list Mapping))
  : Promise.Eff (Tables * Redis.Client) MapResponse :=
  match Routes.authenticated accountId with
  | None => mret (MapNextError "Unauthorized" (Some 401%nat))
  | Some account =>
      match mappings with
      | None => mret (MapRespond 400 "error" "Mappings must be an array")
      | Some ms =>
          Promise.try_catch
            (on_tables (save_mappings account ms) ;;
             on_redis (Redis.invalidatePattern glob_match now
                         ("data:summary:" ++ account ++ ":*")) ;;
             on_redis (Redis.invalidatePattern glob_match now
                         ("data:timeseries:" ++ account ++ ":*")) ;;
             mret (MapRespond 200 "success" "Channel mappings saved"))
            (fun error => mret (MapNextError error None))
      end
  end.

End MapHandler.

End DataRoutes.

(** ** routes/uploads.ts: POST /api/v1/uploads/csv, from file to response *)

Module UploadRoute.
Import ChannelNormalization.

(** [req.file]: the bytes as text, and the name the client gave. *)
Record File := mkFile {
  buffer : string;
  originalname : string
}.

(** A row of [csv_uploads]. *)
Record Upload := mkUpload {
  up_id : nat;
  up_account_id : string;
  s3_key : string;
  filename : string;
  row_count : nat;
  up_status : string;
  error_message : option string
}.

(** What the route works on: the database, the table of uploads, the S3
    bucket and the Redis client. *)
Record World := mkWorld {
  db : MarketingMetrics.Db;
  csv_uploads : list Upload;
  bucket : list (string * string);
  redis : Redis.Client
}.

(** The statements the handler itself sends to the pool; each may be
    rejected for a reason of the database's own (the connection is
    lost). *)
Inductive statement := CountDays | InsertUpload | UpdateCompleted | UpdateFailed.

(** The ways the handler ends: an error response, the success response
    (with [errors] left out when there are none), or [next(error)]. *)
Inductive Response :=
| Refused (code : nat) (message : string) (errors : option (list string))
| Stored (upload_id : nat) (rows_processed : nat) (errors : option (list string))
| NextError (message : string) (statusCode : option nat).

(** [text.split('\n')]: the pieces between line feeds. *)
Fixpoint split_lines (text : string) : list string :=
  match text with
  | EmptyString => [EmptyString]
  | String c text' =>
      if Ascii.eqb c "010"%char then EmptyString :: split_lines text'
      else
        match split_lines text' with
        | line :: lines => String c line :: lines
        | [] => [String c EmptyString]
        end
  end.

(** [req.file.buffer.toString().split('\n').length - 1]. *)
Definition rowCount (text : string) : nat := (length (split_lines text) - 1)%nat.

Definition is_free (tier : option string) : bool :=
  match tier with
  | Some t => String.eqb t "free"
  | None => false
  end.

(** [SELECT COUNT(DISTINCT date) ... WHERE account_id = $1]. *)
Definition existing_days (d : MarketingMetrics.Db) (accountId : string) : nat :=
  size (list_to_set
          (map MarketingMetrics.m_date
             (List.filter
                (fun r => String.eqb (MarketingMetrics.account_id r) accountId)
                (MarketingMetrics.marketing_daily_metrics d))) : gset Z).

Section Handler.

Variable record : Type.
Variable csvRowSchema_parse :
  record -> list Uploads.ZodIssue + MarketingMetrics.MetricInput.
Variable Date_parse : string -> option Z.
Variable channel_normalization : list NormalizationRow.
Variable clock : nat -> Z * Z.

(** [parse(text, { columns: true, ... })] of csv-parse, which may throw. *)
Variable csv_parse : string -> Js.outcome (list record).

Variable pg_date : string -> option Z.
Variable now : Z.

(** [Date.now()] when the S3 key is made, and the error [putObject] of a
    key throws, if it does. *)
Variable Date_now : Z.
Variable s3_error : string -> option string.

(** The text the database driver sends for a channel that is not a
    string (a value found on [Object.prototype]). *)
Variable prototype_text : string -> string.

Variable glob_match : string -> string -> bool.

(** The error with which the database rejects a statement of the
    handler, if it does, and the time at the Redis server. *)
Variable fault : statement -> option string.
Variable redis_now : Z.

(** The row [bulkInsert] is given for an accepted metric. *)
Definition to_input (m : Uploads.Metric) : MarketingMetrics.MetricInput :=
  let r := Uploads.row m in
  MarketingMetrics.mkMetricInput
    (MarketingMetrics.date r)
    (match Uploads.normalizedChannel m with
     | Name s => s
     | PrototypeValue p => prototype_text p
     end)
    (MarketingMetrics.spend r) (MarketingMetrics.revenue r)
    (MarketingMetrics.impressions r) (MarketingMetrics.clicks r)
    (MarketingMetrics.conversions r) (MarketingMetrics.new_customers r)
    (MarketingMetrics.returning_customers r).

Definition s3Key_of (accountId : string) (file : File) : string :=
  "uploads/" ++ accountId ++ "/" ++ pretty Date_now ++ "-" ++ originalname file.

Definition free_tier_message : string :=
  "Free tier limit: 500 rows per month. Please upgrade to Premium.".

Abbreviation M := (Promise.Eff World).

Definition throw {A} (e : string) : M A := fun w => (Promise.Rejected e, w).

(** [s3.putObject(...).promise()]. *)
Definition putObject (key text : string) : M unit :=
  fun w =>
    match s3_error key with
    | Some e => (Promise.Rejected e, w)
    | None =>
        (Promise.Fulfilled tt,
         mkWorld (db w) (csv_uploads w) ((key, text) :: bucket w) (redis w))
    end.

(** [INSERT INTO csv_uploads ... 'processing' RETURNING id]; the id is
    [uuid]. *)
Definition query_INSERT_upload (uuid : nat) (account s3Key name : string)
    (rows : nat) : M nat :=
  fun w =>
    match fault InsertUpload with
    | Some e => (Promise.Rejected e, w)
    | None =>
        if (500 <? String.length s3Key)%nat
        then (Promise.Rejected "value too long for type character varying(500)", w)
        else if (255 <? String.length name)%nat
        then (Promise.Rejected "value too long for type character varying(255)", w)
        else if negb (bool_decide (account ∈ MarketingMetrics.accounts (db w)))
        then (Promise.Rejected "violates foreign key constraint", w)
        else
          (Promise.Fulfilled uuid,
           mkWorld (db w)
             (csv_uploads w
              ++ [mkUpload uuid account s3Key name rows "processing" None])
             (bucket w) (redis w))
    end.

(** [UPDATE csv_uploads SET status = $1 WHERE id = $2], and the same with
    [error_message] set. *)
Definition set_status (uploadId : nat) (status : string)
    (message : option string) (u : Upload) : Upload :=
  if Nat.eqb (up_id u) uploadId
  then mkUpload (up_id u) (up_account_id u) (s3_key u) (filename u) (row_count u)
         status
         (match message with Some m => Some m | None => error_message u end)
  else u.

Definition query_UPDATE (which : statement) (uploadId : nat) (status : string)
    (message : option string) : M unit :=
  fun w =>
    match fault which with
    | Some e => (Promise.Rejected e, w)
    | None =>
        (Promise.Fulfilled tt,
         mkWorld (db w) (map (set_status uploadId status message) (csv_uploads w))
           (bucket w) (redis w))
    end.

Definition bulkInsert (uuid : nat) (account : string)
    (metrics : list MarketingMetrics.MetricInput) : M unit :=
  fun w =>
    match MarketingMetrics.bulkInsert pg_date now uuid account metrics (db w) with
    | (Js.Returned _, db') =>
        (Promise.Fulfilled tt, mkWorld db' (csv_uploads w) (bucket w) (redis w))
    | (Js.Threw e, db') =>
        (Promise.Rejected e, mkWorld db' (csv_uploads w) (bucket w) (redis w))
    end.

Definition invalidatePattern (pattern : string) : M unit :=
  fun w =>
    let '(r, c) := Redis.invalidatePattern glob_match redis_now pattern (redis w) in
    (r, mkWorld (db w) (csv_uploads w) (bucket w) c).

(** From the upload to S3 to the response. *)
Definition store_upload (uuid_seed : nat) (f : File) (account : string)
    (metrics : list Uploads.Metric) (errors : list string) : M Response :=
  let s3Key := s3Key_of account f in
  putObject s3Key (buffer f) ;;
  uploadId ← query_INSERT_upload uuid_seed account s3Key (originalname f)
               (length metrics);
  Promise.try_catch
    (bulkInsert (S uuid_seed) account (map to_input metrics) ;;
     query_UPDATE UpdateCompleted uploadId "completed" None ;;
     invalidatePattern ("data:summary:" ++ account ++ ":*") ;;
     invalidatePattern ("data:timeseries:" ++ account ++ ":*"))
    (fun error =>
       query_UPDATE UpdateFailed uploadId "failed" (Some error) ;;
       throw error) ;;
  mret (Stored uploadId (length metrics)
          (match errors with [] => None | _ => Some errors end)).

(** The handler.  [uuid_seed] is the source of [gen_random_uuid()]. *)
Definition upload_csv (uuid_seed : nat) (file : option File)
    (accountId tier : option string) : M Response :=
  match file with
  | None => mret (Refused 400 "No file uploaded" None)
  | Some f =>
      match Routes.authenticated accountId with
      | None => mret (NextError "Unauthorized" (Some 401%nat))
      | Some account =>
          if is_free tier && (500 <? rowCount (buffer f))%nat
          then mret (Refused 403 free_tier_message None)
          else
            match csv_parse (buffer f) with
            | Js.Threw e => mret (NextError e None)
            | Js.Returned records =>
                fun w =>
                  let collected :=
                    Uploads.upload_rows record csvRowSchema_parse Date_parse
                      channel_normalization clock account tier 0 records
                      Uploads.nothing in
                  match Uploads.metrics collected, fault CountDays with
                  | _ :: _, Some e => (Promise.Fulfilled (NextError e None), w)
                  | _, _ =>
                      match Uploads.validate_upload record csvRowSchema_parse
                              Date_parse channel_normalization clock account tier
                              (existing_days (db w) account) records with
                      | Uploads.Rejected errors =>
                          (Promise.Fulfilled
                             (Refused 400 "CSV validation failed" (Some errors)),
                           w)
                      | Uploads.Accepted metrics errors =>
                          Promise.try_catch
                            (store_upload uuid_seed f account metrics errors)
                            (fun error => mret (NextError error None))
                            w
                      end
                  end
            end
      end
  end.

End Handler.

End UploadRoute.

(** ** models/Account.ts and routes/auth.ts *)

Module Accounts.

(** A row of [accounts]. *)
Record Account := mkAccount {
  id : string;
  email : string;
  password_hash : string;
  tier : string;
  created_at : Z;
  updated_at : Z
}.

(** What [RETURNING id, email, tier, created_at, updated_at] hands back:
    the row without its password hash. *)
Record Created := mkCreated {
  c_id : string;
  c_email : string;
  c_tier : string;
  c_created_at : Z;
  c_updated_at : Z
}.

Section Model.

(** [bcrypt.hash(password, 10)], by the number of the draw of its salt,
    and [bcrypt.compare(password, hash)]. *)
Variable bcrypt_hash : nat -> string -> string.
Variable bcrypt_compare : string -> string -> bool.

(** [gen_random_uuid()], by the number of the draw, and [NOW()]. *)
Variable uuid : nat -> string.
Variable now : Z.

(** [AccountModel.create]: the INSERT throws on an e-mail address that is
    taken ([UNIQUE]) and on a value longer than its [VARCHAR(255)]
    column.  The state is the table with the number of accounts created,
    which numbers the salts and uuids drawn. *)
Definition create (input_email input_password : string)
  : Js.Eff (list Account * nat) Created :=
  fun '(accounts, drawn) =>
    let passwordHash := bcrypt_hash drawn input_password in
    if (255 <? String.length input_email)%nat
       || (255 <? String.length passwordHash)%nat
    then (Js.Threw "value too long for type character varying(255)",
          (accounts, drawn))
    else if existsb (fun a => String.eqb (email a) input_email) accounts
    then (Js.Threw "duplicate key value violates unique constraint",
          (accounts, drawn))
    else
      (Js.Returned (mkCreated (uuid drawn) input_email "free" now now),
       ((accounts ++ [mkAccount (uuid drawn) input_email passwordHash "free"
                        now now])%list,
        S drawn)).

(** [AccountModel.findByEmail] and [findById]: [rows[0] || null]. *)
Definition findByEmail (accounts : list Account) (e : string) : option Account :=
  List.find (fun a => String.eqb (email a) e) accounts.

Definition findById (accounts : list Account) (i : string) : option Account :=
  List.find (fun a => String.eqb (id a) i) accounts.

Definition verifyPassword (account : Account) (password : string) : bool :=
  bcrypt_compare password (password_hash account).

(** [AccountModel.upgradeToPremium]. *)
Definition upgradeToPremium (accountId : string) (accounts : list Account)
  : list Account :=
  map (fun a =>
         if String.eqb (id a) accountId
         then mkAccount (id a) (email a) (password_hash a) "premium"
                (created_at a) now
         else a)
      accounts.

(** [AccountModel.delete] on the table itself. *)
Definition delete (accountId : string) (accounts : list Account) : list Account :=
  List.filter (fun a => negb (String.eqb (id a) accountId)) accounts.

(** *** routes/auth.ts *)

(** zod's test of an e-mail address. *)
Variable is_email : string -> bool.

(** [jwt.sign(payload, secret, { expiresIn })] at a reading of the
    clock, from which the token takes the times it is issued and expires
    at; it throws when it is given no usable secret. *)
Variable jwt_sign :
  Z -> Auth.Claims -> option string -> string -> Js.outcome string.

(** The environment of [generateTokens]. *)
Record Env := mkEnv {
  JWT_SECRET : option string;
  JWT_REFRESH_SECRET : option string;
  JWT_EXPIRES_IN : option string;
  JWT_REFRESH_EXPIRES_IN : option string
}.

(** [process.env.X || fallback]. *)
Definition env_or (x : option string) (fallback : string) : string :=
  match x with
  | Some v => if String.eqb v "" then fallback else v
  | None => fallback
  end.

(** [generateTokens]; [clock] holds the readings of the clock at the
    two calls of [jwt.sign]. *)
Definition generateTokens (env : Env) (clock : Z * Z)
    (userId accountId tier : string) : Js.outcome (string * string) :=
  let payload := Auth.mkClaims (Some userId) (Some accountId) (Some tier) in
  match jwt_sign (fst clock) payload (JWT_SECRET env)
          (env_or (JWT_EXPIRES_IN env) "15m") with
  | Js.Threw e => Js.Threw e
  | Js.Returned accessToken =>
      match jwt_sign (snd clock) payload (JWT_REFRESH_SECRET env)
              (env_or (JWT_REFRESH_EXPIRES_IN env) "7d") with
      | Js.Threw e => Js.Threw e
      | Js.Returned refreshToken => Js.Returned (accessToken, refreshToken)
      end
  end.

(** The responses of signup and login. *)
Inductive Response :=
| Session (code : nat) (account_id account_email account_tier : string)
    (accessToken refreshToken : string)
| Failure (code : nat) (message : string)
| NextError (message : string).

(** The members [email] and [password] of the body, when they are
    strings. *)
Record Credentials := mkCredentials {
  cr_email : option string;
  cr_password : option string
}.

(** POST /api/v1/auth/signup. *)
Definition signup (env : Env) (clock : Z * Z) (body : Credentials)
  : Js.Eff (list Account * nat) Response :=
  fun st =>
    match cr_email body, cr_password body with
    | Some e, Some p =>
        if negb (is_email e) || (String.length p <? 8)%nat
        then (Js.Returned (Failure 400 "Validation error"), st)
        else
          match findByEmail (fst st) e with
          | Some _ => (Js.Returned (Failure 409 "Email already registered"), st)
          | None =>
              match create e p st with
              | (Js.Threw err, st') => (Js.Returned (NextError err), st')
              | (Js.Returned account, st') =>
                  match generateTokens env clock (c_id account) (c_id account)
                          (c_tier account) with
                  | Js.Threw err => (Js.Returned (NextError err), st')
                  | Js.Returned (accessToken, refreshToken) =>
                      (Js.Returned
                         (Session 201 (c_id account) (c_email account)
                            (c_tier account) accessToken refreshToken),
                       st')
                  end
              end
          end
    | _, _ => (Js.Returned (Failure 400 "Validation error"), st)
    end.

(** POST /api/v1/auth/login. *)
Definition login (env : Env) (clock : Z * Z) (body : Credentials)
    (accounts : list Account) : Response :=
  match cr_email body, cr_password body with
  | Some e, Some p =>
      if negb (is_email e) then Failure 400 "Validation error"
      else
        match findByEmail accounts e with
        | None => Failure 401 "Invalid email or password"
        | Some account =>
            if negb (verifyPassword account p)
            then Failure 401 "Invalid email or password"
            else
              match generateTokens env clock (id account) (id account)
                      (tier account) with
              | Js.Threw err => NextError err
              | Js.Returned (accessToken, refreshToken) =>
                  Session 200 (id account) (email account) (tier account)
                    accessToken refreshToken
              end
        end
  | _, _ => Failure 400 "Validation error"
  end.

End Model.

(** [DELETE FROM accounts WHERE id = $1] as the rest of the schema sees
    it: the metrics of the account go with it ([ON DELETE CASCADE]). *)
Definition delete_cascade (accountId : string) (d : MarketingMetrics.Db)
  : MarketingMetrics.Db :=
  MarketingMetrics.mkDb
    (MarketingMetrics.accounts d ∖ {[ accountId ]})
    (List.filter
       (fun r => negb (String.eqb (MarketingMetrics.account_id r) accountId))
       (MarketingMetrics.marketing_daily_metrics d)).

End Accounts.

(** ** utils/performance.ts *)

Module Performance.

(** What happens to a wrapped function, in the order of the event loop:
    it is called at a time, in milliseconds, or the loop reaches its
    timers at a time and runs those that are due. *)
Inductive event (A : Type) : Type :=
| Call (t : Z) (args : A)
| Tick (t : Z).
Arguments Call {A} t args.
Arguments Tick {A} t.

Definition time {A : Type} (e : event A) : Z :=
  match e with
  | Call t _ => t
  | Tick t => t
  end.

Definition is_call {A : Type} (e : event A) : bool :=
  match e with
  | Call _ _ => true
  | Tick _ => false
  end.

(** The events come in the order of their times. *)
Fixpoint chronological {A : Type} (now : Z) (trace : list (event A)) : bool :=
  match trace with
  | [] => true
  | e :: rest => (now <=? time e)%Z && chronological (time e) rest
  end.

(** The delay of [setTimeout(callback, after)] for a whole number of
    milliseconds: Node sets a delay below 1 or above [TIMEOUT_MAX] to 1. *)
Definition TIMEOUT_MAX : Z := 2147483647%Z.

Definition timer_delay (after : Z) : Z :=
  if ((1 <=? after) && (after <=? TIMEOUT_MAX))%Z then after else 1%Z.

Section Wrappers.

Variable A : Type.

(** What [func(...args)] throws, if it throws. *)
Variable throws : A -> option string.

(** *** throttle *)

Section Throttle.

Variable limit : Z.

(** The closure of [throttle]: its variable, the timers it has set, by
    the time they are due, and the calls of [func] so far. *)
Record Throttled := mkThrottled {
  inThrottle : bool;
  th_timers : list Z;
  th_invoked : list (Z * A)
}.

(** [executedFunction] of [throttle], called at [t]. *)
Definition throttle_call (t : Z) (args : A) : Js.Eff Throttled unit :=
  fun st =>
    if negb (inThrottle st) then
      let invoked := (th_invoked st ++ [(t, args)])%list in
      match throws args with
      | Some e => (Js.Threw e, mkThrottled (inThrottle st) (th_timers st) invoked)
      | None =>
          (Js.Returned tt,
           mkThrottled true (th_timers st ++ [(t + timer_delay limit)%Z])%list invoked)
      end
    else (Js.Returned tt, st).

(** The timers of [throttle] that are due at [t] run: each sets
    [inThrottle = false]. *)
Definition throttle_tick (t : Z) (st : Throttled) : Throttled :=
  let due := List.filter (fun d => (d <=? t)%Z) (th_timers st) in
  mkThrottled
    (match due with [] => inThrottle st | _ :: _ => false end)
    (List.filter (fun d => negb (d <=? t)%Z) (th_timers st))
    (th_invoked st).

Definition throttle_step (st : Throttled) (e : event A) : Throttled :=
  match e with
  | Call t args => snd (throttle_call t args st)
  | Tick t => throttle_tick t st
  end.

(** [throttle(func, limit)] over a trace; [let inThrottle] starts
    undefined, which [!inThrottle] takes as false. *)
Definition throttle (trace : list (event A)) : Throttled :=
  fold_left throttle_step trace (mkThrottled false [] []).

End Throttle.

(** *** debounce *)

Section Debounce.

Variable wait : Z.

(** The closure of [debounce]: its variable [timeout], a handle or null,
    the pending timers with their handle, due time and the arguments of
    [later], the number of handles given out, the calls of [func] so far,
    and whether an exception of [func] has left a timer callback. *)
Record Debounced := mkDebounced {
  timeout : option nat;
  db_timers : list (nat * (Z * A));
  db_handles : nat;
  db_invoked : list (Z * A);
  crashed : bool
}.

Definition clearTimeout (h : nat) (timers : list (nat * (Z * A)))
  : list (nat * (Z * A)) :=
  List.filter (fun x => negb (Nat.eqb (fst x) h)) timers.

(** [executedFunction] of [debounce], called at [t]. *)
Definition debounce_call (t : Z) (args : A) (st : Debounced) : Debounced :=
  let timers :=
    match timeout st with
    | Some h => clearTimeout h (db_timers st)
    | None => db_timers st
    end in
  mkDebounced (Some (db_handles st))
    (timers ++ [(db_handles st, ((t + timer_delay wait)%Z, args))])%list
    (S (db_handles st)) (db_invoked st) (crashed st).

(** [later], run at [t] for the arguments it has closed over. *)
Definition later (t : Z) (args : A) (st : Debounced) : Debounced :=
  mkDebounced None (db_timers st) (db_handles st)
    (db_invoked st ++ [(t, args)])%list
    (match throws args with Some _ => true | None => false end).

(** The timers that are due run in the order they were set, until an
    exception leaves one of them. *)
Fixpoint run_due (t : Z) (due : list (nat * (Z * A))) (st : Debounced)
  : Debounced :=
  match due with
  | [] => st
  | (_, (_, args)) :: rest =>
      let st' := later t args st in
      if crashed st' then st' else run_due t rest st'
  end.

Definition debounce_tick (t : Z) (st : Debounced) : Debounced :=
  let due := List.filter (fun x => (fst (snd x) <=? t)%Z) (db_timers st) in
  let rest := List.filter (fun x => negb (fst (snd x) <=? t)%Z) (db_timers st) in
  run_due t due
    (mkDebounced (timeout st) rest (db_handles st) (db_invoked st) (crashed st)).

(** After an uncaught exception the process is gone. *)
Definition debounce_step (st : Debounced) (e : event A) : Debounced :=
  if crashed st then st
  else
    match e with
    | Call t args => debounce_call t args st
    | Tick t => debounce_tick t st
    end.

(** [debounce(func, wait)] over a trace. *)
Definition debounce (trace : list (event A)) : Debounced :=
  fold_left debounce_step trace (mkDebounced None [] 0 [] false).

End Debounce.

End Wrappers.

Arguments inThrottle {A} _.
Arguments th_timers {A} _.
Arguments th_invoked {A} _.
Arguments mkThrottled {A} _ _ _.
Arguments timeout {A} _.
Arguments db_timers {A} _.
Arguments db_handles {A} _.
Arguments db_invoked {A} _.
Arguments crashed {A} _.
Arguments mkDebounced {A} _ _ _ _ _.
Arguments throttle {A} throws limit trace.
Arguments throttle_step {A} throws limit st e.
Arguments throttle_call {A} throws limit t args _.
Arguments throttle_tick {A} t st.
Arguments debounce {A} throws wait trace.
Arguments debounce_step {A} throws wait st e.
Arguments debounce_call {A} wait t args st.
Arguments debounce_tick {A} throws t st.
Arguments later {A} throws t args st.
Arguments run_due {A} throws t due st.
Arguments clearTimeout {A} h timers.

End Performance.

(** * Properties *)

(** ** utils/validation.ts: the minimum-data check *)

Section MinimumDataDays.
Import Validation.

Lemma size_set_le_length (l : list string) :
  (size (list_to_set l : gset string) <= length l)%nat.
Proof.
  induction l as [|x l IH].
  - rewrite list_to_set_nil, size_empty. simpl. lia.
  - rewrite list_to_set_cons. simpl length.
    destruct (decide (x ∈ (list_to_set l : gset string))) as [Hin|Hni].
    + rewrite (subseteq_union_1_L (C := gset string) {[x]} (list_to_set l));
        [lia | by apply singleton_subseteq_l].
    + rewrite size_union by set_solver. rewrite size_singleton. lia.
Qed.

(** The size of the set built from a list is the largest length of a
    duplicate-free list drawn from it. *)
Lemma unique_count_characterised (l : list string) (n : nat) :
  (n <= size (list_to_set l : gset string))%nat <->
  exists u : list string, NoDup u /\ u ⊆ l /\ length u = n.
Proof.
  split.
  - intros Hn.
    exists (take n (elements (list_to_set l : gset string))).
    split; [|split].
    + eapply sublist_NoDup;
        [apply (NoDup_elements (C := gset string)) | apply sublist_take].
    + intros x Hx. apply subseteq_take in Hx.
      apply elem_of_elements in Hx. by apply elem_of_list_to_set in Hx.
    + rewrite length_take. unfold size, set_size in Hn. simpl in *. lia.
  - intros (u & Hnd & Hsub & Hlen). subst n.
    rewrite <- (size_list_to_set (C := gset string) u Hnd).
    apply subseteq_size. set_solver.
Qed.

(** C1, as stated, fails: sixty copies of one date pass the length test
    and fail the set-size test, so the list has fewer than 60 unique dates
    and yet the error reported is not
    'Minimum 60 days of data required for attribution'. *)
Lemma validateMinimumDataDays_duplicates_message :
  let dates := replicate 60 "2025-01-01" in
  (forall u : list string, NoDup u -> u ⊆ dates -> length u <> 60%nat) /\
  valid (validateMinimumDataDays "acct" dates) = false /\
  error (validateMinimumDataDays "acct" dates)
    = Some "Minimum 60 unique days of data required" /\
  error (validateMinimumDataDays "acct" dates)
    <> Some "Minimum 60 days of data required for attribution".
Proof.
  cbv zeta. split; [|split; [|split]].
  - intros u Hnd Hsub Hlen.
    assert (H : (60 <= size (list_to_set (replicate 60 "2025-01-01") : gset string))%nat)
      by (apply unique_count_characterised; eauto).
    vm_compute in H. lia.
  - vm_compute. reflexivity.
  - vm_compute. reflexivity.
  - vm_compute. discriminate.
Qed.

(** C1 (amended): the minimum-data check accepts a list of date strings
    if and only if the list contains at least 60 unique dates.  What it
    reports otherwise depends on the length of the list: a list of fewer
    than 60 entries is rejected with 'Minimum 60 days of data required for
    attribution', a list of 60 or more entries with fewer than 60 unique
    dates with 'Minimum 60 unique days of data required'. *)
Theorem validateMinimumDataDays_spec (accountId : string) (dates : list string) :
  let r := validateMinimumDataDays accountId dates in
  (valid r = true <->
     exists u : list string, NoDup u /\ u ⊆ dates /\ length u = 60%nat) /\
  (valid r = true -> r = ok) /\
  ((length dates < 60)%nat -> r = fail msg_min_days) /\
  ((60 <= length dates)%nat ->
   (size (list_to_set dates : gset string) < 60)%nat ->
   r = fail msg_min_unique_days).
Proof.
  cbv zeta. unfold validateMinimumDataDays.
  pose proof (size_set_le_length dates) as Hle.
  rewrite <- (unique_count_characterised dates 60).
  destruct (Nat.ltb_spec (length dates) 60) as [Hlen|Hlen].
  - repeat split; simpl; try discriminate; try lia; auto.
  - destruct (Nat.ltb_spec (size (list_to_set dates : gset string)) 60)
      as [Hsz|Hsz]; repeat split; simpl; try discriminate; try lia; auto.
Qed.

End MinimumDataDays.

(** Sixty different days, and the same sixty days listed twice. *)
Definition sixty_days : list string :=
  (fun n : nat => "day-" ++ pretty n) <$> seq 0 60.

Lemma validateMinimumDataDays_spec_witness :
  Validation.validateMinimumDataDays "acct" (sixty_days ++ sixty_days)
    = Validation.ok /\
  Validation.validateMinimumDataDays "acct" (take 59 sixty_days)
    = Validation.fail Validation.msg_min_days.
Proof.
  split.
  - apply (proj1 (proj2 (validateMinimumDataDays_spec "acct" (sixty_days ++ sixty_days)))).
    vm_compute. reflexivity.
  - apply (proj1 (proj2 (proj2 (validateMinimumDataDays_spec "acct" (take 59 sixty_days))))).
    vm_compute. lia.
Defined.

(** ** utils/validation.ts and routes/uploads.ts: the date-range check *)

Section DateRangeFacts.
Import Validation Uploads.

Variable record : Type.
Variable csvRowSchema_parse : record -> list ZodIssue + MarketingMetrics.MetricInput.
Variable Date_parse : string -> option Z.
Variable channel_normalization : list ChannelNormalization.NormalizationRow.
Variable clock : nat -> Z * Z.
Variable accountId : string.
Variable tier : option string.

Local Abbreviation upload_row :=
  (upload_row record csvRowSchema_parse Date_parse channel_normalization
     clock accountId tier).
Local Abbreviation upload_rows :=
  (upload_rows record csvRowSchema_parse Date_parse channel_normalization
     clock accountId tier).

(** A date is in range when it parses, is not after the clock and is at
    most [maxDaysBack] days before it. *)
Definition in_range (now now' : Z) (date : string) (maxDaysBack : Z) : Prop :=
  exists t : Z,
    Date_parse date = Some t /\
    (t <= now)%Z /\
    (now' - t <= maxDaysBack * msPerDay)%Z.

Lemma validateDateRange_valid_iff (now now' : Z) (date : string) (d : option Z) :
  valid (validateDateRange Date_parse now now' date d) = true <->
  in_range now now' date (default 730%Z d).
Proof.
  unfold validateDateRange, in_range, setDate_back.
  destruct (Date_parse date) as [t|]; simpl.
  - destruct (Z.ltb_spec now t) as [Hf|Hf]; simpl.
    + split; [discriminate|]. intros (t' & [= <-] & ? & ?). lia.
    + destruct (Z.ltb_spec t (now' - default 730%Z d * msPerDay)) as [Ho|Ho];
        simpl.
      * split; [discriminate|]. intros (t' & [= <-] & ? & ?). lia.
      * split; [|reflexivity]. intros _. exists t. repeat split; lia.
  - split; [discriminate|]. intros (t' & [=] & _).
Qed.

Lemma validateDateRange_invalid_has_error (now now' : Z) (date : string)
    (d : option Z) :
  valid (validateDateRange Date_parse now now' date d) = false ->
  exists e, error (validateDateRange Date_parse now now' date d) = Some e.
Proof.
  unfold validateDateRange.
  destruct (Date_parse date) as [t|]; simpl; [|eauto].
  destruct (now <? t)%Z; simpl; [eauto|].
  destruct (t <? _)%Z; simpl; [eauto | discriminate].
Qed.

(** The loop treats a list of records piece by piece: whatever a record
    does, the records after it are processed. *)
Lemma upload_rows_app (i : nat) (pre post : list record) (st : Collected) :
  upload_rows i (pre ++ post) st
  = upload_rows (i + length pre) post (upload_rows i pre st).
Proof.
  revert i st. induction pre as [|r pre IH]; intros i st; simpl.
  - by rewrite Nat.add_0_r.
  - rewrite IH. f_equal. lia.
Qed.

(** C10: [validateDateRange] answers valid if and only if the string
    parses as a date that is not after the current time and not more than
    [maxDaysBack] days before it, where [maxDaysBack] is 730 when the
    argument is left out.  In the upload loop a parsed row that fails the
    check adds one message 'Row i+2: ...' to [errors], adds nothing to
    [metrics] and [dates], and the loop goes on with the rows after it. *)
Theorem validateDateRange_spec_and_row_skip :
  (forall now now' date d,
     valid (validateDateRange Date_parse now now' date d) = true <->
     in_range now now' date (default 730%Z d)) /\
  (forall i rec st parsed,
     csvRowSchema_parse rec = inr parsed ->
     valid (validateDateRange Date_parse (fst (clock i)) (snd (clock i))
              (MarketingMetrics.date parsed)
              (Some (maxDaysBack tier))) = false ->
     exists e,
       error (validateDateRange Date_parse (fst (clock i)) (snd (clock i))
                (MarketingMetrics.date parsed)
                (Some (maxDaysBack tier))) = Some e /\
       upload_row i rec st
       = mkCollected (metrics st) (errors st ++ [row_label i ++ e]) (dates st)) /\
  (forall i pre rec post st,
     upload_rows i (pre ++ rec :: post) st
     = upload_rows (S (i + length pre)) post
         (upload_row (i + length pre) rec (upload_rows i pre st))).
Proof.
  split; [|split].
  - apply validateDateRange_valid_iff.
  - intros i rec st parsed Hparse Hinvalid.
    destruct (validateDateRange_invalid_has_error _ _ _ _ Hinvalid) as [e He].
    exists e. split; [exact He|].
    unfold Uploads.upload_row. rewrite Hparse. cbv zeta.
    rewrite Hinvalid, He. reflexivity.
  - intros i pre rec post st. rewrite upload_rows_app. reflexivity.
Qed.

End DateRangeFacts.

(** A three-row upload whose second row is dated before the window. *)
Definition sample_parse (rec : string * string)
  : list Uploads.ZodIssue + MarketingMetrics.MetricInput :=
  inr (MarketingMetrics.mkMetricInput (fst rec) (snd rec) 1%Q
         None None None None None None).

Definition sample_Date_parse (s : string) : option Z :=
  match Js.parseInt s with
  | Some day => Some (day * Validation.msPerDay)%Z
  | None => None
  end.

Definition sample_clock (i : nat) : Z * Z :=
  ((20000 * Validation.msPerDay + 1)%Z, (20000 * Validation.msPerDay + 2)%Z).

Lemma validateDateRange_spec_and_row_skip_witness :
  Uploads.upload_row (string * string) sample_parse sample_Date_parse []
    sample_clock "acct" (Some "free") 1 ("19000", "fb") Uploads.nothing
  = Uploads.mkCollected [] ["Row 3: Date must be within last 730 days"] [].
Proof.
  destruct (validateDateRange_spec_and_row_skip (string * string) sample_parse
              sample_Date_parse [] sample_clock "acct" (Some "free"))
    as (_ & Hskip & _).
  destruct (Hskip 1%nat ("19000", "fb") Uploads.nothing
              (MarketingMetrics.mkMetricInput "19000" "fb" 1%Q
                 None None None None None None) eq_refl eq_refl)
    as (e & He & Hrow).
  vm_compute in He. injection He as <-. exact Hrow.
Defined.

(** The minimum-data step of the upload looks at the dates of the upload
    alone: the placeholders for the days already stored are dropped
    again, so an account with 59 days on record that uploads a 60th is
    still warned. *)
Example upload_warning_counts_uploaded_dates_only :
  Uploads.validate_upload (string * string) sample_parse sample_Date_parse []
    sample_clock "acct" (Some "premium") 59 [("19990", "fb")]
  = Uploads.Accepted
      [Uploads.mkMetric
         (MarketingMetrics.mkMetricInput "19990" "fb" 1%Q
            None None None None None None)
         (ChannelNormalization.Name "Facebook Ads")]
      ["Warning: Minimum 60 days of data required for attribution. Attribution models require at least 60 days of data."].
Proof. vm_compute. reflexivity. Qed.

(** ** utils/channelNormalization.ts *)

Section TitleCase.
Import Js ChannelNormalization.

Lemma toUpperChar_idem (c : ascii) : toUpperChar (toUpperChar c) = toUpperChar c.
Proof. destruct c as [[] [] [] [] [] [] [] []]; reflexivity. Qed.

Lemma toLowerChar_idem (c : ascii) : toLowerChar (toLowerChar c) = toLowerChar c.
Proof. destruct c as [[] [] [] [] [] [] [] []]; reflexivity. Qed.

Lemma toUpperChar_space (c : ascii) :
  is_white_space (toUpperChar c) = is_white_space c.
Proof. destruct c as [[] [] [] [] [] [] [] []]; reflexivity. Qed.

Lemma toLowerChar_space (c : ascii) :
  is_white_space (toLowerChar c) = is_white_space c.
Proof. destruct c as [[] [] [] [] [] [] [] []]; reflexivity. Qed.

Lemma toLowerCase_idem (s : string) : toLowerCase (toLowerCase s) = toLowerCase s.
Proof.
  induction s as [|c s IH]; simpl; [reflexivity|].
  by rewrite toLowerChar_idem, IH.
Qed.

Lemma capitalize_idem (w : string) : capitalize (capitalize w) = capitalize w.
Proof.
  destruct w as [|c w]; [reflexivity|].
  change (capitalize (String c w)) with (String (toUpperChar c) (toLowerCase w)).
  change (capitalize (String (toUpperChar c) (toLowerCase w)))
    with (String (toUpperChar (toUpperChar c)) (toLowerCase (toLowerCase w))).
  by rewrite toUpperChar_idem, toLowerCase_idem.
Qed.

(** A piece of a split holds no white space. *)
Fixpoint space_free (s : string) : bool :=
  match s with
  | EmptyString => true
  | String c s' => negb (is_white_space c) && space_free s'
  end.

(** The shape of what [split_spaces] returns, after the first piece:
    pieces without white space, all but the last of them non-empty. *)
Fixpoint later_pieces (ws : list string) : Prop :=
  match ws with
  | [] => True
  | w :: rest =>
      space_free w = true /\
      match rest with
      | [] => True
      | _ :: _ => w <> EmptyString /\ later_pieces rest
      end
  end.

Definition pieces (ws : list string) : Prop :=
  match ws with
  | [] => False
  | w :: rest => space_free w = true /\ later_pieces rest
  end.

Lemma toLowerCase_space_free (s : string) :
  space_free (toLowerCase s) = space_free s.
Proof.
  induction s as [|c s IH]; simpl; [reflexivity|].
  by rewrite toLowerChar_space, IH.
Qed.

Lemma capitalize_space_free (w : string) :
  space_free (capitalize w) = space_free w.
Proof.
  destruct w as [|c w]; [reflexivity|].
  change (capitalize (String c w)) with (String (toUpperChar c) (toLowerCase w)).
  simpl. by rewrite toUpperChar_space, toLowerCase_space_free.
Qed.

Lemma capitalize_nonempty (w : string) :
  w <> EmptyString -> capitalize w <> EmptyString.
Proof. destruct w; [congruence | discriminate]. Qed.

Lemma later_pieces_capitalize (ws : list string) :
  later_pieces ws -> later_pieces (map capitalize ws).
Proof.
  induction ws as [|w rest IH]; [done|].
  intros [Hw Hrest]. simpl. rewrite capitalize_space_free.
  split; [exact Hw|].
  destruct rest as [|w' rest']; [done|].
  destruct Hrest as [Hne Hrest]. split; [by apply capitalize_nonempty|].
  by apply IH.
Qed.

Lemma pieces_capitalize (ws : list string) :
  pieces ws -> pieces (map capitalize ws).
Proof.
  destruct ws as [|w rest]; [done|]. intros [Hw Hrest]. simpl.
  rewrite capitalize_space_free. split; [exact Hw|].
  by apply later_pieces_capitalize.
Qed.

Lemma split_spaces_not_nil (s : string) : split_spaces s <> [].
Proof.
  induction s as [|c s IH]; simpl; [discriminate|].
  destruct (is_white_space c).
  - destruct (starts_with_space s); [exact IH | discriminate].
  - destruct (split_spaces s); discriminate.
Qed.

Lemma split_spaces_empty_head (s : string) (t : list string) :
  split_spaces s = EmptyString :: t ->
  s = EmptyString \/ starts_with_space s = true.
Proof.
  destruct s as [|c s]; [by left|]. simpl.
  destruct (is_white_space c) eqn:Hc; [by right|].
  destruct (split_spaces s); discriminate.
Qed.

(** What [split_spaces] returns has the shape [pieces]. *)
Lemma split_spaces_pieces (s : string) : pieces (split_spaces s).
Proof.
  induction s as [|c s IH]; simpl; [done|].
  destruct (is_white_space c) eqn:Hc.
  - destruct (starts_with_space s) eqn:Hs; [exact IH|].
    split; [reflexivity|].
    destruct (split_spaces s) as [|h t] eqn:Hsplit; [done|].
    destruct IH as [Hh Ht]. simpl. split; [exact Hh|].
    destruct t as [|h' t']; [done|]. split; [|exact Ht].
    intros ->. destruct (split_spaces_empty_head _ _ Hsplit) as [->|Hsp].
    + discriminate Hsplit.
    + congruence.
  - destruct (split_spaces s) as [|h t] eqn:Hsplit; [done|].
    destruct IH as [Hh Ht]. split; [|exact Ht].
    simpl. by rewrite Hc, Hh.
Qed.

Lemma append_empty_l (s : string) : EmptyString ++ s = s.
Proof. reflexivity. Qed.

Lemma append_empty_r (s : string) : s ++ EmptyString = s.
Proof.
  induction s as [|c s IH]; [reflexivity|].
  change (String c (s ++ EmptyString) = String c s). by f_equal.
Qed.

Lemma split_spaces_prefix (w s : string) :
  space_free w = true ->
  split_spaces (w ++ s)
  = match split_spaces s with
    | h :: t => (w ++ h) :: t
    | [] => [w]
    end.
Proof.
  induction w as [|c w IH].
  - intros _. rewrite append_empty_l.
    destruct (split_spaces s) eqn:Hs; [|reflexivity].
    by destruct (split_spaces_not_nil s).
  - simpl. intros [Hc Hw]%andb_true_iff. apply negb_true_iff in Hc.
    rewrite Hc, (IH Hw).
    destruct (split_spaces s) eqn:Hs; [|reflexivity].
    by destruct (split_spaces_not_nil s).
Qed.

Lemma split_spaces_space_free (w : string) :
  space_free w = true -> split_spaces w = [w].
Proof.
  intros Hw. rewrite <- (append_empty_r w) at 1.
  rewrite (split_spaces_prefix _ _ Hw). simpl. by rewrite !append_empty_r.
Qed.

Lemma later_pieces_no_leading_space (ws : list string) :
  later_pieces ws -> starts_with_space (join " " ws) = false.
Proof.
  destruct ws as [|w rest]; [done|]. intros [Hw Hrest].
  destruct w as [|c w].
  - destruct rest; [done | by destruct Hrest].
  - simpl in Hw. apply andb_true_iff in Hw as [Hc _].
    apply negb_true_iff in Hc.
    unfold join. simpl. destruct rest; simpl; exact Hc.
Qed.

Lemma split_join_step (w : string) (rest : list string) :
  space_free w = true ->
  rest <> [] ->
  later_pieces rest ->
  split_spaces (join " " rest) = rest ->
  split_spaces (join " " (w :: rest)) = w :: rest.
Proof.
  intros Hw Hne Hrest Hsplit.
  destruct rest as [|w' rest']; [done|].
  change (join " " (w :: w' :: rest'))
    with (w ++ String " " (join " " (w' :: rest'))).
  rewrite (split_spaces_prefix _ _ Hw).
  change (split_spaces (String " " (join " " (w' :: rest'))))
    with (if starts_with_space (join " " (w' :: rest'))
          then split_spaces (join " " (w' :: rest'))
          else EmptyString :: split_spaces (join " " (w' :: rest'))).
  rewrite (later_pieces_no_leading_space _ Hrest), Hsplit.
  by rewrite append_empty_r.
Qed.

Lemma split_join_later (ws : list string) :
  ws <> [] -> later_pieces ws -> split_spaces (join " " ws) = ws.
Proof.
  induction ws as [|w rest IH]; [done|]. intros _ [Hw Hrest].
  destruct rest as [|w' rest'].
  - by apply split_spaces_space_free.
  - destruct Hrest as [_ Hrest].
    apply split_join_step; [exact Hw | done | exact Hrest |].
    by apply IH.
Qed.

(** Joining pieces with one space and splitting again returns them. *)
Lemma split_join (ws : list string) :
  pieces ws -> split_spaces (join " " ws) = ws.
Proof.
  destruct ws as [|w rest]; [done|]. intros [Hw Hrest].
  destruct rest as [|w' rest'].
  - by apply split_spaces_space_free.
  - apply split_join_step; [exact Hw | done | exact Hrest |].
    by apply split_join_later.
Qed.

(** Title-casing is idempotent. *)
Lemma titleCase_idem (raw : string) : titleCase (titleCase raw) = titleCase raw.
Proof.
  unfold titleCase.
  rewrite split_join by apply pieces_capitalize, split_spaces_pieces.
  rewrite map_map. f_equal. apply map_ext. intros w. apply capitalize_idem.
Qed.

End TitleCase.

Section NormalizeChannel.
Import Js ChannelNormalization.

Variable channel_normalization : list NormalizationRow.
Variable accountId : string.

(** The account has no mapping of its own. *)
Hypothesis no_account_mapping :
  forall r, r ∈ channel_normalization -> nr_account_id r <> accountId.

Lemma normalizeChannel_global (raw : string) :
  normalizeChannel channel_normalization accountId raw
  = match CHANNEL_MAP_get (toLowerCase (trim raw)) with
    | Own v => if negb (String.eqb v "") then Name v else Name (titleCase raw)
    | Inherited p => PrototypeValue p
    | Undefined => Name (titleCase raw)
    end.
Proof.
  unfold normalizeChannel. cbv zeta.
  replace (filter _ channel_normalization) with (@nil NormalizationRow);
    [reflexivity|].
  symmetry. clear -no_account_mapping.
  induction channel_normalization as [|r rows IH]; [reflexivity|].
  rewrite filter_cons. destruct (decide _) as [[Hacc _]|_].
  - exfalso. apply (no_account_mapping r); [left | exact Hacc].
  - apply IH. intros r' Hr'. apply no_account_mapping. by right.
Qed.

Lemma own_property_elem (m : list (string * string)) (key v : string) :
  own_property m key = Some v -> exists k, (k, v) ∈ m.
Proof.
  induction m as [|[k v'] m IH]; simpl; [discriminate|].
  destruct (String.eqb k key).
  - intros [= ->]. exists k. left.
  - intros H. destruct (IH H) as [k' Hk']. exists k'. by right.
Qed.

(** Every value of the global map is a non-empty name whose lower-cased
    form is again a key for it. *)
Lemma CHANNEL_MAP_values_fixed :
  Forall (fun kv : string * string =>
            snd kv <> "" /\
            CHANNEL_MAP_get (toLowerCase (trim (snd kv))) = Own (snd kv))
         CHANNEL_MAP.
Proof.
  unfold CHANNEL_MAP.
  repeat (constructor; [split; [discriminate | vm_compute; reflexivity]|]).
  constructor.
Qed.

Lemma canonical_name_fixed (k v : string) :
  (k, v) ∈ CHANNEL_MAP ->
  normalizeChannel channel_normalization accountId v = Name v.
Proof.
  intros Hin.
  pose proof (proj1 (Forall_forall _ _) CHANNEL_MAP_values_fixed (k, v) Hin)
    as [Hne Hget]. simpl in Hne, Hget.
  rewrite normalizeChannel_global, Hget.
  destruct (String.eqb_spec v ""); [done | reflexivity].
Qed.

(** C9 (amended): for an account without a mapping of its own, every
    canonical name of the global map normalises to itself, title-casing
    is idempotent, and on an ASCII raw name [normalizeChannel] applied to
    its own output returns that output again provided the raw name
    matches the global map or the title-cased output does not (after
    trimming and lower-casing) name a property of the map. *)
Theorem normalizeChannel_idempotent_amended :
  (forall k v, (k, v) ∈ CHANNEL_MAP ->
     normalizeChannel channel_normalization accountId v = Name v) /\
  (forall raw, is_ascii_string raw = true ->
     titleCase (titleCase raw) = titleCase raw) /\
  (forall raw y,
     is_ascii_string raw = true ->
     normalizeChannel channel_normalization accountId raw = Name y ->
     CHANNEL_MAP_get (toLowerCase (trim raw)) <> Undefined \/
     CHANNEL_MAP_get (toLowerCase (trim y)) = Undefined ->
     normalizeChannel channel_normalization accountId y = Name y).
Proof.
  split; [|split].
  - apply canonical_name_fixed.
  - intros raw _. apply titleCase_idem.
  - intros raw y _ Hraw Hcond.
    rewrite normalizeChannel_global in Hraw.
    destruct (CHANNEL_MAP_get (toLowerCase (trim raw))) as [v|p|] eqn:Hget.
    + unfold CHANNEL_MAP_get in Hget.
      destruct (own_property CHANNEL_MAP _) as [v'|] eqn:Hown;
        [|destruct (existsb _ _); discriminate].
      injection Hget as ->.
      destruct (own_property_elem _ _ _ Hown) as [k Hk].
      pose proof (proj1 (Forall_forall _ _) CHANNEL_MAP_values_fixed (k, v) Hk)
        as [Hne _]. simpl in Hne.
      destruct (String.eqb_spec v ""); [done|]. simpl in Hraw.
      injection Hraw as <-. by apply (canonical_name_fixed k).
    + discriminate.
    + injection Hraw as <-. destruct Hcond as [Hc|Hc]; [done|].
      rewrite normalizeChannel_global, Hc. by rewrite titleCase_idem.
Qed.

End NormalizeChannel.

(** C9, as stated, fails: 'fb  ads' (two spaces) is not a key of the
    global map, so it is title-cased to 'Fb Ads'; 'Fb Ads' lower-cased is
    the key 'fb ads', so a second application returns 'Facebook Ads'. *)
Lemma normalizeChannel_not_idempotent :
  ChannelNormalization.normalizeChannel [] "acct" "fb  ads"
    = ChannelNormalization.Name "Fb Ads" /\
  ChannelNormalization.normalizeChannel [] "acct" "Fb Ads"
    = ChannelNormalization.Name "Facebook Ads" /\
  ChannelNormalization.normalizeChannel [] "acct" "Fb Ads"
    <> ChannelNormalization.Name "Fb Ads".
Proof. vm_compute. repeat split; discriminate. Qed.

Lemma normalizeChannel_idempotent_amended_witness :
  ChannelNormalization.normalizeChannel [] "acct" " My Channel"
  = ChannelNormalization.Name " My Channel".
Proof.
  refine (proj2 (proj2 (normalizeChannel_idempotent_amended [] "acct" _))
            " my  chaNNel" " My Channel" _ _ _).
  - intros r Hr. by apply elem_of_nil in Hr.
  - reflexivity.
  - vm_compute. reflexivity.
  - right. vm_compute. reflexivity.
Defined.

(** ** models/MarketingMetrics.ts: uniqueness and atomicity of bulkInsert *)

Section BulkInsert.
Import MarketingMetrics.

Variable pg_date : string -> option Z.
Variable now : Z.

(** The invariant of [UNIQUE(account_id, date, channel)]. *)
Definition keys (rows : list MarketingMetric) : list (string * Z * string) :=
  map key_of rows.

Definition unique_keys (rows : list MarketingMetric) : Prop :=
  NoDup (keys rows).

Lemma upsert_keys_present (fresh : MarketingMetric) (rows : list MarketingMetric) :
  key_of fresh ∈ keys rows ->
  keys (upsert fresh rows) = keys rows.
Proof.
  unfold keys. induction rows as [|r rows IH]; simpl.
  - intros H. by apply elem_of_nil in H.
  - intros Hin. case_bool_decide as Hk; simpl; [reflexivity|].
    f_equal. apply IH. apply elem_of_cons in Hin as [Heq|Hin]; congruence.
Qed.

Lemma upsert_keys_absent (fresh : MarketingMetric) (rows : list MarketingMetric) :
  key_of fresh ∉ keys rows ->
  keys (upsert fresh rows) = (keys rows ++ [key_of fresh])%list.
Proof.
  unfold keys. induction rows as [|r rows IH]; simpl; [reflexivity|].
  intros Hni. apply not_elem_of_cons in Hni as [Hne Hni].
  case_bool_decide as Hk; [congruence|]. simpl. f_equal. by apply IH.
Qed.

Lemma upsert_unique (fresh : MarketingMetric) (rows : list MarketingMetric) :
  unique_keys rows -> unique_keys (upsert fresh rows).
Proof.
  unfold unique_keys. intros Hnd.
  destruct (decide (key_of fresh ∈ keys rows)) as [Hin|Hni].
  - by rewrite upsert_keys_present.
  - rewrite upsert_keys_absent by done.
    apply NoDup_app. split; [exact Hnd|]. split; [|apply NoDup_singleton].
    intros k Hk Hk'. apply list_elem_of_singleton in Hk'. by subst.
Qed.

Lemma upsert_key_stays (fresh : MarketingMetric) (rows : list MarketingMetric)
    (k : string * Z * string) :
  k ∈ keys rows -> k ∈ keys (upsert fresh rows).
Proof.
  intros Hk. destruct (decide (key_of fresh ∈ keys rows)) as [Hin|Hni].
  - by rewrite upsert_keys_present.
  - rewrite upsert_keys_absent by done. apply elem_of_app. by left.
Qed.

Lemma upsert_key_added (fresh : MarketingMetric) (rows : list MarketingMetric) :
  key_of fresh ∈ keys (upsert fresh rows).
Proof.
  destruct (decide (key_of fresh ∈ keys rows)) as [Hin|Hni].
  - by rewrite upsert_keys_present.
  - rewrite upsert_keys_absent by done. apply elem_of_app. right. left.
Qed.

Lemma upsert_length_present (fresh : MarketingMetric) (rows : list MarketingMetric) :
  key_of fresh ∈ keys rows ->
  length (upsert fresh rows) = length rows.
Proof.
  intros Hin. rewrite <- (length_map key_of (upsert fresh rows)).
  fold (keys (upsert fresh rows)).
  rewrite upsert_keys_present by done. apply length_map.
Qed.

(** The record found under the key of [fresh], rewritten by the update. *)
Definition updated (r fresh : MarketingMetric) : MarketingMetric :=
  mkMarketingMetric (id r) (account_id r) (m_date r) (m_channel r)
    (m_spend fresh) (m_revenue fresh) (m_impressions fresh)
    (m_clicks fresh) (m_conversions fresh) (m_new_customers fresh)
    (m_returning_customers fresh) (created_at r) (updated_at fresh).

Lemma upsert_in_place (fresh : MarketingMetric) (rows : list MarketingMetric)
    (i : nat) (r : MarketingMetric) :
  unique_keys rows ->
  rows !! i = Some r ->
  upsert fresh rows !! i
  = Some (if bool_decide (key_of r = key_of fresh) then updated r fresh else r).
Proof.
  unfold unique_keys, keys. revert i.
  induction rows as [|r0 rows IH]; intros i Hnd Hi; [done|].
  simpl in Hnd. apply NoDup_cons in Hnd as [Hr0 Hnd]. simpl.
  destruct i as [|i]; simpl in Hi.
  - injection Hi as ->. case_bool_decide; reflexivity.
  - destruct (bool_decide_reflect (key_of r0 = key_of fresh)) as [Hk0|Hk0].
    + change (rows !! i
              = Some (if bool_decide (key_of r = key_of fresh)
                      then updated r fresh else r)).
      rewrite Hi. case_bool_decide as Hk; [|reflexivity].
      exfalso. apply Hr0. rewrite Hk0, <- Hk.
      apply list_elem_of_fmap. exists r. split; [reflexivity|].
      by eapply list_elem_of_lookup_2.
    + by apply IH.
Qed.

(** What one INSERT statement does to a connection. *)
Definition statement_row (accountId : string) (metric : MetricInput)
    (c : Client) : option MarketingMetric :=
  match column_values pg_date metric with
  | Js.Returned v => Some (proposed now (next_uuid c) accountId metric v)
  | Js.Threw _ => None
  end.

Lemma column_values_date (metric : MetricInput) (v : Values) :
  column_values pg_date metric = Js.Returned v ->
  pg_date (date metric) = Some (v_date v).
Proof.
  unfold column_values. destruct (pg_date (date metric)) as [d|]; [|discriminate].
  unfold and_then.
  repeat match goal with
         | |- context [match ?x with Js.Returned _ => _ | Js.Threw _ => _ end] =>
             destruct x; [|discriminate]
         end.
  by intros [= <-].
Qed.

Lemma query_INSERT_cases (accountId : string) (metric : MetricInput) (c : Client) :
  (exists e, query_INSERT pg_date now accountId metric c = (Js.Threw e, c)) \/
  (exists fresh,
     statement_row accountId metric c = Some fresh /\
     pg_date (date metric) = Some (m_date fresh) /\
     key_of fresh = (accountId, m_date fresh, channel metric) /\
     query_INSERT pg_date now accountId metric c
     = (Js.Returned tt,
        mkClient (known_accounts c) (upsert fresh (table c)) (saved c)
          (S (next_uuid c)))).
Proof.
  unfold query_INSERT, statement_row.
  destruct (column_values pg_date metric) as [v|e] eqn:Hv; [|left; eauto].
  destruct (negb (checks v)); [left; eauto|].
  destruct (negb _); [left; eauto|].
  right. eexists. split; [reflexivity|].
  split; [exact (column_values_date metric v Hv)|]. by split.
Qed.

(** An INSERT statement leaves the copy taken at [BEGIN] and the accounts
    alone, and keeps the keys of the table unique. *)
Lemma query_INSERT_keeps (accountId : string) (metric : MetricInput) (c : Client) :
  let c' := snd (query_INSERT pg_date now accountId metric c) in
  saved c' = saved c /\
  known_accounts c' = known_accounts c /\
  (unique_keys (table c) -> unique_keys (table c')).
Proof.
  cbv zeta.
  destruct (query_INSERT_cases accountId metric c)
    as [[e ->]|(fresh & _ & _ & _ & ->)]; simpl.
  - by repeat split.
  - repeat split. by apply upsert_unique.
Qed.

Lemma for_each_cons (accountId : string) (m : MetricInput)
    (metrics : list MetricInput) (c : Client) :
  Js.for_each (m :: metrics) (query_INSERT pg_date now accountId) c
  = match query_INSERT pg_date now accountId m c with
    | (Js.Returned _, c') =>
        Js.for_each metrics (query_INSERT pg_date now accountId) c'
    | (Js.Threw e, c') => (Js.Threw e, c')
    end.
Proof. reflexivity. Qed.

Lemma for_each_INSERT_keeps (accountId : string) (metrics : list MetricInput)
    (c : Client) :
  let c' := snd (Js.for_each metrics (query_INSERT pg_date now accountId) c) in
  saved c' = saved c /\
  known_accounts c' = known_accounts c /\
  (unique_keys (table c) -> unique_keys (table c')).
Proof.
  cbv zeta. revert c. induction metrics as [|m metrics IH]; intros c; [done|].
  destruct (query_INSERT_keeps accountId m c) as (Hs & Ha & Hu).
  rewrite for_each_cons.
  destruct (query_INSERT pg_date now accountId m c) as [[[]|e] c1] eqn:Hq;
    simpl in *.
  - destruct (IH c1) as (Hs' & Ha' & Hu').
    split; [congruence|]. split; [congruence|]. auto.
  - done.
Qed.

(** While the statements of [bulkInsert] run, what is persisted is the
    table as it was at [BEGIN]. *)
Lemma for_each_INSERT_persisted (accountId : string) (metrics : list MetricInput)
    (old : list MarketingMetric) (c : Client) :
  saved c = Some old ->
  persisted (snd (Js.for_each metrics (query_INSERT pg_date now accountId) c))
  = old.
Proof.
  intros Hc.
  destruct (for_each_INSERT_keeps accountId metrics c) as (Hs & _).
  unfold persisted. by rewrite Hs, Hc.
Qed.

(** After a run without error every input row has its key in the table. *)
Lemma for_each_INSERT_all (accountId : string) (metrics : list MetricInput)
    (c c' : Client) :
  Js.for_each metrics (query_INSERT pg_date now accountId) c
  = (Js.Returned tt, c') ->
  (forall k, k ∈ keys (table c) -> k ∈ keys (table c')) /\
  (forall m, m ∈ metrics ->
     exists d, pg_date (date m) = Some d /\
               (accountId, d, channel m) ∈ keys (table c')).
Proof.
  revert c. induction metrics as [|m metrics IH]; intros c.
  - intros [= <-]. split; [done|]. intros m Hm. by apply elem_of_nil in Hm.
  - rewrite for_each_cons.
    destruct (query_INSERT_cases accountId m c)
      as [[e ->]|(fresh & _ & Hd & Hkey & ->)]; [discriminate|].
    intros Hrest. destruct (IH _ Hrest) as [Hstay Hall]. simpl in Hstay.
    split.
    + intros k Hk. apply Hstay. by apply upsert_key_stays.
    + intros m' Hm'. apply elem_of_cons in Hm' as [->|Hm']; [|by apply Hall].
      exists (m_date fresh). split; [exact Hd|].
      apply Hstay. rewrite <- Hkey. apply upsert_key_added.
Qed.

Lemma bulkInsert_on_client_unfold (accountId : string)
    (metrics : list MetricInput) (c : Client) :
  saved c = None ->
  bulkInsert_on_client pg_date now accountId metrics c
  = match Js.for_each metrics (query_INSERT pg_date now accountId)
            (mkClient (known_accounts c) (table c) (Some (table c)) (next_uuid c))
    with
    | (Js.Returned _, c') =>
        (Js.Returned tt, mkClient (known_accounts c') (table c') None (next_uuid c'))
    | (Js.Threw e, c') =>
        (Js.Threw e, mkClient (known_accounts c') (persisted c') None (next_uuid c'))
    end.
Proof.
  intros Hsaved.
  unfold bulkInsert_on_client, Js.try_catch, mbind, Js.Eff_bind, Js.bind.
  unfold query_BEGIN at 1. rewrite Hsaved.
  destruct (Js.for_each _ _ _) as [[[]|e] c']; reflexivity.
Qed.

Lemma bulkInsert_unfold (uuid_seed : nat) (accountId : string)
    (metrics : list MetricInput) (db : Db) :
  bulkInsert pg_date now uuid_seed accountId metrics db
  = match Js.for_each metrics (query_INSERT pg_date now accountId)
            (mkClient (accounts db) (marketing_daily_metrics db)
               (Some (marketing_daily_metrics db)) uuid_seed)
    with
    | (Js.Returned _, c') => (Js.Returned tt, mkDb (known_accounts c') (table c'))
    | (Js.Threw e, c') => (Js.Threw e, mkDb (known_accounts c') (persisted c'))
    end.
Proof.
  unfold bulkInsert.
  rewrite (bulkInsert_on_client_unfold accountId metrics (connect uuid_seed db) eq_refl).
  simpl. destruct (Js.for_each _ _ _) as [[[]|e] c']; reflexivity.
Qed.

Lemma upsert_other_key (fresh : MarketingMetric) (rows : list MarketingMetric)
    (i : nat) (r : MarketingMetric) :
  rows !! i = Some r -> key_of r <> key_of fresh ->
  upsert fresh rows !! i = Some r.
Proof.
  revert i. induction rows as [|r0 rows IH]; intros i Hi Hk; [done|].
  cbn [upsert]. destruct i as [|i].
  - injection Hi as ->. by rewrite bool_decide_eq_false_2.
  - destruct (bool_decide (key_of r0 = key_of fresh)); [exact Hi|].
    by apply IH.
Qed.

Lemma for_each_app_returned (accountId : string) (done rest : list MetricInput)
    (c c' : Client) :
  Js.for_each (done ++ rest) (query_INSERT pg_date now accountId) c
  = (Js.Returned tt, c') ->
  exists c1,
    Js.for_each done (query_INSERT pg_date now accountId) c = (Js.Returned tt, c1) /\
    Js.for_each rest (query_INSERT pg_date now accountId) c1 = (Js.Returned tt, c').
Proof.
  revert c. induction done as [|m done IH]; intros c.
  - intros H. by exists c.
  - rewrite <- app_comm_cons, !for_each_cons.
    destruct (query_INSERT pg_date now accountId m c) as [[[]|e] c1];
      [apply IH | discriminate].
Qed.

(** Rows with other keys leave a record where it is, as it is. *)
Lemma for_each_keeps_other_keys (accountId : string) (rest : list MetricInput)
    (c c' : Client) (i : nat) (r : MarketingMetric) :
  (forall m', m' ∈ rest ->
     forall d', pg_date (date m') = Some d' ->
       key_of r <> (accountId, d', channel m')) ->
  Js.for_each rest (query_INSERT pg_date now accountId) c = (Js.Returned tt, c') ->
  table c !! i = Some r ->
  table c' !! i = Some r.
Proof.
  revert c. induction rest as [|m rest IH]; intros c Hother.
  - by intros [= <-].
  - rewrite for_each_cons.
    destruct (query_INSERT_cases accountId m c)
      as [[e ->]|(fresh & _ & Hd & Hkey & ->)]; [discriminate|].
    intros Hrest Hi.
    apply (IH _ (fun m' Hm' => Hother m' (list_elem_of_further _ _ _ Hm')) Hrest).
    cbn [table]. apply upsert_other_key; [exact Hi|].
    rewrite Hkey. apply (Hother m); [left | exact Hd].
Qed.

(** A record keeps its place, its id, its creation time and its key
    through the statements of a call. *)
Lemma for_each_in_place (accountId : string) (metrics : list MetricInput)
    (c c' : Client) (i : nat) (r : MarketingMetric) :
  unique_keys (table c) ->
  Js.for_each metrics (query_INSERT pg_date now accountId) c = (Js.Returned tt, c') ->
  table c !! i = Some r ->
  exists r',
    table c' !! i = Some r' /\
    id r' = id r /\ created_at r' = created_at r /\ key_of r' = key_of r.
Proof.
  revert c r. induction metrics as [|m metrics IH]; intros c r Hu.
  - intros [= <-] Hi. by exists r.
  - rewrite for_each_cons.
    destruct (query_INSERT_cases accountId m c)
      as [[e ->]|(fresh & _ & _ & _ & ->)]; [discriminate|].
    intros Hrest Hi.
    pose proof (upsert_in_place fresh _ i r Hu Hi) as Hstep.
    set (c1 := mkClient _ _ _ _) in Hrest.
    assert (Hu1 : unique_keys (table c1)) by exact (upsert_unique fresh _ Hu).
    destruct (IH c1 _ Hu1 Hrest Hstep) as (r' & Hi' & Hid & Hcr & Hk).
    exists r'. split; [exact Hi'|].
    revert Hid Hcr Hk. by case_bool_decide.
Qed.

(** The keys of before stay where they are; what is added comes last,
    was not there before and is the key of an input row. *)
Lemma for_each_keys_added (accountId : string) (metrics : list MetricInput)
    (c c' : Client) :
  Js.for_each metrics (query_INSERT pg_date now accountId) c = (Js.Returned tt, c') ->
  exists added,
    keys (table c') = (keys (table c) ++ added)%list /\
    forall k, k ∈ added ->
      (k ∉ keys (table c)) /\
      exists m d, m ∈ metrics /\ pg_date (date m) = Some d /\
                  k = (accountId, d, channel m).
Proof.
  revert c. induction metrics as [|m metrics IH]; intros c.
  - intros [= <-]. exists []. rewrite app_nil_r. split; [done|].
    intros k Hk. by apply elem_of_nil in Hk.
  - rewrite for_each_cons.
    destruct (query_INSERT_cases accountId m c)
      as [[e ->]|(fresh & _ & Hd & Hkey & ->)]; [discriminate|].
    intros Hrest. destruct (IH _ Hrest) as (added & Hkeys & Hadded).
    cbn [table] in Hkeys, Hadded.
    assert (Hlater : forall k, k ∈ added ->
              exists m0 d, m0 ∈ m :: metrics /\ pg_date (date m0) = Some d /\
                           k = (accountId, d, channel m0)).
    { intros k Hk. destruct (Hadded k Hk) as (_ & m0 & d & Hm0 & Hrest0).
      exists m0, d. split; [by right | exact Hrest0]. }
    destruct (decide (key_of fresh ∈ keys (table c))) as [Hin|Hni].
    + rewrite upsert_keys_present in Hkeys, Hadded by done.
      exists added. split; [exact Hkeys|].
      intros k Hk. split; [by apply Hadded | by apply Hlater].
    + rewrite upsert_keys_absent in Hkeys, Hadded by done.
      exists (key_of fresh :: added). split.
      { rewrite Hkeys, <- app_assoc. reflexivity. }
      intros k Hk. apply elem_of_cons in Hk as [->|Hk].
      * split; [exact Hni|]. exists m, (m_date fresh).
        split; [left|]. by split.
      * split; [|by apply Hlater].
        destruct (Hadded k Hk) as [Hnot _].
        intros Hc. apply Hnot. apply elem_of_app. by left.
Qed.

(** The values a record holds when it was last written from the input
    row [m]: the amounts as NUMERIC(12,2), the counts as INTEGER, zero
    revenue and zero counts as NULL, and the time of the call. *)
Definition holds (r : MarketingMetric) (m : MetricInput) : Prop :=
  to_numeric_12_2 (spend m) = Js.Returned (m_spend r) /\
  to_numeric_12_2_or_null (or_null (revenue m)) = Js.Returned (m_revenue r) /\
  to_integer (or_null (impressions m)) = Js.Returned (m_impressions r) /\
  to_integer (or_null (clicks m)) = Js.Returned (m_clicks r) /\
  to_integer (or_null (conversions m)) = Js.Returned (m_conversions r) /\
  to_integer (or_null (new_customers m)) = Js.Returned (m_new_customers r) /\
  to_integer (or_null (returning_customers m))
  = Js.Returned (m_returning_customers r) /\
  updated_at r = now.

Lemma column_values_holds (m : MetricInput) (v : Values) :
  column_values pg_date m = Js.Returned v ->
  to_numeric_12_2 (spend m) = Js.Returned (v_spend v) /\
  to_numeric_12_2_or_null (or_null (revenue m)) = Js.Returned (v_revenue v) /\
  to_integer (or_null (impressions m)) = Js.Returned (v_impressions v) /\
  to_integer (or_null (clicks m)) = Js.Returned (v_clicks v) /\
  to_integer (or_null (conversions m)) = Js.Returned (v_conversions v) /\
  to_integer (or_null (new_customers m)) = Js.Returned (v_new_customers v) /\
  to_integer (or_null (returning_customers m))
  = Js.Returned (v_returning_customers v).
Proof.
  unfold column_values. destruct (pg_date (date m)) as [d|]; [|discriminate].
  unfold and_then.
  repeat match goal with
         | |- context [match ?x with Js.Returned _ => _ | Js.Threw _ => _ end] =>
             destruct x; [|discriminate]
         end.
  by intros [= <-].
Qed.

Lemma upsert_stores (fresh : MarketingMetric) (rows : list MarketingMetric) :
  exists i r,
    upsert fresh rows !! i = Some r /\
    key_of r = key_of fresh /\
    m_spend r = m_spend fresh /\ m_revenue r = m_revenue fresh /\
    m_impressions r = m_impressions fresh /\ m_clicks r = m_clicks fresh /\
    m_conversions r = m_conversions fresh /\
    m_new_customers r = m_new_customers fresh /\
    m_returning_customers r = m_returning_customers fresh /\
    updated_at r = updated_at fresh.
Proof.
  induction rows as [|r0 rows IH]; cbn [upsert].
  - exists 0%nat, fresh. by repeat split.
  - case_bool_decide as Hk.
    + eexists 0%nat, _. by repeat split.
    + destruct IH as (i & r & Hi & Hrest). by exists (S i), r.
Qed.

(** The statement for [m] writes its values under its key, and rows
    with other keys after it leave them there. *)
Lemma for_each_last_row (accountId : string) (before after : list MetricInput)
    (m : MetricInput) (d : Z) (c c' : Client) :
  pg_date (date m) = Some d ->
  (forall m', m' ∈ after ->
     ~ (pg_date (date m') = Some d /\ channel m' = channel m)) ->
  Js.for_each (before ++ m :: after) (query_INSERT pg_date now accountId) c
  = (Js.Returned tt, c') ->
  exists j r,
    table c' !! j = Some r /\
    key_of r = (accountId, d, channel m) /\
    holds r m.
Proof.
  intros Hd Hafter Hloop.
  apply for_each_app_returned in Hloop as (c1 & _ & Hloop).
  rewrite for_each_cons in Hloop.
  destruct (query_INSERT_cases accountId m c1)
    as [[e He]|(fresh & Hrow & Hd' & Hkey & Hq)];
    [rewrite He in Hloop; discriminate|].
  rewrite Hq in Hloop.
  destruct (upsert_stores fresh (table c1))
    as (j & r & Hj & Hk & Hsp & Hrev & Himp & Hclk & Hconv & Hnew & Hret & Hup).
  assert (Hkd : key_of r = (accountId, d, channel m)).
  { rewrite Hk, Hkey. congruence. }
  exists j, r. split; [|split; [exact Hkd|]].
  - apply (for_each_keeps_other_keys accountId after _ _ j r) in Hloop;
      [exact Hloop | | exact Hj].
    intros m' Hm' d' Hd'' Heq. apply (Hafter m' Hm').
    rewrite Hkd in Heq. injection Heq as -> ->. by split.
  - unfold statement_row in Hrow.
    destruct (column_values pg_date m) as [v|] eqn:Hv; [|discriminate].
    injection Hrow as <-.
    destruct (column_values_holds m v Hv) as (? & ? & ? & ? & ? & ? & ?).
    cbn [proposed m_spend m_revenue m_impressions m_clicks m_conversions
         m_new_customers m_returning_customers updated_at] in *.
    unfold holds. repeat split; congruence.
Qed.

(** C3: [bulkInsert] keeps the keys (account, date, channel) of the
    table unique, whatever rows it is given and whether or not it
    succeeds.  When it returns, no second record was made for a key: the
    records of before are all still there, each in its place, followed by
    one record for each key that is new; the record of a key that an
    input row names is rewritten in its place, with the id and creation
    time it had and the values of the last input row with that key (the
    amounts as NUMERIC(12,2) stores them); and a record whose key no
    input row names is left as it was. *)
Theorem bulkInsert_keeps_unique_keys (uuid_seed : nat) (accountId : string)
    (metrics : list MetricInput) (db : Db) :
  unique_keys (marketing_daily_metrics db) ->
  let after_call := bulkInsert pg_date now uuid_seed accountId metrics db in
  unique_keys (marketing_daily_metrics (snd after_call)) /\
  (fst after_call = Js.Returned tt ->
   (exists added,
      keys (marketing_daily_metrics (snd after_call))
      = (keys (marketing_daily_metrics db) ++ added)%list /\
      forall k, k ∈ added ->
        (k ∉ keys (marketing_daily_metrics db)) /\
        exists m d, m ∈ metrics /\ pg_date (date m) = Some d /\
                    k = (accountId, d, channel m)) /\
   (forall before m after d i r,
      metrics = (before ++ m :: after)%list ->
      (forall m', m' ∈ after ->
         ~ (pg_date (date m') = Some d /\ channel m' = channel m)) ->
      pg_date (date m) = Some d ->
      marketing_daily_metrics db !! i = Some r ->
      key_of r = (accountId, d, channel m) ->
      exists r',
        marketing_daily_metrics (snd after_call) !! i = Some r' /\
        id r' = id r /\ created_at r' = created_at r /\ key_of r' = key_of r /\
        holds r' m) /\
   (forall i r,
      marketing_daily_metrics db !! i = Some r ->
      (forall m d, m ∈ metrics -> pg_date (date m) = Some d ->
         key_of r <> (accountId, d, channel m)) ->
      marketing_daily_metrics (snd after_call) !! i = Some r)).
Proof.
  intros Hu. cbv zeta. rewrite bulkInsert_unfold.
  set (begun := mkClient _ _ _ _).
  destruct (for_each_INSERT_keeps accountId metrics begun) as (Hs & _ & Hu').
  destruct (Js.for_each _ _ _) as [[[]|e] c'] eqn:Hloop;
    cbn [fst snd marketing_daily_metrics] in *.
  - specialize (Hu' Hu). split; [exact Hu'|]. intros _. split; [|split].
    + exact (for_each_keys_added accountId metrics begun c' Hloop).
    + intros before m after d i r -> Hafter Hd Hi Hkey.
      destruct (for_each_in_place accountId _ begun c' i r Hu Hloop Hi)
        as (r' & Hi' & Hid & Hcr & Hk).
      destruct (for_each_last_row accountId before after m d begun c'
                  Hd Hafter Hloop) as (j & rj & Hj & Hkj & Hholds).
      assert (Hij : i = j).
      { unfold unique_keys, keys in Hu'.
        eapply (NoDup_lookup _ i j (key_of r')); [exact Hu' | |].
        - by rewrite list_lookup_fmap, Hi'.
        - rewrite list_lookup_fmap, Hj. cbn. congruence. }
      subst j. rewrite Hi' in Hj. injection Hj as ->.
      exists rj. exact (conj Hi' (conj Hid (conj Hcr (conj Hk Hholds)))).
    + intros i r Hi Hother.
      apply (for_each_keeps_other_keys accountId metrics begun c' i r);
        [|exact Hloop | exact Hi].
      intros m' Hm' d' Hd'. by apply Hother.
  - split; [|discriminate]. unfold persisted. by rewrite Hs.
Qed.

(** C8: [bulkInsert] is all or nothing.  If it throws, the database is
    exactly what it was before the call; if it returns, every input row
    has its record in the table; and at every point of the loop what is
    persisted is still the table as it was at [BEGIN]. *)
Theorem bulkInsert_atomic (uuid_seed : nat) (accountId : string)
    (metrics : list MetricInput) (db : Db) :
  (forall e db',
     bulkInsert pg_date now uuid_seed accountId metrics db = (Js.Threw e, db') ->
     db' = db) /\
  (forall db',
     bulkInsert pg_date now uuid_seed accountId metrics db = (Js.Returned tt, db') ->
     forall m, m ∈ metrics ->
       exists d, pg_date (date m) = Some d /\
                 (accountId, d, channel m) ∈ keys (marketing_daily_metrics db')) /\
  (forall done rest,
     metrics = (done ++ rest)%list ->
     persisted
       (snd (Js.for_each done (query_INSERT pg_date now accountId)
               (snd (query_BEGIN (connect uuid_seed db)))))
     = marketing_daily_metrics db).
Proof.
  split; [|split].
  - intros e db'. rewrite bulkInsert_unfold.
    set (begun := mkClient _ _ _ _).
    destruct (for_each_INSERT_keeps accountId metrics begun) as (Hs & Ha & _).
    destruct (Js.for_each _ _ _) as [[[]|e'] c'] eqn:Hloop; [discriminate|].
    simpl in *. intros [= _ <-]. unfold persisted. rewrite Hs, Ha.
    by destruct db.
  - intros db'. rewrite bulkInsert_unfold.
    destruct (Js.for_each _ _ _) as [[[]|e'] c'] eqn:Hloop; [|discriminate].
    intros [= <-]. simpl.
    by destruct (for_each_INSERT_all accountId metrics _ _ Hloop) as [_ Hall].
  - intros done rest _. by apply for_each_INSERT_persisted.
Qed.

End BulkInsert.

(** A store with one record, and two uploads against it. *)
Definition sample_pg_date (s : string) : option Z := Js.parseInt s.

Definition sample_db : MarketingMetrics.Db :=
  MarketingMetrics.mkDb {[ "acct" ]}
    [ MarketingMetrics.mkMarketingMetric 0 "acct" 19000 "Google Ads" 5%Q
        None None None None None None 10 10 ].

Definition sample_metric (date channel : string) (spend : Q)
  : MarketingMetrics.MetricInput :=
  MarketingMetrics.mkMetricInput date channel spend (Some 0%Q) None None None
    None None.

(** An upload that names the stored key twice and a new key once; the
    last row for the stored key has an amount with three decimals. *)
Definition sample_rows : list MarketingMetrics.MetricInput :=
  [sample_metric "19000" "Google Ads" 7%Q;
   sample_metric "19001" "Google Ads" 8%Q;
   sample_metric "19000" "Google Ads" (1005 # 1000)%Q].

Lemma bulkInsert_keeps_unique_keys_witness :
  exists r',
    MarketingMetrics.marketing_daily_metrics
      (snd (MarketingMetrics.bulkInsert sample_pg_date 20 1 "acct" sample_rows
              sample_db)) !! 0%nat = Some r' /\
    MarketingMetrics.id r' = 0%nat /\
    MarketingMetrics.created_at r' = 10%Z /\
    MarketingMetrics.m_spend r' = (101 # 100)%Q.
Proof.
  destruct (bulkInsert_keeps_unique_keys sample_pg_date 20 1 "acct" sample_rows
              sample_db (NoDup_singleton _)) as [_ Hreturned].
  destruct (Hreturned eq_refl) as (_ & Hplace & _).
  destruct (Hplace
              [sample_metric "19000" "Google Ads" 7%Q;
               sample_metric "19001" "Google Ads" 8%Q]
              (sample_metric "19000" "Google Ads" (1005 # 1000)%Q) []
              19000%Z 0%nat
              (MarketingMetrics.mkMarketingMetric 0 "acct" 19000 "Google Ads" 5%Q
                 None None None None None None 10 10)
              eq_refl)
    as (r' & Hr' & Hid & Hcreated & _ & Hspend & _).
  - intros m' Hm'. by apply elem_of_nil in Hm'.
  - reflexivity.
  - reflexivity.
  - reflexivity.
  - exists r'. repeat split; try assumption.
    change (Js.Returned (101 # 100)%Q
            = Js.Returned (MarketingMetrics.m_spend r')) in Hspend.
    by injection Hspend as <-.
Defined.

Lemma bulkInsert_atomic_witness :
  snd (MarketingMetrics.bulkInsert sample_pg_date 20 1 "acct"
         [sample_metric "19001" "Google Ads" 8%Q;
          sample_metric "19002" "Google Ads" (-1)%Q] sample_db)
  = sample_db.
Proof.
  apply (proj1 (bulkInsert_atomic sample_pg_date 20 1 "acct"
                  [sample_metric "19001" "Google Ads" 8%Q;
                   sample_metric "19002" "Google Ads" (-1)%Q] sample_db)
           "violates check constraint").
  vm_compute. reflexivity.
Defined.
(** ** services/redis.ts and middleware/cache.ts: the cache and a server
    that cannot be reached *)

Section CacheFacts.
Import Redis Cache.

Variable body : Type.
Variable JSON_parse : string -> Js.outcome body.
Variable JSON_stringify : body -> Js.outcome string.
Variable truthy : body -> bool.
Variable handler : Request -> body.

Local Abbreviation getCached := (Redis.getCached body JSON_parse).
Local Abbreviation setCached := (Redis.setCached body JSON_stringify).
Local Abbreviation cacheMiddleware :=
  (Cache.cacheMiddleware body JSON_parse JSON_stringify truthy handler).

(** The client after the module is loaded, with the server out of reach:
    every command waits in the queue. *)
Definition unreachable (values : gmap string (string * Z)) : Client :=
  mkClient true values (fun _ => Queued).

(** The client with the server in reach and every command answered. *)
Definition healthy (c : Client) : Prop :=
  isOpen c = true /\ forall cmd, fate_of c cmd = Replies.

(** No command waits: each is answered or rejected. *)
Definition settles (c : Client) : Prop :=
  forall cmd, fate_of c cmd <> Queued.

Definition with_store (c : Client) (values : gmap string (string * Z)) : Client :=
  mkClient (isOpen c) values (fate_of c).

Lemma with_store_same (c : Client) : with_store c (store c) = c.
Proof. by destruct c. Qed.

Lemma with_store_healthy (c : Client) (values : gmap string (string * Z)) :
  healthy c -> healthy (with_store c values).
Proof. intros [Ho Hf]. by split. Qed.

(** What [getCached] makes of the text under a key. *)
Definition parsed (value : option string) : option body :=
  match value with
  | Some text =>
      if String.eqb text "" then None
      else
        match JSON_parse text with
        | Js.Returned v => Some v
        | Js.Threw _ => None
        end
  | None => None
  end.

Definition cached_at (now : Z) (values : gmap string (string * Z)) (key : string)
  : option body :=
  parsed (read now values key).

Lemma ensure_open_healthy (c : Client) :
  healthy c -> ensure_open c = (Promise.Fulfilled tt, c).
Proof. intros [Ho _]. unfold ensure_open. by rewrite Ho. Qed.

Lemma send_healthy {A} (cmd : command) (reply : Client -> Js.outcome A * Client)
    (c : Client) :
  healthy c ->
  send cmd reply c
  = match reply c with
    | (Js.Returned a, c') => (Promise.Fulfilled a, c')
    | (Js.Threw e, c') => (Promise.Rejected e, c')
    end.
Proof. intros [_ Hf]. unfold send. by rewrite Hf. Qed.

Lemma getCached_healthy (now : Z) (key : string) (c : Client) :
  healthy c ->
  getCached now key c = (Promise.Fulfilled (cached_at now (store c) key), c).
Proof.
  intros Hh.
  unfold Redis.getCached, Promise.try_catch, mbind, Promise.Eff_bind,
    Promise.bind.
  rewrite (ensure_open_healthy c Hh). unfold client_get.
  rewrite (send_healthy _ _ c Hh). unfold cached_at, parsed.
  destruct (read now (store c) key) as [text|]; [|reflexivity].
  destruct (String.eqb text ""); cbn [negb]; [reflexivity|].
  unfold Promise.settle. by destruct (JSON_parse text).
Qed.

(** What [setCached] leaves in the store. *)
Definition written (now : Z) (key : string) (value : body)
    (ttlSeconds : option Q) (values : gmap string (string * Z))
  : gmap string (string * Z) :=
  match JSON_stringify value, expiry now (default 3600%Q ttlSeconds) with
  | Js.Returned text, Some until => <[key := (text, until)]> values
  | _, _ => values
  end.

Lemma setCached_healthy (now : Z) (key : string) (value : body)
    (ttlSeconds : option Q) (c : Client) :
  healthy c ->
  setCached now key value ttlSeconds c
  = (Promise.Fulfilled tt,
     with_store c (written now key value ttlSeconds (store c))).
Proof.
  intros Hh.
  unfold Redis.setCached, Promise.try_catch, mbind, Promise.Eff_bind,
    Promise.bind.
  rewrite (ensure_open_healthy c Hh). unfold written, Promise.settle.
  destruct (JSON_stringify value) as [text|e];
    [|by rewrite with_store_same].
  unfold client_setEx. rewrite (send_healthy _ _ c Hh).
  destruct (expiry now (default 3600%Q ttlSeconds)); [reflexivity|].
  by rewrite with_store_same.
Qed.

Lemma deleteCached_healthy (key : string) (c : Client) :
  healthy c ->
  deleteCached key c
  = (Promise.Fulfilled tt, with_store c (delete key (store c))).
Proof.
  intros Hh.
  unfold deleteCached, Promise.try_catch, mbind, Promise.Eff_bind, Promise.bind.
  rewrite (ensure_open_healthy c Hh). unfold client_del.
  by rewrite (send_healthy _ _ c Hh).
Qed.

(** While the GET waits in the queue, [getCached] is pending. *)
Lemma getCached_queued (now : Z) (key : string) (c : Client) :
  isOpen c = true -> fate_of c (GET key) = Queued ->
  getCached now key c = (Promise.Pending, c).
Proof.
  intros Ho Hq.
  unfold Redis.getCached, Promise.try_catch, mbind, Promise.Eff_bind,
    Promise.bind, ensure_open, client_get, send.
  by rewrite Ho, Hq.
Qed.

Lemma setCached_queued (now : Z) (key : string) (value : body)
    (ttlSeconds : option Q) (c : Client) :
  isOpen c = true -> fate_of c (SETEX key) = Queued ->
  setCached now key value ttlSeconds c
  = (match JSON_stringify value with
     | Js.Returned _ => Promise.Pending
     | Js.Threw _ => Promise.Fulfilled tt
     end, c).
Proof.
  intros Ho Hq.
  unfold Redis.setCached, Promise.try_catch, mbind, Promise.Eff_bind,
    Promise.bind, ensure_open, client_setEx, send, Promise.settle.
  rewrite Ho. destruct (JSON_stringify value); [by rewrite Hq | reflexivity].
Qed.

Lemma cacheMiddleware_queued (options : CacheOptions) (req : Request)
    (now later : Z) (c : Client) :
  method req = "GET" ->
  isOpen c = true -> fate_of c (GET (cacheKey_of options req)) = Queued ->
  cacheMiddleware options req now later c = (Promise.Pending, c).
Proof.
  intros Hget Ho Hq. unfold Cache.cacheMiddleware. rewrite Hget.
  rewrite String.eqb_refl. cbn [negb].
  unfold Promise.try_catch, mbind, Promise.Eff_bind, Promise.bind.
  by rewrite (getCached_queued now _ c Ho Hq).
Qed.

(** C7: the cache does fail a request.  With the Redis server out of
    reach after the module was loaded, every command waits in the queue
    of the client: [getCached] does not return [null] but stays pending,
    [setCached] stays pending unless the value has no JSON text, and the
    middleware never gets to the handler of a GET request, so no body is
    sent, where without a cache the body of the handler would be. *)
Theorem cache_hangs_when_redis_unreachable (values : gmap string (string * Z))
    (now later : Z) (key : string) (value : body) (ttlSeconds : option Q)
    (options : CacheOptions) (path query_json : string)
    (accountId : option string) :
  getCached now key (unreachable values)
  = (Promise.Pending, unreachable values) /\
  setCached now key value ttlSeconds (unreachable values)
  = (match JSON_stringify value with
     | Js.Returned _ => Promise.Pending
     | Js.Threw _ => Promise.Fulfilled tt
     end, unreachable values) /\
  cacheMiddleware options (mkRequest "GET" path query_json accountId) now later
    (unreachable values)
  = (Promise.Pending, unreachable values).
Proof.
  split; [|split].
  - by apply getCached_queued.
  - by apply setCached_queued.
  - by apply cacheMiddleware_queued.
Qed.

End CacheFacts.

Definition sample_JSON_parse (text : string) : Js.outcome string :=
  Js.Returned text.

Definition sample_JSON_stringify (value : string) : Js.outcome string :=
  Js.Returned value.

Definition sample_truthy (value : string) : bool := negb (String.eqb value "").

Definition sample_handler (req : Cache.Request) : string :=
  "summary of " ++ Cache.path req.

(** ** routes/forecast.ts: the horizon check *)

Section ForecastFacts.
Import MlService Routes.

Variable ml : string -> Z -> axios string.

(** What the handler does once the horizon is accepted. *)
Definition forecast_from_ml (account : string) (horizon : Z)
  : Response * list call :=
  (match ml account horizon with
   | Replied data => Respond 200 (Success data)
   | AxiosError st detail => relay_axios_error st detail
   end,
   [GetForecast account horizon]).

(** A horizon that parses to a number other than zero is checked against
    the range 7 to 90. *)
Lemma forecast_horizon_check (account param : string) (h : Z) :
  account <> "" ->
  Js.parseInt param = Some h ->
  h <> 0%Z ->
  forecast ml (Some account) (Some param)
  = if ((h <? 7) || (90 <? h))%Z
    then (Respond 400 (ErrorMessage "Horizon must be between 7 and 90 days"), [])
    else forecast_from_ml account h.
Proof.
  intros Hacc Hparse Hnz. unfold forecast, authenticated, horizon_of.
  destruct (String.eqb_spec account ""); [done|].
  rewrite Hparse. destruct (Z.eqb_spec h 0); [done|]. reflexivity.
Qed.

(** C4 (failing input): the request [?horizon=0] asks for a horizon
    outside 7 to 90, and is not answered with 400: zero is falsy, so the
    default of 30 days takes its place and the forecast is computed. *)
Theorem forecast_horizon_zero :
  Js.parseInt "0" = Some 0%Z /\
  forecast ml (Some "acct") (Some "0") = forecast_from_ml "acct" 30 /\
  snd (forecast ml (Some "acct") (Some "0")) = [GetForecast "acct" 30%Z] /\
  forecast ml (Some "acct") (Some "6")
  = (Respond 400 (ErrorMessage "Horizon must be between 7 and 90 days"), []).
Proof. repeat split. Qed.

End ForecastFacts.

(** ** routes/optimizer.ts: the budget check *)

Section OptimizerFacts.
Import MlService Routes.

Variable ml : string -> Js.scalar -> string -> axios string.

(** C5: a request whose budget is missing, null, zero or negative is answered
    with 400 'Budget must be greater than 0' and the ML service is not
    called; a request with a budget above zero passes the check, and the
    optimisation is requested from the ML service with that budget. *)
Theorem optimizer_budget_check (account : string) (constraints : option string) :
  account <> "" ->
  (forall budget,
     budget = Js.Missing \/ budget = Js.Null \/
     (exists q, budget = Js.Number q /\ (q <= 0)%Q) ->
     optimizer ml (Some account) budget constraints
     = (Respond 400 (ErrorMessage "Budget must be greater than 0"), [])) /\
  (forall q,
     (0 < q)%Q ->
     optimizer ml (Some account) (Js.Number q) constraints
     = (match ml account (Js.Number q) (default "{}" constraints) with
        | Replied data => Respond 200 (Success data)
        | AxiosError st detail => relay_axios_error st detail
        end,
        [PostOptimizerRun account (Js.Number q) (default "{}" constraints)])).
Proof.
  intros Hacc. unfold optimizer, authenticated.
  destruct (String.eqb_spec account ""); [done|].
  split.
  - intros budget [->|[->|(q & -> & Hq)]]; [reflexivity..|].
    simpl. apply Qle_bool_iff in Hq. rewrite Hq. by rewrite orb_true_r.
  - intros q Hq. simpl.
    assert (Hle : Qle_bool q 0 = false).
    { apply not_true_is_false. intros H%Qle_bool_iff.
      exact (Qlt_not_le _ _ Hq H). }
    assert (Heq : Qeq_bool q 0 = false).
    { apply not_true_is_false. intros H%Qeq_bool_iff.
      rewrite H in Hq. exact (Qlt_irrefl _ Hq). }
    rewrite Hle, Heq. reflexivity.
Qed.

End OptimizerFacts.

Lemma optimizer_budget_check_witness :
  Routes.optimizer (fun _ _ _ => MlService.Replied "plan") (Some "acct")
    (Js.Number (-5)%Q) None
  = (Routes.Respond 400 (Routes.ErrorMessage "Budget must be greater than 0"), []).
Proof.
  refine (proj1 (optimizer_budget_check (fun _ _ _ => MlService.Replied "plan")
                   "acct" None _) (Js.Number (-5)%Q) _).
  - discriminate.
  - right. right. exists (-5)%Q. split; [reflexivity | vm_compute; discriminate].
Defined.

(** ** routes/models.ts: the attribution result by id *)

Section AttributionFacts.
Import MlService Routes.

Variable attribution_results : list AttributionResult.
Variable now : Z.
Variable ml : string -> axios JobReply.

(** [id] is the primary key of [attribution_results]. *)
Definition primary_key (rows : list AttributionResult) : Prop :=
  NoDup (map ar_id rows).

Lemma primary_key_unique (rows : list AttributionResult) (r r' : AttributionResult) :
  primary_key rows -> In r rows -> In r' rows -> ar_id r = ar_id r' -> r = r'.
Proof.
  unfold primary_key. induction rows as [|r0 rows IH]; [done|].
  simpl. intros Hnd Hr Hr' Hid. apply NoDup_cons in Hnd as [Hr0 Hnd].
  destruct Hr as [->|Hr], Hr' as [->|Hr']; [reflexivity| | |by apply IH].
  - exfalso. apply Hr0. rewrite Hid. apply list_elem_of_In.
    by apply in_map.
  - exfalso. apply Hr0. rewrite <- Hid. apply list_elem_of_In.
    by apply in_map.
Qed.

(** A cache miss sends the request on to the ML service with nothing but
    the id, so the answer does not depend on who asks. *)
Lemma attribution_miss_same_for_all (caller other id : string) :
  caller <> "" -> other <> "" ->
  select_cached attribution_results now caller id = [] ->
  select_cached attribution_results now other id = [] ->
  attribution_by_id attribution_results now ml (Some caller) id
  = attribution_by_id attribution_results now ml (Some other) id.
Proof.
  intros Hc Ho Hmc Hmo. unfold attribution_by_id, authenticated.
  destruct (String.eqb_spec caller ""); [done|].
  destruct (String.eqb_spec other ""); [done|].
  by rewrite Hmc, Hmo.
Qed.

(** C6: a stored result whose expiry is not after the time of the lookup
    is not among the rows of the cache query, and the handler, instead of
    answering with it, asks the ML service. *)
Theorem expired_result_not_served (account id : string) (r : AttributionResult)
    (e : Z) :
  primary_key attribution_results ->
  account <> "" ->
  In r attribution_results ->
  ar_id r = id ->
  expires_at r = Some e ->
  (e <= now)%Z ->
  (forall a i, ~ In r (select_cached attribution_results now a i)) /\
  attribution_by_id attribution_results now ml (Some account) id
  = (relay_job id (ml id), [GetAttribution id]).
Proof.
  intros Hpk Hacc Hin Hid He Hpast.
  assert (Hexp : not_expired now r = false).
  { unfold not_expired. rewrite He. apply Z.ltb_ge. exact Hpast. }
  split.
  - intros a i Hsel. apply filter_In in Hsel as [_ Hp].
    rewrite Hexp in Hp. by rewrite andb_false_r in Hp.
  - unfold attribution_by_id, authenticated.
    destruct (String.eqb_spec account ""); [done|].
    destruct (select_cached attribution_results now account id)
      as [|row rows] eqn:Hsel; [reflexivity|].
    exfalso.
    assert (Hrow : In row (select_cached attribution_results now account id))
      by (rewrite Hsel; by left).
    apply filter_In in Hrow as [Hrow Hp].
    apply andb_true_iff in Hp as [Hp Hlive].
    apply andb_true_iff in Hp as [_ Hrid]. apply String.eqb_eq in Hrid.
    assert (row = r) as -> by (apply (primary_key_unique _ _ _ Hpk); congruence).
    congruence.
Qed.

End AttributionFacts.

(** One stored result that expired, and a job of another account. *)
Definition expired_row : Routes.AttributionResult :=
  Routes.mkAttributionResult "job-7" "acct" "{r_squared: 0.93}" (Some 1000%Z).

Definition jobs_of_B : list MlService.Job :=
  [ MlService.mkJob "job-1" "acct-B" MlService.completed
      (Some "{r_squared: 0.91}") None ].

Lemma expired_result_not_served_witness :
  Routes.attribution_by_id [expired_row] 2000
    (MlService.get_attribution jobs_of_B) (Some "acct") "job-7"
  = (Routes.Respond 502 (Routes.ErrorMessage "ML service unavailable"),
     [MlService.GetAttribution "job-7"]).
Proof.
  refine (proj2 (expired_result_not_served [expired_row] 2000
                   (MlService.get_attribution jobs_of_B) "acct" "job-7"
                   expired_row 1000 _ _ _ _ _ _)).
  - apply NoDup_singleton.
  - discriminate.
  - by left.
  - reflexivity.
  - reflexivity.
  - lia.
Defined.

(** C2 (failing input): account A asks for the job of account B.  The
    cache query, which is scoped to the caller, finds nothing; the ML
    service is then asked with the id alone, and the handler answers 200
    with the result of B's job. *)
Theorem attribution_job_served_to_other_account (now : Z) :
  MlService.job_account_id <$> jobs_of_B = ["acct-B"] /\
  Routes.attribution_by_id [] now (MlService.get_attribution jobs_of_B)
    (Some "acct-A") "job-1"
  = (Routes.Respond 200 (Routes.Success "{r_squared: 0.91}"),
     [MlService.GetAttribution "job-1"]) /\
  Routes.attribution_by_id [] now (MlService.get_attribution jobs_of_B)
    (Some "acct-A") "job-1"
  = Routes.attribution_by_id [] now (MlService.get_attribution jobs_of_B)
      (Some "acct-B") "job-1".
Proof. repeat split. Qed.

(** ** utils/channelNormalization.ts: letter case does not matter *)

Section ChannelCase.
Import Js ChannelNormalization.

Lemma toLowerChar_nonspace (c : ascii) :
  is_white_space c = false -> is_white_space (toLowerChar c) = false.
Proof. by rewrite toLowerChar_space. Qed.

Lemma toLowerCase_empty (s : string) :
  toLowerCase s = EmptyString <-> s = EmptyString.
Proof. destruct s; simpl; split; congruence. Qed.

Lemma trimStart_toLowerCase (s : string) :
  trimStart (toLowerCase s) = toLowerCase (trimStart s).
Proof.
  induction s as [|c s IH]; [reflexivity|]. simpl.
  rewrite toLowerChar_space. by destruct (is_white_space c).
Qed.

Lemma trimEnd_toLowerCase (s : string) :
  trimEnd (toLowerCase s) = toLowerCase (trimEnd s).
Proof.
  induction s as [|c s IH]; [reflexivity|]. simpl. rewrite IH.
  destruct (trimEnd s) as [|c' t]; simpl.
  - rewrite toLowerChar_space. by destruct (is_white_space c).
  - reflexivity.
Qed.

Lemma trim_toLowerCase (s : string) :
  trim (toLowerCase s) = toLowerCase (trim s).
Proof. unfold trim. by rewrite trimStart_toLowerCase, trimEnd_toLowerCase. Qed.

Lemma starts_with_space_toLowerCase (s : string) :
  starts_with_space (toLowerCase s) = starts_with_space s.
Proof. destruct s; [reflexivity|]. simpl. apply toLowerChar_space. Qed.

Lemma split_spaces_toLowerCase (s : string) :
  split_spaces (toLowerCase s) = map toLowerCase (split_spaces s).
Proof.
  induction s as [|c s IH]; [reflexivity|]. simpl.
  rewrite toLowerChar_space, starts_with_space_toLowerCase, IH.
  destruct (is_white_space c).
  - by destruct (starts_with_space s).
  - by destruct (split_spaces s).
Qed.

Lemma toUpperChar_toLowerChar (c : ascii) :
  toUpperChar (toLowerChar c) = toUpperChar c.
Proof. destruct c as [[] [] [] [] [] [] [] []]; reflexivity. Qed.

Lemma capitalize_toLowerCase (w : string) :
  capitalize (toLowerCase w) = capitalize w.
Proof.
  destruct w as [|c w]; [reflexivity|].
  change (capitalize (String c w)) with (String (toUpperChar c) (toLowerCase w)).
  change (capitalize (toLowerCase (String c w)))
    with (String (toUpperChar (toLowerChar c)) (toLowerCase (toLowerCase w))).
  by rewrite toUpperChar_toLowerChar, toLowerCase_idem.
Qed.

Lemma titleCase_toLowerCase (s : string) :
  titleCase (toLowerCase s) = titleCase s.
Proof.
  unfold titleCase. rewrite split_spaces_toLowerCase, map_map.
  f_equal. apply map_ext. intros w. apply capitalize_toLowerCase.
Qed.

(** X1: [normalizeChannel] does not look at letter case.  Two ASCII raw
    names that agree once lower-cased are normalised to the same value,
    whatever the account and its mapping table. *)
Theorem normalizeChannel_ignores_case
    (channel_normalization : list NormalizationRow) (accountId x y : string) :
  is_ascii_string x = true ->
  is_ascii_string y = true ->
  toLowerCase x = toLowerCase y ->
  normalizeChannel channel_normalization accountId x
  = normalizeChannel channel_normalization accountId y.
Proof.
  intros _ _ Hxy. unfold normalizeChannel. cbv zeta.
  rewrite <- (trim_toLowerCase x), <- (trim_toLowerCase y), Hxy.
  rewrite <- (titleCase_toLowerCase x), <- (titleCase_toLowerCase y), Hxy.
  reflexivity.
Qed.

End ChannelCase.

Lemma normalizeChannel_ignores_case_witness :
  ChannelNormalization.normalizeChannel [] "acct" "GOOGLE ads"
  = ChannelNormalization.normalizeChannel [] "acct" "google ADS".
Proof.
  apply normalizeChannel_ignores_case; reflexivity.
Defined.

(** ** routes/uploads.ts: the minimum-data step *)

Section MinimumDaysStep.
Import Validation Uploads.

Lemma dedupe_from_elem (seen : gset string) (xs : list string) (x : string) :
  x ∈ dedupe_from seen xs <-> x ∈ xs /\ x ∉ seen.
Proof.
  revert seen. induction xs as [|y xs IH]; intros seen; simpl.
  - split; [intros H; by apply elem_of_nil in H | intros [H _]; by apply elem_of_nil in H].
  - case_bool_decide as Hy.
    + rewrite IH, elem_of_cons. split; [tauto|].
      intros [[->|Hx] Hni]; [done | tauto].
    + rewrite !elem_of_cons, IH. split.
      * intros [->|[Hx Hni]]; [tauto|]. split; [tauto | set_solver].
      * intros [[->|Hx] Hni]; [tauto|].
        destruct (decide (x = y)) as [->|Hne]; [tauto|]. right. split; [done | set_solver].
Qed.

Lemma dedupe_from_NoDup (seen : gset string) (xs : list string) :
  NoDup (dedupe_from seen xs).
Proof.
  revert seen. induction xs as [|y xs IH]; intros seen; simpl.
  - constructor.
  - case_bool_decide as Hy; [apply IH|].
    constructor; [|apply IH].
    rewrite dedupe_from_elem. set_solver.
Qed.

Lemma filter_NoDup_stdpp {A} (f : A -> bool) (l : list A) :
  NoDup l -> NoDup (List.filter f l).
Proof.
  induction 1 as [|x l Hx Hnd IH]; simpl; [constructor|].
  destruct (f x); [|exact IH]. constructor; [|exact IH].
  intros Hin. apply Hx. apply list_elem_of_In in Hin.
  apply filter_In in Hin as [Hin _]. by apply list_elem_of_In.
Qed.

Definition non_empty (d : string) : bool := negb (String.eqb d "").

(** The dates the minimum-data check is given: the different non-empty
    dates of the upload, each once. *)
Lemma checked_dates_spec (dates : list string) (existingDays : nat) :
  let checked :=
    List.filter non_empty (dedupe (dates ++ replicate existingDays "")) in
  NoDup checked /\
  length checked = size (list_to_set (List.filter non_empty dates) : gset string).
Proof.
  cbv zeta.
  assert (Hnd : NoDup (List.filter non_empty
                         (dedupe (dates ++ replicate existingDays ""))))
    by apply filter_NoDup_stdpp, dedupe_from_NoDup.
  split; [exact Hnd|].
  rewrite <- (size_list_to_set (C := gset string) _ Hnd). f_equal.
  apply set_eq. intros x. rewrite !elem_of_list_to_set.
  rewrite <- !list_elem_of_In || idtac.
  split; intros Hx; apply list_elem_of_In in Hx; apply filter_In in Hx as [Hx Hne];
    apply list_elem_of_In; apply filter_In; (split; [|exact Hne]);
    apply list_elem_of_In; apply list_elem_of_In in Hx.
  - apply dedupe_from_elem in Hx as [Hx _].
    apply elem_of_app in Hx as [Hx|Hx]; [exact Hx|].
    apply elem_of_replicate in Hx as [-> _]. discriminate.
  - apply dedupe_from_elem. split; [|set_solver].
    apply elem_of_app. by left.
Qed.

Variable accountId : string.

Definition warning_text : string :=
  "Warning: Minimum 60 days of data required for attribution. Attribution models require at least 60 days of data.".

(** X2: after the loop the upload adds at most one warning, always with
    the same text, and it does so exactly when at least one row was
    accepted, the account has fewer than 60 days on record and the upload
    itself holds fewer than 60 different non-empty dates: days already on
    record gate the warning but are never added to the count. *)
Theorem minimum_days_step_spec (existingDays : nat) (st : Collected) :
  minimum_days_step accountId existingDays st
  = if bool_decide
         (metrics st <> [] /\
          (existingDays < 60)%nat /\
          (size (list_to_set (List.filter non_empty (dates st)) : gset string)
           < 60)%nat)
    then mkCollected (metrics st) (errors st ++ [warning_text]) (dates st)
    else st.
Proof.
  unfold minimum_days_step. destruct (metrics st) as [|m ms] eqn:Hm.
  - rewrite bool_decide_eq_false_2; [reflexivity | tauto].
  - cbv zeta.
    destruct (checked_dates_spec (dates st) existingDays) as [Hnd Hlen].
    cbv zeta in Hnd, Hlen. fold non_empty.
    set (checked := List.filter non_empty _) in *.
    unfold validateMinimumDataDays.
    rewrite (size_list_to_set (C := gset string) _ Hnd), Hlen.
    destruct (Nat.ltb_spec
                (size (list_to_set (List.filter non_empty (dates st)) : gset string))
                60) as [Hfew|Hmany]; simpl.
    + destruct (Nat.ltb_spec existingDays 60) as [He|He].
      * rewrite bool_decide_eq_true_2 by done. reflexivity.
      * rewrite bool_decide_eq_false_2; [reflexivity | lia].
    + rewrite bool_decide_eq_false_2; [reflexivity | lia].
Qed.

End MinimumDaysStep.

(** ** middleware/auth.ts in front of the premium routes *)

Section AuthFacts.
Import Auth.

Variable jwt_verify : string -> string -> verified.
Variable JWT_SECRET : option string.

Lemma substring_whole (s : string) : String.substring 0 (String.length s) s = s.
Proof. induction s as [|c s IH]; simpl; [reflexivity | by rewrite IH]. Qed.

Lemma substring_split (n : nat) (s : string) :
  s = String.substring 0 n s ++ String.substring n (String.length s - n) s.
Proof.
  revert n. induction s as [|c s IH]; intros n.
  - by destruct n.
  - destruct n as [|n].
    + by rewrite Nat.sub_0_r, substring_whole.
    + cbn [String.substring String.length Nat.sub].
      change (String c s
              = String c (String.substring 0 n s
                          ++ String.substring n (String.length s - n) s)).
      f_equal. apply IH.
Qed.

Lemma bearer_prefix (authHeader : string) :
  String.prefix "Bearer " authHeader = true ->
  authHeader
  = "Bearer " ++ String.substring 7 (String.length authHeader - 7) authHeader.
Proof.
  intros H%prefix_correct.
  etransitivity; [apply (substring_split 7)|]. f_equal. exact H.
Qed.

(** X3: a handler behind [authenticate] and [requirePremium] runs only
    for a request whose header is 'Bearer ' followed by a token that
    [jwt.verify] accepts under the configured secret with tier
    'premium', and the account id it is given is the one in that token.
    Every other request ends in an error of [authenticate] or in the 403
    of [requirePremium], with no call to the ML service. *)
Theorem premium_route_gate
    (handler : option string -> Routes.Response * list MlService.call)
    (authorization : option string) :
  match premium_route jwt_verify JWT_SECRET handler authorization with
  | ByAuthenticate o =>
      match o with
      | Next _ => False
      | NextAppError _ statusCode => statusCode = 401%nat
      | NextPlainError _ => True
      end
  | ByRoute response calls =>
      (response = premium_required /\ calls = []) \/
      (exists token secret claims,
         authorization = Some ("Bearer " ++ token) /\
         JWT_SECRET = Some secret /\ secret <> "" /\
         jwt_verify token secret = Decoded claims /\
         tier claims = Some "premium" /\
         handler (accountId claims) = (response, calls))
  end.
Proof.
  unfold premium_route, authenticate.
  destruct authorization as [authHeader|]; [|reflexivity].
  destruct (String.eqb authHeader ""); [reflexivity|]. simpl.
  destruct (String.prefix "Bearer " authHeader) eqn:Hprefix; [|reflexivity].
  simpl. destruct JWT_SECRET as [secret|]; [|exact I].
  destruct (String.eqb_spec secret ""); [exact I|].
  destruct (jwt_verify _ secret) as [claims| |] eqn:Hverify;
    [|reflexivity|exact I].
  unfold requirePremium, is_premium.
  destruct (tier claims) as [t|] eqn:Htier; [|by left].
  destruct (String.eqb_spec t "premium") as [->|Hne]; [|by left].
  destruct (handler (accountId claims)) as [response calls] eqn:Hh.
  right. exists (String.substring 7 (String.length authHeader - 7) authHeader),
           secret, claims.
  repeat split; try done. f_equal. by apply bearer_prefix.
Qed.

End AuthFacts.

(** ** What the routes send to the ML service *)

Section RouteCalls.
Import MlService Routes.

Lemma authenticated_Some (accountId : option string) (account : string) :
  authenticated accountId = Some account ->
  accountId = Some account /\ account <> "".
Proof.
  unfold authenticated. destruct accountId as [a|]; [|discriminate].
  destruct (String.eqb_spec a ""); [discriminate|]. by intros [= ->].
Qed.

(** X4: whatever the [horizon] parameter, the forecast route asks the ML
    service at most once, for the account of the request, and only for a
    horizon between 7 and 90 days. *)
Theorem forecast_calls_in_range (ml : string -> Z -> axios string)
    (accountId : option string) (horizon_param : option string) :
  snd (forecast ml accountId horizon_param) = [] \/
  exists account horizon,
    snd (forecast ml accountId horizon_param) = [GetForecast account horizon] /\
    accountId = Some account /\ account <> "" /\
    (7 <= horizon <= 90)%Z.
Proof.
  unfold forecast.
  destruct (authenticated accountId) as [account|] eqn:Hauth; [|by left].
  apply authenticated_Some in Hauth as [-> Hne].
  destruct (Z.ltb_spec (horizon_of horizon_param) 7); [by left|].
  destruct (Z.ltb_spec 90 (horizon_of horizon_param)); [by left|].
  right. exists account, (horizon_of horizon_param). simpl.
  repeat split; try done; lia.
Qed.

(** X6: when the attribution route answers from [attribution_results],
    the row it returns belongs to the caller, has the requested id, is
    stored and not expired, and the ML service is not asked. *)
Theorem attribution_cached_row_is_callers
    (attribution_results : list AttributionResult) (now : Z)
    (ml : string -> axios JobReply) (accountId : option string)
    (id account' id' data : string) (code : nat) (calls : list call) :
  attribution_by_id attribution_results now ml accountId id
  = (Respond code (SuccessRow account' id' data), calls) ->
  accountId = Some account' /\ id' = id /\ code = 200%nat /\ calls = [] /\
  exists row,
    In row attribution_results /\
    ar_account_id row = account' /\ ar_id row = id /\ ar_data row = data /\
    not_expired now row = true.
Proof.
  unfold attribution_by_id.
  destruct (authenticated accountId) as [account|] eqn:Hauth; [|discriminate].
  apply authenticated_Some in Hauth as [-> Hne].
  destruct (select_cached attribution_results now account id)
    as [|row rows] eqn:Hsel.
  - unfold relay_job. destruct (ml id) as [r|]; [|discriminate].
    by destruct (has_result r).
  - intros [= <- <- <- <- <-].
    assert (Hrow : In row (select_cached attribution_results now account id))
      by (rewrite Hsel; by left).
    apply filter_In in Hrow as [Hin Hp].
    apply andb_true_iff in Hp as [Hp Hlive].
    apply andb_true_iff in Hp as [Hacc Hid].
    apply String.eqb_eq in Hacc, Hid.
    repeat split; try done; try congruence. by exists row.
Qed.

End RouteCalls.

Lemma attribution_cached_row_is_callers_witness :
  Routes.ar_account_id
    (Routes.mkAttributionResult "job-7" "acct" "{r_squared: 0.93}" None)
  = "acct".
Proof.
  destruct (attribution_cached_row_is_callers
              [Routes.mkAttributionResult "job-7" "acct" "{r_squared: 0.93}" None]
              2000 (MlService.get_attribution jobs_of_B) (Some "acct") "job-7"
              "acct" "job-7" "{r_squared: 0.93}" 200 [] eq_refl)
    as (_ & _ & _ & _ & row & Hin & Hacc & _).
  destruct Hin as [<-|[]]. exact Hacc.
Defined.

(** ** The free-tier limits *)

Section FreeTierFacts.
Import FreeTier.

Definition within (x : option Q) (limit : Q) : Prop :=
  match x with
  | Some q => (q <= limit)%Q
  | None => True
  end.

Lemma exceeds_false (x : option Q) (limit : Q) :
  (0 <= limit)%Q -> exceeds x limit = false <-> within x limit.
Proof.
  intros Hlimit. unfold exceeds, within. destruct x as [q|]; [|done].
  rewrite andb_false_iff, !negb_false_iff, Qeq_bool_iff, Qle_bool_iff.
  split; [|tauto]. intros [->|H]; [exact Hlimit | exact H].
Qed.

(** X7: [enforceFreeTier] never throws for a tier other than 'free'; for
    the free tier it returns exactly when every figure that is given is
    within its limit (500 rows, 5 channels, 90 days), and otherwise
    throws the message of the first limit exceeded, in that order. *)
Theorem enforceFreeTier_spec (tier : string) (data : Usage) :
  (tier <> "free" -> enforceFreeTier tier data = Js.Returned tt) /\
  (enforceFreeTier "free" data = Js.Returned tt <->
     within (rows data) 500 /\ within (channels data) 5 /\ within (days data) 90) /\
  (~ within (rows data) 500 ->
   enforceFreeTier "free" data
   = Js.Threw "Free tier limit: 500 rows per month. Please upgrade to Premium.") /\
  (within (rows data) 500 -> ~ within (channels data) 5 ->
   enforceFreeTier "free" data
   = Js.Threw "Free tier limit: 5 channels. Please upgrade to Premium.") /\
  (within (rows data) 500 -> within (channels data) 5 -> ~ within (days data) 90 ->
   enforceFreeTier "free" data
   = Js.Threw "Free tier limit: 90 days of history. Please upgrade to Premium.").
Proof.
  assert (H500 : (0 <= maxDataRows)%Q) by done.
  assert (H5 : (0 <= maxChannels)%Q) by done.
  assert (H90 : (0 <= historicalDays)%Q) by done.
  pose proof (exceeds_false (rows data) _ H500) as Hr.
  pose proof (exceeds_false (channels data) _ H5) as Hc.
  pose proof (exceeds_false (days data) _ H90) as Hd.
  unfold enforceFreeTier. split; [|simpl].
  - intros Hne. by destruct (String.eqb_spec tier "free").
  - destruct (exceeds (rows data) maxDataRows);
      destruct (exceeds (channels data) maxChannels);
      destruct (exceeds (days data) historicalDays);
      unfold maxDataRows, maxChannels, historicalDays in *;
      repeat split; try tauto; try discriminate; intros;
      try (exfalso; intuition congruence).
Qed.

End FreeTierFacts.

Lemma enforceFreeTier_spec_witness :
  FreeTier.enforceFreeTier "free"
    (FreeTier.mkUsage (Some 100%Q) (Some 6%Q) (Some 400%Q))
  = Js.Threw "Free tier limit: 5 channels. Please upgrade to Premium.".
Proof.
  apply (proj1 (proj2 (proj2 (proj2
           (enforceFreeTier_spec "free"
              (FreeTier.mkUsage (Some 100%Q) (Some 6%Q) (Some 400%Q))))))).
  - vm_compute. discriminate.
  - vm_compute. intros H. by apply H.
Defined.
(** ** services/redis.ts: what is written can be read, for its time *)

Section RedisRoundTrip.
Import Redis.

Variable body : Type.
Variable JSON_parse : string -> Js.outcome body.
Variable JSON_stringify : body -> Js.outcome string.

Local Abbreviation getCached := (Redis.getCached body JSON_parse).
Local Abbreviation setCached := (Redis.setCached body JSON_stringify).

(** A whole number of seconds from 1 on, within the clock of the server,
    is a time to live the server accepts. *)
Lemma expiry_whole (now s : Z) (seconds : Q) :
  (seconds == inject_Z s)%Q ->
  (0 <= now)%Z -> (1 <= s)%Z -> (s * 1000 <= LLONG_MAX - now)%Z ->
  expiry now seconds = Some (now + s * 1000)%Z.
Proof.
  intros Heq Hnow Hs Hfit. unfold expiry.
  rewrite (Qred_complete _ _ Heq).
  assert (Hred : Qred (inject_Z s) = inject_Z s).
  { apply Qcanon.Qred_identity. apply Z.gcd_1_r. }
  rewrite Hred. cbn [inject_Z Qden Qnum Pos.eqb].
  assert (Hdiv : (s <= LLONG_MAX / 1000)%Z).
  { apply Z.div_le_lower_bound; lia. }
  destruct (Z.leb_spec 1 s); [|lia].
  destruct (Z.leb_spec s (LLONG_MAX / 1000)); [|lia].
  destruct (Z.leb_spec (s * 1000) (LLONG_MAX - now)); [|lia].
  reflexivity.
Qed.

(** The server refuses a time to live that is zero or negative. *)
Lemma expiry_not_positive (now : Z) (seconds : Q) :
  (seconds <= 0)%Q -> expiry now seconds = None.
Proof.
  intros Hle. unfold expiry.
  destruct (Pos.eqb (Qden (Qred seconds)) 1); [|reflexivity].
  assert (Hnum : (Qnum (Qred seconds) <= 0)%Z).
  { assert (Hred : (Qred seconds <= 0)%Q) by (by rewrite Qred_correct).
    unfold Qle in Hred. cbn in Hred. lia. }
  destruct (Z.leb_spec 1 (Qnum (Qred seconds))); [lia | reflexivity].
Qed.

Lemma read_insert_same (t until : Z) (values : gmap string (string * Z))
    (key text : string) :
  read t (<[key := (text, until)]> values) key
  = if (t <=? until)%Z then Some text else None.
Proof. unfold read. by rewrite lookup_insert_eq. Qed.

Lemma read_insert_other (t : Z) (values : gmap string (string * Z))
    (key key' : string) (entry : string * Z) :
  key' <> key -> read t (<[key := entry]> values) key' = read t values key'.
Proof. intros Hne. unfold read. by rewrite lookup_insert_ne. Qed.

Lemma written_other (now : Z) (key key' : string) (value : body)
    (ttlSeconds : option Q) (values : gmap string (string * Z)) (t : Z) :
  key' <> key ->
  read t (written body JSON_stringify now key value ttlSeconds values) key'
  = read t values key'.
Proof.
  intros Hne. unfold written.
  destruct (JSON_stringify value); [|reflexivity].
  destruct (expiry _ _); [|reflexivity]. by apply read_insert_other.
Qed.

(** X8: on a client whose commands are all answered, a value whose JSON
    text is not empty and parses back to it is read back by [getCached]
    after [setCached] under the same key for as long as its time to live
    lasts (3600 seconds unless a time is given) and no longer; with a
    time to live of zero or less nothing is stored; and every other key
    reads as before. *)
Theorem setCached_then_getCached (t0 : Z) (key : string) (value : body)
    (text : string) (ttlSeconds : option Q) (c : Client) :
  healthy c ->
  JSON_stringify value = Js.Returned text ->
  text <> "" ->
  JSON_parse text = Js.Returned value ->
  let seconds := default 3600%Q ttlSeconds in
  let c' := snd (setCached t0 key value ttlSeconds c) in
  (forall s,
     (seconds == inject_Z s)%Q ->
     (0 <= t0)%Z -> (1 <= s)%Z -> (s * 1000 <= LLONG_MAX - t0)%Z ->
     (forall t, (t <= t0 + s * 1000)%Z ->
        fst (getCached t key c') = Promise.Fulfilled (Some value)) /\
     (forall t, (t0 + s * 1000 < t)%Z ->
        fst (getCached t key c') = Promise.Fulfilled None)) /\
  ((seconds <= 0)%Q ->
   forall t, fst (getCached t key c') = fst (getCached t key c)) /\
  (forall t key', key' <> key ->
     fst (getCached t key' c') = fst (getCached t key' c)).
Proof.
  intros Hh Htext Hne Hparse. cbv zeta.
  rewrite (setCached_healthy body JSON_stringify t0 key value ttlSeconds c Hh).
  cbn [snd].
  set (values' := written body JSON_stringify t0 key value ttlSeconds (store c)).
  pose proof (with_store_healthy c values' Hh) as Hh'.
  split; [|split].
  - intros s Heq Ht0 Hs Hfit.
    assert (Hvalues : values' = <[key := (text, (t0 + s * 1000)%Z)]> (store c)).
    { unfold values', written.
      by rewrite Htext, (expiry_whole t0 s _ Heq Ht0 Hs Hfit). }
    split; intros t Ht;
      rewrite (getCached_healthy body JSON_parse t key _ Hh'); cbn [fst store with_store];
      unfold cached_at.
    + rewrite Hvalues, read_insert_same.
      destruct (Z.leb_spec t (t0 + s * 1000)); [|lia].
      unfold parsed. destruct (String.eqb_spec text ""); [done|].
      by rewrite Hparse.
    + rewrite Hvalues, read_insert_same.
      destruct (Z.leb_spec t (t0 + s * 1000)); [lia | reflexivity].
  - intros Hle t.
    rewrite (getCached_healthy body JSON_parse t key _ Hh'),
      (getCached_healthy body JSON_parse t key c Hh).
    cbn [fst store with_store]. unfold values', written.
    rewrite (expiry_not_positive t0 _ Hle). by destruct (JSON_stringify value).
  - intros t key' Hk.
    rewrite (getCached_healthy body JSON_parse t key' _ Hh'),
      (getCached_healthy body JSON_parse t key' c Hh).
    cbn [fst store with_store]. unfold cached_at, values'.
    by rewrite (written_other t0 key key' value ttlSeconds (store c) t Hk).
Qed.

(** X9: on a client whose commands are all answered, [deleteCached]
    returns, the key reads as [null] from then on, and every other key
    reads as before. *)
Theorem deleteCached_then_getCached (key : string) (c : Client) :
  healthy c ->
  let c' := snd (deleteCached key c) in
  fst (deleteCached key c) = Promise.Fulfilled tt /\
  (forall t, fst (getCached t key c') = Promise.Fulfilled None) /\
  (forall t key', key' <> key ->
     fst (getCached t key' c') = fst (getCached t key' c)).
Proof.
  intros Hh. cbv zeta. rewrite (deleteCached_healthy key c Hh). cbn [fst snd].
  pose proof (with_store_healthy c (delete key (store c)) Hh) as Hh'.
  split; [reflexivity|]. split.
  - intros t. rewrite (getCached_healthy body JSON_parse t key _ Hh').
    cbn [fst store with_store]. unfold cached_at, read.
    by rewrite lookup_delete_eq.
  - intros t key' Hk.
    rewrite (getCached_healthy body JSON_parse t key' _ Hh'),
      (getCached_healthy body JSON_parse t key' c Hh).
    cbn [fst store with_store]. unfold cached_at, read.
    by rewrite lookup_delete_ne.
Qed.

End RedisRoundTrip.

(** A client in reach of its server, holding [values]. *)
Definition in_reach (values : gmap string (string * Z)) : Redis.Client :=
  Redis.mkClient true values (fun _ => Redis.Replies).

Lemma in_reach_healthy (values : gmap string (string * Z)) :
  healthy (in_reach values).
Proof. by split. Qed.

Lemma setCached_then_getCached_witness :
  fst (Redis.getCached string sample_JSON_parse 60000 "k"
         (snd (Redis.setCached string sample_JSON_stringify 1000 "k" "v"
                 (Some 60%Q) (in_reach ∅))))
  = Promise.Fulfilled (Some "v") /\
  fst (Redis.getCached string sample_JSON_parse 61001 "k"
         (snd (Redis.setCached string sample_JSON_stringify 1000 "k" "v"
                 (Some 60%Q) (in_reach ∅))))
  = Promise.Fulfilled None.
Proof.
  destruct (setCached_then_getCached string sample_JSON_parse
              sample_JSON_stringify 1000 "k" "v" "v" (Some 60%Q) (in_reach ∅)
              (in_reach_healthy ∅) eq_refl ltac:(discriminate) eq_refl)
    as [Hlive _].
  destruct (Hlive 60%Z ltac:(reflexivity) ltac:(lia) ltac:(lia)
              ltac:(vm_compute; discriminate)) as [Hhit Hgone].
  split; [apply Hhit | apply Hgone]; lia.
Defined.

Lemma deleteCached_then_getCached_witness :
  fst (Redis.getCached string sample_JSON_parse 5 "k"
         (snd (Redis.deleteCached "k" (in_reach {[ "k" := ("v", 300%Z) ]}))))
  = Promise.Fulfilled None.
Proof.
  apply (deleteCached_then_getCached string sample_JSON_parse "k"
           (in_reach {[ "k" := ("v", 300%Z) ]}) (in_reach_healthy _)).
Defined.

(** ** services/redis.ts: invalidatePattern *)

Section InvalidatePattern.
Import Redis.

Variable glob_match : string -> string -> bool.

Local Abbreviation invalidatePattern := (Redis.invalidatePattern glob_match).

Lemma lookup_foldr_delete (m : gmap string (string * Z)) (keys : list string)
    (k : string) :
  foldr delete m keys !! k = if bool_decide (k ∈ keys) then None else m !! k.
Proof.
  induction keys as [|k0 keys IH]; cbn [foldr].
  - case_bool_decide as H; [by apply elem_of_nil in H | reflexivity].
  - destruct (decide (k = k0)) as [->|Hne].
    + rewrite lookup_delete_eq, bool_decide_eq_true_2; [reflexivity | left].
    + rewrite lookup_delete_ne by done. rewrite IH.
      destruct (decide (k ∈ keys)) as [Hin|Hni].
      * rewrite !bool_decide_eq_true_2; [reflexivity | by right | done].
      * rewrite !bool_decide_eq_false_2; [reflexivity | | done].
        intros [?|?]%elem_of_cons; done.
Qed.

(** The keys [KEYS pattern] lists at [now]. *)
Definition matching (now : Z) (pattern : string)
    (values : gmap string (string * Z)) : list string :=
  List.filter (glob_match pattern) (live_keys now values).

Lemma matching_elem (now : Z) (pattern : string)
    (values : gmap string (string * Z)) (k : string) :
  k ∈ matching now pattern values <->
  glob_match pattern k = true /\
  exists entry, values !! k = Some entry /\ alive now entry = true.
Proof.
  unfold matching, live_keys.
  rewrite list_elem_of_In, filter_In, <- list_elem_of_In.
  rewrite list_elem_of_fmap. split.
  - intros [([k' v] & -> & Hin) Hm]. split; [exact Hm|].
    apply list_elem_of_In, filter_In in Hin as [Hin Halive].
    apply list_elem_of_In, elem_of_map_to_list in Hin. by exists v.
  - intros [Hm (v & Hv & Halive)]. split; [|exact Hm].
    exists (k, v). split; [reflexivity|].
    apply list_elem_of_In, filter_In. split; [|exact Halive].
    by apply list_elem_of_In, elem_of_map_to_list.
Qed.

(** The store [invalidatePattern] leaves when its commands are
    answered. *)
Definition invalidated (now : Z) (pattern : string)
    (values : gmap string (string * Z)) : gmap string (string * Z) :=
  foldr delete values (matching now pattern values).

Lemma invalidatePattern_healthy (now : Z) (pattern : string) (c : Client) :
  healthy c ->
  invalidatePattern now pattern c
  = (Promise.Fulfilled tt, with_store c (invalidated now pattern (store c))).
Proof.
  intros Hh.
  unfold Redis.invalidatePattern, Promise.try_catch, mbind, Promise.Eff_bind,
    Promise.bind.
  rewrite (ensure_open_healthy c Hh). unfold client_keys.
  rewrite (send_healthy _ _ c Hh). fold (matching now pattern (store c)).
  unfold invalidated.
  destruct (matching now pattern (store c)) as [|k keys] eqn:Hkeys.
  - cbn [length Nat.ltb Nat.leb foldr]. unfold mret, Promise.Eff_ret, Promise.ret.
    by rewrite with_store_same.
  - cbn [length Nat.ltb Nat.leb]. unfold client_del_keys.
    by rewrite (send_healthy _ _ c Hh).
Qed.

Lemma invalidated_read (now t : Z) (pattern : string)
    (values : gmap string (string * Z)) (k : string) :
  (now <= t)%Z ->
  read t (invalidated now pattern values) k
  = if glob_match pattern k then None else read t values k.
Proof.
  intros Ht. unfold read, invalidated. rewrite lookup_foldr_delete.
  case_bool_decide as Hin.
  - apply matching_elem in Hin as [-> _]. reflexivity.
  - destruct (glob_match pattern k) eqn:Hm; [|reflexivity].
    destruct (values !! k) as [entry|] eqn:Hk; [|reflexivity].
    destruct (alive t entry) eqn:Ht'; [|reflexivity].
    exfalso. apply Hin. apply matching_elem. split; [exact Hm|].
    exists entry. split; [exact Hk|]. unfold alive in *.
    apply Z.leb_le in Ht'. apply Z.leb_le. lia.
Qed.

Lemma send_store {A} (cmd : command) (reply : Client -> Js.outcome A * Client)
    (c : Client) (k : string) :
  store (snd (reply c)) !! k = store c !! k ->
  store (snd (send cmd reply c)) !! k = store c !! k.
Proof.
  intros Hreply. unfold send. destruct (fate_of c cmd); [|reflexivity..].
  by destruct (reply c) as [[?|?] ?].
Qed.

Lemma ensure_open_store (c : Client) : store (snd (ensure_open c)) = store c.
Proof.
  unfold ensure_open, client_connect.
  destruct (isOpen c); [reflexivity|]. by destruct (fate_of c CONNECT).
Qed.

(** X10: [invalidatePattern] never touches a key that does not match the
    pattern, whatever becomes of its commands; when they are all
    answered it returns, and no key that matches the pattern can be read
    from then on. *)
Theorem invalidatePattern_spec (now : Z) (pattern : string) (c : Client) :
  (forall k, glob_match pattern k = false ->
     store (snd (invalidatePattern now pattern c)) !! k = store c !! k) /\
  (healthy c ->
   fst (invalidatePattern now pattern c) = Promise.Fulfilled tt /\
   forall k t, glob_match pattern k = true -> (now <= t)%Z ->
     read t (store (snd (invalidatePattern now pattern c))) k = None).
Proof.
  split.
  - intros k Hk.
    unfold Redis.invalidatePattern, Promise.try_catch, mbind, Promise.Eff_bind,
      Promise.bind, mret, Promise.Eff_ret, Promise.ret.
    pose proof (ensure_open_store c) as Hopen.
    destruct (ensure_open c) as [[[]|e|] c1]; cbn [snd] in Hopen;
      [|cbv beta; cbn [snd]; by rewrite Hopen..].
    pose proof (send_store (KEYS pattern)
                  (fun c0 => (Js.Returned (matching now pattern (store c0)), c0))
                  c1 k eq_refl) as Hkeys.
    unfold client_keys. fold (matching now pattern).
    destruct (send (KEYS pattern) _ c1) as [[keys|e|] c2] eqn:Hsend;
      cbn [snd] in Hkeys; [|cbv beta; cbn [snd]; by rewrite Hkeys, Hopen..].
    assert (Hlisted : k ∉ keys).
    { unfold send in Hsend. destruct (fate_of c1 (KEYS pattern)); [|discriminate..].
      injection Hsend as <- _. intros [Hm _]%matching_elem. congruence. }
    destruct (0 <? length keys)%nat.
    + pose proof (send_store (DEL_keys keys)
                    (fun c0 => (Js.Returned tt,
                                mkClient (isOpen c0) (foldr delete (store c0) keys)
                                  (fate_of c0)))
                    c2 k) as Hdel.
      cbn [snd store] in Hdel. rewrite lookup_foldr_delete in Hdel.
      rewrite bool_decide_eq_false_2 in Hdel by done. specialize (Hdel eq_refl).
      unfold client_del_keys.
      destruct (send (DEL_keys keys) _ c2) as [[[]|e|] c3]; cbv beta;
        cbn [snd] in *; by rewrite Hdel, Hkeys, Hopen.
    + cbn [snd]. by rewrite Hkeys, Hopen.
  - intros Hh. rewrite (invalidatePattern_healthy now pattern c Hh).
    split; [reflexivity|]. intros k t Hk Ht. cbn [snd store with_store].
    by rewrite (invalidated_read now t pattern (store c) k Ht), Hk.
Qed.

End InvalidatePattern.

(** A matcher for patterns that end in a star. *)
Definition sample_glob (pattern key : string) : bool :=
  String.prefix
    (String.substring 0 (String.length pattern - 1) pattern) key.

Definition sample_client : Redis.Client :=
  in_reach {[ "data:summary:acct:90" := ("{}", 300000%Z);
              "data:summary:other:90" := ("{}", 300000%Z) ]}.

Lemma invalidatePattern_spec_witness :
  Redis.read 2000
    (Redis.store (snd (Redis.invalidatePattern sample_glob 1000
                         "data:summary:acct:*" sample_client)))
    "data:summary:acct:90" = None /\
  Redis.store (snd (Redis.invalidatePattern sample_glob 1000
                      "data:summary:acct:*" sample_client))
    !! "data:summary:other:90" = Some ("{}", 300000%Z).
Proof.
  destruct (invalidatePattern_spec sample_glob 1000 "data:summary:acct:*"
              sample_client) as (Hkeep & Hdrop).
  split.
  - apply (proj2 (Hdrop (in_reach_healthy _))); [reflexivity | lia].
  - rewrite Hkeep by reflexivity. reflexivity.
Defined.
(** ** routes/data.ts: the summary and its cache *)

Section SummaryFacts.
Import Redis DataRoutes.

Variable body : Type.
Variable JSON_parse : string -> Js.outcome body.
Variable JSON_stringify : body -> Js.outcome string.
Variable truthy : body -> bool.
Variable glob_match : string -> string -> bool.

Local Abbreviation summary :=
  (DataRoutes.summary body JSON_parse JSON_stringify truthy).
Local Abbreviation SummaryResponse := (DataRoutes.SummaryResponse body).
Local Abbreviation cached := (cached_at body JSON_parse).
Local Abbreviation stored := (written body JSON_stringify).

(** The answer computed from the database. *)
Definition from_database (fetch : string -> Z -> Js.outcome body)
    (account : string) (days : Z) : SummaryResponse :=
  match fetch account days with
  | Js.Returned data => SummaryData body data
  | Js.Threw e => SummaryNextError body e None
  end.

(** The client after the handler has answered from the database. *)
Definition after_fetch (fetch : string -> Z -> Js.outcome body)
    (account : string) (days later : Z) (c : Client) : Client :=
  match fetch account days with
  | Js.Returned data =>
      with_store c
        (stored later (summary_cacheKey account days) data (Some 300%Q) (store c))
  | Js.Threw _ => c
  end.

Lemma summary_healthy (fetch : string -> Z -> Js.outcome body)
    (account : string) (tier days_param : option string) (now later : Z)
    (c : Client) :
  account <> "" ->
  healthy c ->
  let days := summary_days tier days_param in
  let key := summary_cacheKey account days in
  summary fetch (Some account) tier days_param now later c
  = match cached now (store c) key with
    | Some hit =>
        if truthy hit then (Promise.Fulfilled (SummaryData body hit), c)
        else (Promise.Fulfilled (from_database fetch account days),
              after_fetch fetch account days later c)
    | None =>
        (Promise.Fulfilled (from_database fetch account days),
         after_fetch fetch account days later c)
    end.
Proof.
  intros Hne Hh. cbv zeta.
  unfold DataRoutes.summary, Routes.authenticated.
  destruct (String.eqb_spec account ""); [done|].
  unfold mbind, Promise.Eff_bind, Promise.bind.
  rewrite (getCached_healthy body JSON_parse now _ c Hh).
  assert (Hcomputed :
    store_and_respond body JSON_stringify later
      (summary_cacheKey account (summary_days tier days_param))
      (fetch account (summary_days tier days_param)) c
    = (Promise.Fulfilled (from_database fetch account (summary_days tier days_param)),
       after_fetch fetch account (summary_days tier days_param) later c)).
  { unfold store_and_respond, from_database, after_fetch.
    destruct (fetch account _) as [data|e]; [|reflexivity].
    unfold mbind, Promise.Eff_bind, Promise.bind.
    by rewrite (setCached_healthy body JSON_stringify later _ data _ c Hh). }
  destruct (cached now (store c) _) as [hit|]; [|exact Hcomputed].
  destruct (truthy hit); [reflexivity | exact Hcomputed].
Qed.

(** X11: a summary that was computed from the database, with data that
    survives JSON and is truthy, is cached for five minutes: the same
    request is answered with that data again up to 300 seconds after it
    was stored, whatever the database would return by then, and is
    computed from the database again after that. *)
Theorem summary_second_request_from_cache
    (fetch fetch' : string -> Z -> Js.outcome body)
    (account : string) (tier days_param : option string) (c : Client)
    (data : body) (text : string) (now later now' later' : Z) :
  account <> "" ->
  healthy c ->
  (forall hit,
     fst (getCached body JSON_parse now
            (summary_cacheKey account (summary_days tier days_param)) c)
     = Promise.Fulfilled (Some hit) ->
     truthy hit = false) ->
  fetch account (summary_days tier days_param) = Js.Returned data ->
  truthy data = true ->
  JSON_stringify data = Js.Returned text ->
  text <> "" ->
  JSON_parse text = Js.Returned data ->
  (0 <= later <= LLONG_MAX - 300000)%Z ->
  let first := summary fetch (Some account) tier days_param now later c in
  fst first = Promise.Fulfilled (SummaryData body data) /\
  ((now' <= later + 300000)%Z ->
   fst (summary fetch' (Some account) tier days_param now' later' (snd first))
   = Promise.Fulfilled (SummaryData body data)) /\
  ((later + 300000 < now')%Z ->
   fst (summary fetch' (Some account) tier days_param now' later' (snd first))
   = Promise.Fulfilled
       (from_database fetch' account (summary_days tier days_param))).
Proof.
  intros Hne Hh Hmiss Hfetch Ht Htext Hnonempty Hparse Hlater. cbv zeta.
  set (days := summary_days tier days_param) in *.
  set (key := summary_cacheKey account days) in *.
  rewrite (getCached_healthy body JSON_parse now key c Hh) in Hmiss.
  cbn [fst] in Hmiss.
  assert (Hfirst :
    summary fetch (Some account) tier days_param now later c
    = (Promise.Fulfilled (SummaryData body data),
       with_store c (<[key := (text, (later + 300000)%Z)]> (store c)))).
  { rewrite (summary_healthy fetch account tier days_param now later c Hne Hh).
    cbv zeta. fold days key. unfold from_database, after_fetch. fold key.
    rewrite Hfetch. unfold written. rewrite Htext.
    change (default 3600%Q (Some 300%Q)) with 300%Q.
    rewrite (expiry_whole later 300 300%Q ltac:(reflexivity)) by lia.
    change (later + 300 * 1000)%Z with (later + 300000)%Z.
    destruct (cached now (store c) key) as [hit|] eqn:Hc; [|reflexivity].
    by rewrite (Hmiss hit eq_refl). }
  rewrite Hfirst. cbn [fst snd].
  set (c' := with_store c _).
  assert (Hh' : healthy c') by (by apply with_store_healthy).
  split; [reflexivity|].
  split; intros Hnow';
    rewrite (summary_healthy fetch' account tier days_param now' later' c' Hne Hh');
    cbv zeta; fold days key; unfold cached_at; cbn [store c' with_store];
    unfold read; rewrite lookup_insert_eq; unfold alive; cbn [snd fst].
  - destruct (Z.leb_spec now' (later + 300000)); [|lia].
    unfold parsed. destruct (String.eqb_spec text ""); [done|].
    by rewrite Hparse, Ht.
  - destruct (Z.leb_spec now' (later + 300000)); [lia | reflexivity].
Qed.

Lemma on_redis_healthy (now : Z) (pattern : string) (t : Tables) (c : Client) :
  healthy c ->
  on_redis (Redis.invalidatePattern glob_match now pattern) (t, c)
  = (Promise.Fulfilled tt,
     (t, with_store c (invalidated glob_match now pattern (store c)))).
Proof.
  intros Hh. unfold on_redis.
  by rewrite (invalidatePattern_healthy glob_match now pattern c Hh).
Qed.

(** X12: after POST /data/map has answered 200 on a client whose
    commands are all answered, the next summary of that account is
    computed from the database, provided the Redis matcher lets the
    pattern 'data:summary:<account>:*' match the cache key of the
    request. *)
Theorem summary_recomputed_after_map
    (fetch : string -> Z -> Js.outcome body)
    (account : string) (tier days_param : option string)
    (mappings : list Mapping) (t t' : Tables) (c c' : Client)
    (message : string) (mapped_at now later : Z) :
  account <> "" ->
  healthy c ->
  glob_match ("data:summary:" ++ account ++ ":*")
    (summary_cacheKey account (summary_days tier days_param)) = true ->
  (mapped_at <= now)%Z ->
  map_channels glob_match mapped_at (Some account) (Some mappings) (t, c)
  = (Promise.Fulfilled (MapRespond 200 "success" message), (t', c')) ->
  fst (summary fetch (Some account) tier days_param now later c')
  = Promise.Fulfilled
      (from_database fetch account (summary_days tier days_param)).
Proof.
  intros Hne Hh Hglob Htime. unfold map_channels, Routes.authenticated.
  destruct (String.eqb_spec account ""); [done|].
  unfold Promise.try_catch, mbind, Promise.Eff_bind, Promise.bind.
  unfold on_tables at 1.
  destruct (save_mappings account mappings t) as [[[]|e] t1];
    [|cbn; discriminate].
  rewrite (on_redis_healthy mapped_at _ t1 c Hh).
  set (c1 := with_store c _).
  assert (Hh1 : healthy c1) by (by apply with_store_healthy).
  rewrite (on_redis_healthy mapped_at _ t1 c1 Hh1).
  set (c2 := with_store c1 _).
  assert (Hh2 : healthy c2) by (by apply with_store_healthy).
  cbn. intros [= _ _ <-].
  rewrite (summary_healthy fetch account tier days_param now later c2 Hne Hh2).
  cbv zeta. unfold cached_at.
  set (key := summary_cacheKey account (summary_days tier days_param)) in *.
  assert (Hgone : read now (store c2) key = None).
  { unfold c2. cbn [store with_store].
    rewrite (invalidated_read glob_match mapped_at now _ _ key Htime).
    destruct (glob_match ("data:timeseries:" ++ account ++ ":*") key);
      [reflexivity|].
    unfold c1. cbn [store with_store].
    by rewrite (invalidated_read glob_match mapped_at now _ _ key Htime), Hglob. }
  by rewrite Hgone.
Qed.

End SummaryFacts.

Definition sample_fetch (data : string) (account : string) (days : Z)
  : Js.outcome string :=
  Js.Returned data.

Lemma summary_second_request_from_cache_witness :
  fst (DataRoutes.summary string sample_JSON_parse sample_JSON_stringify
         sample_truthy (sample_fetch "changed") (Some "acct") (Some "free") None
         200000 200500
         (snd (DataRoutes.summary string sample_JSON_parse sample_JSON_stringify
                 sample_truthy (sample_fetch "first") (Some "acct") (Some "free")
                 None 1000 1500 (in_reach ∅))))
  = Promise.Fulfilled (DataRoutes.SummaryData string "first") /\
  fst (DataRoutes.summary string sample_JSON_parse sample_JSON_stringify
         sample_truthy (sample_fetch "changed") (Some "acct") (Some "free") None
         301501 302000
         (snd (DataRoutes.summary string sample_JSON_parse sample_JSON_stringify
                 sample_truthy (sample_fetch "first") (Some "acct") (Some "free")
                 None 1000 1500 (in_reach ∅))))
  = Promise.Fulfilled (DataRoutes.SummaryData string "changed").
Proof.
  destruct (summary_second_request_from_cache string sample_JSON_parse
              sample_JSON_stringify sample_truthy (sample_fetch "first")
              (sample_fetch "changed") "acct" (Some "free") None (in_reach ∅)
              "first" "first" 1000 1500 200000 200500
              ltac:(discriminate) (in_reach_healthy ∅)
              ltac:(intros hit; vm_compute; discriminate)
              eq_refl eq_refl eq_refl ltac:(discriminate) eq_refl
              ltac:(vm_compute; split; discriminate))
    as (_ & Hwithin & _).
  destruct (summary_second_request_from_cache string sample_JSON_parse
              sample_JSON_stringify sample_truthy (sample_fetch "first")
              (sample_fetch "changed") "acct" (Some "free") None (in_reach ∅)
              "first" "first" 1000 1500 301501 302000
              ltac:(discriminate) (in_reach_healthy ∅)
              ltac:(intros hit; vm_compute; discriminate)
              eq_refl eq_refl eq_refl ltac:(discriminate) eq_refl
              ltac:(vm_compute; split; discriminate))
    as (_ & _ & Hafter).
  split; [apply Hwithin | apply Hafter]; lia.
Defined.

Definition sample_tables : DataRoutes.Tables :=
  DataRoutes.mkTables {[ "acct" ]} [].

Definition sample_mappings : list DataRoutes.Mapping :=
  [DataRoutes.mkMapping (Some "meta") (Some "Facebook Ads")].

Lemma summary_recomputed_after_map_witness :
  fst (DataRoutes.summary string sample_JSON_parse sample_JSON_stringify
         sample_truthy (sample_fetch "fresh") (Some "acct") (Some "free") None
         2000 2500
         (snd (snd (DataRoutes.map_channels sample_glob 1000 (Some "acct")
                      (Some sample_mappings) (sample_tables, sample_client)))))
  = Promise.Fulfilled (DataRoutes.SummaryData string "fresh").
Proof.
  apply (summary_recomputed_after_map string sample_JSON_parse
           sample_JSON_stringify sample_truthy sample_glob (sample_fetch "fresh")
           "acct" (Some "free") None sample_mappings sample_tables
           (fst (snd (DataRoutes.map_channels sample_glob 1000 (Some "acct")
                        (Some sample_mappings) (sample_tables, sample_client))))
           sample_client
           (snd (snd (DataRoutes.map_channels sample_glob 1000 (Some "acct")
                        (Some sample_mappings) (sample_tables, sample_client))))
           "Channel mappings saved" 1000 2000 2500).
  - discriminate.
  - apply in_reach_healthy.
  - reflexivity.
  - lia.
  - vm_compute. reflexivity.
Defined.

(** ** routes/data.ts and utils/channelNormalization.ts: saved mappings *)

Section TrimFacts.
Import Js.

Lemma trimStart_no_leading_space (s : string) :
  starts_with_space (trimStart s) = false.
Proof.
  induction s as [|c s IH]; [reflexivity|]. simpl.
  destruct (is_white_space c) eqn:Hc; [exact IH | simpl; exact Hc].
Qed.

Lemma trimStart_fixed (s : string) :
  starts_with_space s = false -> trimStart s = s.
Proof. destruct s as [|c s]; [reflexivity|]. simpl. by intros ->. Qed.

Lemma trimEnd_cons (c : ascii) (s : string) :
  trimEnd (String c s) = EmptyString \/
  exists t, trimEnd (String c s) = String c t.
Proof.
  simpl. destruct (trimEnd s) as [|c' t].
  - destruct (is_white_space c); [by left | right; by eexists].
  - right. by eexists.
Qed.

Lemma trimEnd_no_leading_space (s : string) :
  starts_with_space s = false -> starts_with_space (trimEnd s) = false.
Proof.
  destruct s as [|c s]; [reflexivity|]. intros Hc.
  destruct (trimEnd_cons c s) as [->|[t ->]]; [reflexivity | exact Hc].
Qed.

Lemma trimEnd_idem (s : string) : trimEnd (trimEnd s) = trimEnd s.
Proof.
  induction s as [|c s IH]; [reflexivity|].
  change (trimEnd (String c s))
    with (match trimEnd s with
          | EmptyString =>
              if is_white_space c then EmptyString else String c EmptyString
          | t => String c t
          end).
  destruct (trimEnd s) as [|c' t] eqn:Ht.
  - destruct (is_white_space c) eqn:Hc; [reflexivity|]. simpl. by rewrite Hc.
  - change (trimEnd (String c (String c' t)))
      with (match trimEnd (String c' t) with
            | EmptyString =>
                if is_white_space c then EmptyString else String c EmptyString
            | t' => String c t'
            end).
    by rewrite IH.
Qed.

Lemma trim_idem (s : string) : trim (trim s) = trim s.
Proof.
  unfold trim.
  rewrite (trimStart_fixed (trimEnd (trimStart s)))
    by apply trimEnd_no_leading_space, trimStart_no_leading_space.
  apply trimEnd_idem.
Qed.

(** The key [normalizeChannel] looks up is trimmed and lower-case. *)
Lemma lookup_key_normal (x : string) :
  toLowerCase (trim (toLowerCase (trim x))) = toLowerCase (trim x).
Proof. by rewrite <- trim_toLowerCase, toLowerCase_idem, trim_toLowerCase, trim_idem. Qed.

End TrimFacts.

Section MappingFacts.
Import Js ChannelNormalization DataRoutes.

(** The name the account's own mapping gives to a key, if any. *)
Definition account_mapping (rows : list NormalizationRow)
    (accountId key : string) : option string :=
  match filter (fun r => nr_account_id r = accountId /\ raw_name r = key) rows with
  | r :: _ => Some (normalized_name r)
  | [] => None
  end.

Lemma normalizeChannel_account_mapping (rows : list NormalizationRow)
    (accountId raw : string) :
  normalizeChannel rows accountId raw
  = match account_mapping rows accountId (toLowerCase (trim raw)) with
    | Some n => Name n
    | None => normalizeChannel [] accountId raw
    end.
Proof.
  unfold normalizeChannel, account_mapping. cbv zeta.
  by destruct (filter _ rows).
Qed.


Lemma account_mapping_upsert_other (rows : list NormalizationRow)
    (fresh : NormalizationRow) (accountId key : string) :
  ~ (nr_account_id fresh = accountId /\ raw_name fresh = key) ->
  account_mapping (upsert_mapping fresh rows) accountId key
  = account_mapping rows accountId key.
Proof.
  intros Hother. unfold account_mapping.
  induction rows as [|r rows IH]; simpl.
  - rewrite filter_cons. by rewrite decide_False.
  - case_bool_decide as Hk.
    + rewrite !filter_cons. simpl.
      destruct Hk as [Ha Hr].
      destruct (decide (nr_account_id r = accountId /\ raw_name r = key))
        as [[H1 H2]|Hno]; [exfalso; apply Hother; split; congruence | reflexivity].
    + rewrite !filter_cons. destruct (decide _); [reflexivity | exact IH].
Qed.





(** X14: a mapping whose [raw_name] is not already trimmed and
    lower-case is never applied: saving it changes the result of
    [normalizeChannel] for no account and no raw name. *)
Theorem unnormalised_mapping_is_dead (rows : list NormalizationRow)
    (owner raw normalized accountId x : string) :
  toLowerCase (trim raw) <> raw ->
  normalizeChannel
    (upsert_mapping (mkNormalizationRow owner raw normalized) rows) accountId x
  = normalizeChannel rows accountId x.
Proof.
  intros Hraw.
  rewrite (normalizeChannel_account_mapping (upsert_mapping _ rows)).
  rewrite (normalizeChannel_account_mapping rows).
  rewrite account_mapping_upsert_other; [reflexivity|].
  simpl. intros [_ ->]. apply Hraw. apply lookup_key_normal.
Qed.

End MappingFacts.


Lemma unnormalised_mapping_is_dead_witness :
  ChannelNormalization.normalizeChannel
    (DataRoutes.upsert_mapping
       (ChannelNormalization.mkNormalizationRow "acct" "Meta" "Facebook Ads") [])
    "acct" "Meta"
  = ChannelNormalization.normalizeChannel [] "acct" "Meta".
Proof.
  apply unnormalised_mapping_is_dead. vm_compute. discriminate.
Defined.
(** ** middleware/cache.ts: what a cached answer means *)

Section CacheMiddlewareFacts.
Import Redis Cache.

Variable body : Type.
Variable JSON_parse : string -> Js.outcome body.
Variable JSON_stringify : body -> Js.outcome string.
Variable truthy : body -> bool.

Local Abbreviation getCached := (Redis.getCached body JSON_parse).
Local Abbreviation setCached := (Redis.setCached body JSON_stringify).
Local Abbreviation cacheMiddleware :=
  (Cache.cacheMiddleware body JSON_parse JSON_stringify truthy).
Local Abbreviation cached := (cached_at body JSON_parse).
Local Abbreviation stored := (written body JSON_stringify).

Definition ttl_of (options : CacheOptions) : Q := default 300%Q (ttl options).

(** The client after the handler's body has gone through the wrapped
    [res.json]. *)
Definition after_answer (handler : Request -> body) (options : CacheOptions)
    (req : Request) (later : Z) (c : Client) : Client :=
  with_store c
    (stored later (cacheKey_of options req) (handler req) (Some (ttl_of options))
       (store c)).

Lemma cacheMiddleware_healthy (handler : Request -> body)
    (options : CacheOptions) (req : Request) (now later : Z) (c : Client) :
  method req = "GET" ->
  healthy c ->
  cacheMiddleware handler options req now later c
  = match cached now (store c) (cacheKey_of options req) with
    | Some hit =>
        if truthy hit then (Promise.Fulfilled hit, c)
        else (Promise.Fulfilled (handler req),
              after_answer handler options req later c)
    | None =>
        (Promise.Fulfilled (handler req), after_answer handler options req later c)
    end.
Proof.
  intros Hget Hh. unfold Cache.cacheMiddleware. rewrite Hget, String.eqb_refl.
  cbn [negb].
  unfold Promise.try_catch, mbind, Promise.Eff_bind, Promise.bind.
  rewrite (getCached_healthy body JSON_parse now _ c Hh).
  assert (Hsend :
    send_and_store body JSON_stringify later (cacheKey_of options req)
      (default 300%Q (ttl options)) (handler req) c
    = (Promise.Fulfilled (handler req), after_answer handler options req later c)).
  { unfold send_and_store, mbind, Promise.Eff_bind, Promise.bind,
      Promise.detached.
    by rewrite (setCached_healthy body JSON_stringify later _ _ _ c Hh). }
  destruct (cached now (store c) _) as [hit|]; [|by rewrite Hsend].
  destruct (truthy hit); [reflexivity | by rewrite Hsend].
Qed.

(** X15: the middleware never invalidates, and a cached answer lasts for
    its time to live.  On a client whose commands are all answered, once
    a GET request has been answered by the handler with a truthy body
    that survives JSON, a request other than GET leaves the cache as it
    is; the same GET request is answered with that body again, whatever the
    handler would answer by then, up to the time to live (a whole number
    of seconds from 1 on, 300 by default) after the body was stored; and
    the handler answers again after that. *)
Theorem cacheMiddleware_repeated_get (handler handler' : Request -> body)
    (options : CacheOptions) (req other : Request) (c : Client) (text : string)
    (now later s : Z) :
  method req = "GET" ->
  method other <> "GET" ->
  healthy c ->
  (forall hit,
     fst (getCached now (cacheKey_of options req) c)
     = Promise.Fulfilled (Some hit) ->
     truthy hit = false) ->
  truthy (handler req) = true ->
  JSON_stringify (handler req) = Js.Returned text ->
  text <> "" ->
  JSON_parse text = Js.Returned (handler req) ->
  (ttl_of options == inject_Z s)%Q ->
  (1 <= s)%Z -> (0 <= later)%Z -> (s * 1000 <= LLONG_MAX - later)%Z ->
  let first := cacheMiddleware handler options req now later c in
  fst first = Promise.Fulfilled (handler req) /\
  (forall now' later',
     cacheMiddleware handler' options other now' later' (snd first)
     = (Promise.Fulfilled (handler' other), snd first)) /\
  (forall now' later', (now' <= later + s * 1000)%Z ->
     fst (cacheMiddleware handler' options req now' later' (snd first))
     = Promise.Fulfilled (handler req)) /\
  (forall now' later', (later + s * 1000 < now')%Z ->
     fst (cacheMiddleware handler' options req now' later' (snd first))
     = Promise.Fulfilled (handler' req)).
Proof.
  intros Hget Hother Hh Hmiss Htruthy Htext Hne Hparse Httl Hs Hlater Hfit.
  cbv zeta. set (key := cacheKey_of options req) in *.
  rewrite (getCached_healthy body JSON_parse now key c Hh) in Hmiss.
  cbn [fst] in Hmiss.
  assert (Hfirst :
    cacheMiddleware handler options req now later c
    = (Promise.Fulfilled (handler req),
       with_store c (<[key := (text, (later + s * 1000)%Z)]> (store c)))).
  { rewrite (cacheMiddleware_healthy handler options req now later c Hget Hh).
    fold key. unfold after_answer, written. fold key. rewrite Htext.
    change (default 3600%Q (Some (ttl_of options))) with (ttl_of options).
    rewrite (expiry_whole later s _ Httl Hlater Hs Hfit).
    destruct (cached now (store c) key) as [hit|]; [|reflexivity].
    by rewrite (Hmiss hit eq_refl). }
  rewrite Hfirst. cbn [fst snd].
  set (c1 := with_store c _).
  assert (Hh1 : healthy c1) by (by apply with_store_healthy).
  split; [reflexivity|]. split; [|split].
  - intros now' later'. unfold Cache.cacheMiddleware.
    destruct (String.eqb_spec (method other) "GET"); [done | reflexivity].
  - intros now' later' Hnow'.
    rewrite (cacheMiddleware_healthy handler' options req now' later' c1 Hget Hh1).
    fold key. unfold cached_at, read. cbn [store c1 with_store].
    rewrite lookup_insert_eq. unfold alive. cbn [snd fst].
    destruct (Z.leb_spec now' (later + s * 1000)); [|lia].
    unfold parsed. destruct (String.eqb_spec text ""); [done|].
    by rewrite Hparse, Htruthy.
  - intros now' later' Hnow'.
    rewrite (cacheMiddleware_healthy handler' options req now' later' c1 Hget Hh1).
    fold key. unfold cached_at, read. cbn [store c1 with_store].
    rewrite lookup_insert_eq. unfold alive. cbn [snd fst].
    destruct (Z.leb_spec now' (later + s * 1000)); [lia | reflexivity].
Qed.

Lemma append_injective (p a b : string) : p ++ a = p ++ b -> a = b.
Proof.
  induction p as [|ch p IH]; [done|].
  change (String ch (p ++ a) = String ch (p ++ b) -> a = b).
  intros [= H]. by apply IH.
Qed.

(** X16: with the default cache key, on a client whose commands are all
    answered, the answer to a GET request of one account is not changed
    by an earlier request to the same path and query of another account
    (an unauthenticated request counts as the account 'anonymous'). *)
Theorem cacheMiddleware_accounts_apart (handler handler' : Request -> body)
    (ttlSeconds : option Q) (mine theirs : Request) (c : Client)
    (now later now' later' : Z) :
  method mine = "GET" ->
  method theirs = "GET" ->
  path mine = path theirs ->
  query_json mine = query_json theirs ->
  account_or_anonymous mine <> account_or_anonymous theirs ->
  healthy c ->
  fst (cacheMiddleware handler (mkCacheOptions ttlSeconds None) mine now later
         (snd (cacheMiddleware handler' (mkCacheOptions ttlSeconds None) theirs
                 now' later' c)))
  = fst (cacheMiddleware handler (mkCacheOptions ttlSeconds None) mine now later c).
Proof.
  intros Hmine Htheirs Hpath Hquery Hacc Hh.
  set (options := mkCacheOptions ttlSeconds None).
  assert (Hkeys : cacheKey_of options mine <> cacheKey_of options theirs).
  { unfold cacheKey_of, options. cbn [keyGenerator]. rewrite Hpath, Hquery.
    intros H. apply Hacc.
    apply (append_injective ":"), (append_injective (query_json theirs)),
      (append_injective ":"), (append_injective (path theirs)),
      (append_injective "cache:"). exact H. }
  assert (Hread : forall c2,
    healthy c2 ->
    read now (store c2) (cacheKey_of options mine)
    = read now (store c) (cacheKey_of options mine) ->
    fst (cacheMiddleware handler options mine now later c2)
    = fst (cacheMiddleware handler options mine now later c)).
  { intros c2 Hh2 Hsame.
    rewrite (cacheMiddleware_healthy handler options mine now later c2 Hmine Hh2).
    rewrite (cacheMiddleware_healthy handler options mine now later c Hmine Hh).
    unfold cached_at. rewrite Hsame.
    destruct (parsed body JSON_parse _) as [v|]; [|reflexivity].
    by destruct (truthy v). }
  assert (Hafter :
    fst (cacheMiddleware handler options mine now later
           (after_answer handler' options theirs later' c))
    = fst (cacheMiddleware handler options mine now later c)).
  { apply Hread; [by apply with_store_healthy|].
    unfold after_answer. cbn [store with_store].
    by apply (written_other body JSON_stringify). }
  rewrite (cacheMiddleware_healthy handler' options theirs now' later' c Htheirs Hh).
  destruct (cached now' (store c) (cacheKey_of options theirs)) as [hit|];
    [|exact Hafter].
  destruct (truthy hit); [reflexivity | exact Hafter].
Qed.

(** What the [try] of the service does when no command waits. *)
Lemma ensure_open_settles (c : Client) :
  settles c ->
  (exists c1, ensure_open c = (Promise.Fulfilled tt, c1) /\
              fate_of c1 = fate_of c /\ store c1 = store c) \/
  (exists e, ensure_open c = (Promise.Rejected e, c)).
Proof.
  intros Hs. unfold ensure_open, client_connect.
  destruct (isOpen c); [left; by exists c|].
  destruct (fate_of c CONNECT) eqn:Hf; [left; by eexists | right; by eexists|].
  by destruct (Hs CONNECT).
Qed.

Lemma send_settles {A} (cmd : command) (reply : Client -> Js.outcome A * Client)
    (c : Client) :
  settles c ->
  (exists a c', send cmd reply c = (Promise.Fulfilled a, c')) \/
  (exists e c', send cmd reply c = (Promise.Rejected e, c')).
Proof.
  intros Hs. unfold send. destruct (fate_of c cmd) eqn:Hf.
  - destruct (reply c) as [[a|e] c']; [left | right]; by eexists _, _.
  - right. by eexists _, _.
  - by destruct (Hs cmd).
Qed.

Lemma getCached_settles (now : Z) (key : string) (c : Client) :
  settles c -> exists v c', getCached now key c = (Promise.Fulfilled v, c').
Proof.
  intros Hs.
  unfold Redis.getCached, Promise.try_catch, mbind, Promise.Eff_bind,
    Promise.bind, mret, Promise.Eff_ret, Promise.ret.
  destruct (ensure_open_settles c Hs) as [(c1 & -> & Hf & _)|[e ->]];
    [|by eexists _, _].
  assert (Hs1 : settles c1) by (intros cmd; rewrite Hf; apply Hs).
  unfold client_get.
  destruct (send_settles (GET key)
              (fun c0 => (Js.Returned (read now (store c0) key), c0)) c1 Hs1)
    as [(value & c2 & ->)|(e & c2 & ->)]; [|by eexists _, _].
  destruct value as [text|]; [|by eexists _, _].
  destruct (negb (String.eqb text "")); [|by eexists _, _].
  unfold Promise.settle. destruct (JSON_parse text); by eexists _, _.
Qed.

Lemma getCached_rejected (now : Z) (key : string) (c : Client) :
  isOpen c = true -> fate_of c (GET key) = Rejects ->
  getCached now key c = (Promise.Fulfilled None, c).
Proof.
  intros Ho Hr.
  unfold Redis.getCached, Promise.try_catch, mbind, Promise.Eff_bind,
    Promise.bind, ensure_open, client_get, send.
  by rewrite Ho, Hr.
Qed.

Lemma setCached_settles (now : Z) (key : string) (value : body)
    (ttlSeconds : option Q) (c : Client) :
  settles c -> exists c', setCached now key value ttlSeconds c
                          = (Promise.Fulfilled tt, c').
Proof.
  intros Hs.
  unfold Redis.setCached, Promise.try_catch, mbind, Promise.Eff_bind,
    Promise.bind, mret, Promise.Eff_ret, Promise.ret.
  destruct (ensure_open_settles c Hs) as [(c1 & -> & Hf & _)|[e ->]];
    [|by eexists].
  assert (Hs1 : settles c1) by (intros cmd; rewrite Hf; apply Hs).
  unfold Promise.settle. destruct (JSON_stringify value) as [text|e];
    [|by eexists].
  unfold client_setEx.
  destruct (send_settles (SETEX key)
              (fun c0 =>
                 match expiry now (default 3600%Q ttlSeconds) with
                 | Some until =>
                     (Js.Returned tt,
                      mkClient (isOpen c0) (<[key := (text, until)]> (store c0))
                        (fate_of c0))
                 | None =>
                     (Js.Threw "ERR invalid expire time in 'setex' command", c0)
                 end) c1 Hs1)
    as [([] & c2 & ->)|(e & c2 & ->)]; by eexists.
Qed.

(** X31: while no command waits in the queue, the cache never fails a
    request.  [getCached] returns, and returns [null] when the GET is
    rejected; [setCached] returns whatever becomes of the write; and the
    middleware answers every request, with the body of the handler when
    the read of the cache is rejected. *)
Theorem cache_best_effort_when_commands_settle (handler : Request -> body)
    (options : CacheOptions) (req : Request) (now later : Z) (key : string)
    (value : body) (ttlSeconds : option Q) (c : Client) :
  settles c ->
  (exists v c', getCached now key c = (Promise.Fulfilled v, c')) /\
  (isOpen c = true -> fate_of c (GET key) = Rejects ->
   fst (getCached now key c) = Promise.Fulfilled None) /\
  (exists c', setCached now key value ttlSeconds c = (Promise.Fulfilled tt, c')) /\
  (exists sent c',
     cacheMiddleware handler options req now later c
     = (Promise.Fulfilled sent, c')) /\
  (isOpen c = true -> fate_of c (GET (cacheKey_of options req)) = Rejects ->
   fst (cacheMiddleware handler options req now later c)
   = Promise.Fulfilled (handler req)).
Proof.
  intros Hs. split; [by apply getCached_settles|].
  split; [intros Ho Hr; by rewrite getCached_rejected|].
  split; [by apply setCached_settles|].
  assert (Hsend : forall c1,
    send_and_store body JSON_stringify later (cacheKey_of options req)
      (default 300%Q (ttl options)) (handler req) c1
    = (Promise.Fulfilled (handler req),
       snd (setCached later (cacheKey_of options req) (handler req)
              (Some (default 300%Q (ttl options))) c1))).
  { intros c1. reflexivity. }
  split.
  - unfold Cache.cacheMiddleware.
    destruct (negb _); [by eexists _, _|].
    unfold Promise.try_catch, mbind, Promise.Eff_bind, Promise.bind.
    destruct (getCached_settles now (cacheKey_of options req) c Hs)
      as (v & c1 & ->).
    destruct v as [hit|]; [|rewrite Hsend; by eexists _, _].
    destruct (truthy hit); [by eexists _, _|]. rewrite Hsend. by eexists _, _.
  - intros Ho Hr. unfold Cache.cacheMiddleware.
    destruct (negb _); [reflexivity|].
    unfold Promise.try_catch, mbind, Promise.Eff_bind, Promise.bind.
    rewrite (getCached_rejected now _ c Ho Hr). by rewrite Hsend.
Qed.

End CacheMiddlewareFacts.

(** A server that rejects every command. *)
Definition rejecting : Redis.Client :=
  Redis.mkClient true ∅ (fun _ => Redis.Rejects).

Lemma cacheMiddleware_repeated_get_witness :
  fst (Cache.cacheMiddleware string sample_JSON_parse sample_JSON_stringify
         sample_truthy (fun _ => "changed") (Cache.mkCacheOptions None None)
         (Cache.mkRequest "GET" "/summary" "{}" (Some "acct")) 200000 200500
         (snd (Cache.cacheMiddleware string sample_JSON_parse sample_JSON_stringify
                 sample_truthy sample_handler (Cache.mkCacheOptions None None)
                 (Cache.mkRequest "GET" "/summary" "{}" (Some "acct")) 1000 1500
                 (in_reach ∅))))
  = Promise.Fulfilled "summary of /summary" /\
  fst (Cache.cacheMiddleware string sample_JSON_parse sample_JSON_stringify
         sample_truthy (fun _ => "changed") (Cache.mkCacheOptions None None)
         (Cache.mkRequest "GET" "/summary" "{}" (Some "acct")) 301501 302000
         (snd (Cache.cacheMiddleware string sample_JSON_parse sample_JSON_stringify
                 sample_truthy sample_handler (Cache.mkCacheOptions None None)
                 (Cache.mkRequest "GET" "/summary" "{}" (Some "acct")) 1000 1500
                 (in_reach ∅))))
  = Promise.Fulfilled "changed".
Proof.
  destruct (cacheMiddleware_repeated_get string sample_JSON_parse
              sample_JSON_stringify sample_truthy sample_handler
              (fun _ => "changed") (Cache.mkCacheOptions None None)
              (Cache.mkRequest "GET" "/summary" "{}" (Some "acct"))
              (Cache.mkRequest "POST" "/map" "{}" (Some "acct"))
              (in_reach ∅) "summary of /summary" 1000 1500 300
              eq_refl ltac:(discriminate) (in_reach_healthy ∅)
              ltac:(intros hit; vm_compute; discriminate)
              eq_refl eq_refl ltac:(discriminate) eq_refl
              ltac:(reflexivity) ltac:(lia) ltac:(lia)
              ltac:(vm_compute; discriminate))
    as (_ & _ & Hwithin & Hafter).
  split; [apply Hwithin | apply Hafter]; lia.
Defined.

Lemma cacheMiddleware_accounts_apart_witness :
  fst (Cache.cacheMiddleware string sample_JSON_parse sample_JSON_stringify
         sample_truthy sample_handler (Cache.mkCacheOptions None None)
         (Cache.mkRequest "GET" "/summary" "{}" (Some "mine")) 2000 2500
         (snd (Cache.cacheMiddleware string sample_JSON_parse sample_JSON_stringify
                 sample_truthy (fun _ => "theirs") (Cache.mkCacheOptions None None)
                 (Cache.mkRequest "GET" "/summary" "{}" (Some "theirs"))
                 1000 1500 (in_reach ∅))))
  = fst (Cache.cacheMiddleware string sample_JSON_parse sample_JSON_stringify
           sample_truthy sample_handler (Cache.mkCacheOptions None None)
           (Cache.mkRequest "GET" "/summary" "{}" (Some "mine")) 2000 2500
           (in_reach ∅)).
Proof.
  refine (cacheMiddleware_accounts_apart string sample_JSON_parse
            sample_JSON_stringify sample_truthy sample_handler
            (fun _ => "theirs") None
            (Cache.mkRequest "GET" "/summary" "{}" (Some "mine"))
            (Cache.mkRequest "GET" "/summary" "{}" (Some "theirs"))
            (in_reach ∅) 2000 2500 1000 1500 _ _ _ _ _ _).
  - reflexivity.
  - reflexivity.
  - reflexivity.
  - reflexivity.
  - discriminate.
  - apply in_reach_healthy.
Defined.

Lemma cache_best_effort_when_commands_settle_witness :
  fst (Cache.cacheMiddleware string sample_JSON_parse sample_JSON_stringify
         sample_truthy sample_handler (Cache.mkCacheOptions None None)
         (Cache.mkRequest "GET" "/summary" "{}" (Some "acct")) 1000 1500
         rejecting)
  = Promise.Fulfilled "summary of /summary".
Proof.
  destruct (cache_best_effort_when_commands_settle string sample_JSON_parse
              sample_JSON_stringify sample_truthy sample_handler
              (Cache.mkCacheOptions None None)
              (Cache.mkRequest "GET" "/summary" "{}" (Some "acct")) 1000 1500
              "k" "v" None rejecting ltac:(intros cmd; discriminate))
    as (_ & _ & _ & _ & Hrejected).
  by apply Hrejected.
Defined.

(** ** models/MarketingMetrics.ts: what bulkInsert leaves alone and what
    it stores *)

Section BulkInsertMore.
Import MarketingMetrics.

Variable pg_date : string -> option Z.
Variable now : Z.

Local Abbreviation INSERT := (query_INSERT pg_date now).

Lemma query_INSERT_other_account (accountId : string) (m : MetricInput)
    (c : Client) (i : nat) (r : MarketingMetric) :
  table c !! i = Some r -> account_id r <> accountId ->
  table (snd (INSERT accountId m c)) !! i = Some r.
Proof.
  intros Hi Hacc.
  destruct (query_INSERT_cases pg_date now accountId m c)
    as [[e ->]|(fresh & _ & _ & Hkey & ->)]; [exact Hi|].
  cbn [snd table]. apply upsert_other_key; [exact Hi|].
  rewrite Hkey. unfold key_of. congruence.
Qed.

Lemma for_each_other_account (accountId : string) (metrics : list MetricInput)
    (c : Client) (i : nat) (r : MarketingMetric) :
  table c !! i = Some r -> account_id r <> accountId ->
  table (snd (Js.for_each metrics (INSERT accountId) c)) !! i = Some r.
Proof.
  revert c. induction metrics as [|m metrics IH]; intros c Hi Hacc; [exact Hi|].
  rewrite for_each_cons.
  pose proof (query_INSERT_other_account accountId m c i r Hi Hacc) as Hstep.
  destruct (INSERT accountId m c) as [[[]|e] c1]; [by apply IH | exact Hstep].
Qed.

(** X17: [bulkInsert] for one account never changes a record of another
    account: whether it commits or rolls back, every such record is
    afterwards where it was, as it was. *)
Theorem bulkInsert_other_accounts_untouched (uuid_seed : nat)
    (accountId : string) (metrics : list MetricInput) (db : Db)
    (i : nat) (r : MarketingMetric) :
  marketing_daily_metrics db !! i = Some r ->
  account_id r <> accountId ->
  marketing_daily_metrics
    (snd (bulkInsert pg_date now uuid_seed accountId metrics db)) !! i
  = Some r.
Proof.
  intros Hi Hacc. rewrite bulkInsert_unfold.
  set (begun := mkClient _ _ _ _).
  pose proof (for_each_other_account accountId metrics begun i r Hi Hacc) as Hkeep.
  destruct (for_each_INSERT_keeps pg_date now accountId metrics begun) as (Hs & _).
  destruct (Js.for_each metrics (INSERT accountId) begun) as [[[]|e] c'];
    cbn [snd marketing_daily_metrics] in *; [exact Hkeep|].
  unfold persisted. by rewrite Hs.
Qed.

Lemma query_INSERT_outcome (accountId : string) (m : MetricInput) (c c' : Client) :
  (accountId ∈ known_accounts c <-> accountId ∈ known_accounts c') ->
  fst (INSERT accountId m c) = fst (INSERT accountId m c').
Proof.
  intros Hacc. unfold query_INSERT.
  destruct (column_values pg_date m) as [v|e]; [|reflexivity].
  destruct (negb (checks v)); [reflexivity|].
  rewrite (bool_decide_ext _ _ Hacc). by destruct (negb _).
Qed.

Lemma for_each_outcome (accountId : string) (metrics : list MetricInput)
    (c c' : Client) :
  (accountId ∈ known_accounts c <-> accountId ∈ known_accounts c') ->
  fst (Js.for_each metrics (INSERT accountId) c)
  = fst (Js.for_each metrics (INSERT accountId) c').
Proof.
  revert c c'. induction metrics as [|m metrics IH]; intros c c' Hacc;
    [reflexivity|].
  rewrite !for_each_cons.
  pose proof (query_INSERT_outcome accountId m c c' Hacc) as Hout.
  destruct (query_INSERT_keeps pg_date now accountId m c) as (_ & Ha & _).
  destruct (query_INSERT_keeps pg_date now accountId m c') as (_ & Ha' & _).
  destruct (INSERT accountId m c) as [[[]|e] c1],
           (INSERT accountId m c') as [[[]|e'] c1'];
    cbn [fst snd] in *; try discriminate; [|exact Hout].
  apply IH. by rewrite Ha, Ha'.
Qed.

(** X18: whether [bulkInsert] returns or throws, and what it throws,
    depends on the rows and on whether the account exists, not on the
    records the table holds: a key that is already stored is never an
    error. *)
Theorem bulkInsert_outcome_ignores_table (uuid_seed uuid_seed' : nat)
    (accountId : string) (metrics : list MetricInput) (db db' : Db) :
  (accountId ∈ accounts db <-> accountId ∈ accounts db') ->
  fst (bulkInsert pg_date now uuid_seed accountId metrics db)
  = fst (bulkInsert pg_date now uuid_seed' accountId metrics db').
Proof.
  intros Hacc. rewrite !bulkInsert_unfold.
  set (begun := mkClient (accounts db) _ _ _).
  set (begun' := mkClient (accounts db') _ _ _).
  pose proof (for_each_outcome accountId metrics begun begun' Hacc) as Hout.
  destruct (Js.for_each metrics (INSERT accountId) begun) as [[[]|e] c1],
           (Js.for_each metrics (INSERT accountId) begun') as [[[]|e'] c1'];
    cbn [fst] in *; congruence.
Qed.

(** X19: the last row wins.  After a [bulkInsert] that returned, the
    record under the key of an input row that no later row of the call
    shares holds the values of that row as the columns store them: spend
    and revenue rounded to two decimals, the counts as integers, zero
    revenue and zero counts as NULL, and the time of the call. *)
Theorem bulkInsert_last_row_wins (uuid_seed : nat) (accountId : string)
    (before after : list MetricInput) (m : MetricInput) (d : Z) (db db' : Db) :
  pg_date (date m) = Some d ->
  (forall m', m' ∈ after ->
     ~ (pg_date (date m') = Some d /\ channel m' = channel m)) ->
  bulkInsert pg_date now uuid_seed accountId (before ++ m :: after) db
  = (Js.Returned tt, db') ->
  exists r,
    r ∈ marketing_daily_metrics db' /\
    key_of r = (accountId, d, channel m) /\
    to_numeric_12_2 (spend m) = Js.Returned (m_spend r) /\
    to_numeric_12_2_or_null (or_null (revenue m)) = Js.Returned (m_revenue r) /\
    to_integer (or_null (impressions m)) = Js.Returned (m_impressions r) /\
    to_integer (or_null (clicks m)) = Js.Returned (m_clicks r) /\
    to_integer (or_null (conversions m)) = Js.Returned (m_conversions r) /\
    to_integer (or_null (new_customers m)) = Js.Returned (m_new_customers r) /\
    to_integer (or_null (returning_customers m))
    = Js.Returned (m_returning_customers r) /\
    updated_at r = now.
Proof.
  intros Hd Hafter. rewrite bulkInsert_unfold.
  destruct (Js.for_each _ _ _) as [[[]|e] c'] eqn:Hloop; [|discriminate].
  intros [= <-]. cbn [marketing_daily_metrics].
  destruct (for_each_last_row pg_date now accountId before after m d _ c'
              Hd Hafter Hloop) as (j & r & Hj & Hkey & Hholds).
  exists r. split; [by apply (list_elem_of_lookup_2 _ j)|].
  split; [exact Hkey | exact Hholds].
Qed.

End BulkInsertMore.

Lemma bulkInsert_other_accounts_untouched_witness :
  MarketingMetrics.marketing_daily_metrics
    (snd (MarketingMetrics.bulkInsert sample_pg_date 20 1 "other"
            [sample_metric "19000" "Google Ads" 7%Q] sample_db)) !! 0%nat
  = Some (MarketingMetrics.mkMarketingMetric 0 "acct" 19000 "Google Ads" 5%Q
            None None None None None None 10 10).
Proof.
  apply bulkInsert_other_accounts_untouched; [reflexivity | discriminate].
Defined.

Lemma bulkInsert_outcome_ignores_table_witness :
  fst (MarketingMetrics.bulkInsert sample_pg_date 20 1 "acct"
         [sample_metric "19000" "Google Ads" 7%Q] sample_db)
  = fst (MarketingMetrics.bulkInsert sample_pg_date 20 5 "acct"
           [sample_metric "19000" "Google Ads" 7%Q]
           (MarketingMetrics.mkDb {[ "acct" ]} [])).
Proof.
  apply bulkInsert_outcome_ignores_table. split; intros _; set_solver.
Defined.

Lemma bulkInsert_last_row_wins_witness :
  exists r,
    r ∈ MarketingMetrics.marketing_daily_metrics
          (snd (MarketingMetrics.bulkInsert sample_pg_date 20 1 "acct"
                  sample_rows sample_db)) /\
    MarketingMetrics.key_of r = ("acct", 19000%Z, "Google Ads") /\
    MarketingMetrics.m_spend r = (101 # 100)%Q.
Proof.
  destruct (bulkInsert_last_row_wins sample_pg_date 20 1 "acct"
              [sample_metric "19000" "Google Ads" 7%Q;
               sample_metric "19001" "Google Ads" 8%Q] []
              (sample_metric "19000" "Google Ads" (1005 # 1000)%Q) 19000
              sample_db
              (snd (MarketingMetrics.bulkInsert sample_pg_date 20 1 "acct"
                      sample_rows sample_db)))
    as (r & Hr & Hkey & Hspend & _).
  - reflexivity.
  - intros m' Hm'. by apply elem_of_nil in Hm'.
  - vm_compute. reflexivity.
  - exists r. split; [exact Hr|]. split; [exact Hkey|].
    change (Js.Returned (101 # 100)%Q
            = Js.Returned (MarketingMetrics.m_spend r)) in Hspend.
    by injection Hspend as <-.
Defined.
(** ** routes/uploads.ts: what an upload leaves behind *)

Section InvalidationFacts.
Import Redis.

Variable glob_match : string -> string -> bool.

Lemma send_fate {A} (cmd : command) (reply : Client -> Js.outcome A * Client)
    (c : Client) :
  fate_of (snd (reply c)) = fate_of c ->
  fate_of (snd (send cmd reply c)) = fate_of c.
Proof.
  intros Hreply. unfold send. destruct (fate_of c cmd); [|reflexivity..].
  by destruct (reply c) as [[?|?] ?].
Qed.

Lemma send_pending {A} (cmd : command) (reply : Client -> Js.outcome A * Client)
    (c : Client) :
  fst (send cmd reply c) = Promise.Pending -> fate_of c cmd = Queued.
Proof.
  unfold send. destruct (fate_of c cmd); [|discriminate|reflexivity].
  by destruct (reply c) as [[?|?] ?].
Qed.

Lemma ensure_open_fate (c : Client) : fate_of (snd (ensure_open c)) = fate_of c.
Proof.
  unfold ensure_open, client_connect.
  destruct (isOpen c); [reflexivity|]. by destruct (fate_of c CONNECT).
Qed.

Lemma ensure_open_pending (c : Client) :
  fst (ensure_open c) = Promise.Pending -> fate_of c CONNECT = Queued.
Proof.
  unfold ensure_open, client_connect.
  destruct (isOpen c); [discriminate|]. by destruct (fate_of c CONNECT).
Qed.

(** [invalidatePattern] is never rejected, leaves what becomes of the
    commands as it is, and stays pending only with a command in the
    queue. *)
Lemma invalidatePattern_outcomes (now : Z) (pattern : string) (c : Client) :
  let '(r, c') := Redis.invalidatePattern glob_match now pattern c in
  fate_of c' = fate_of c /\
  match r with
  | Promise.Fulfilled _ => True
  | Promise.Rejected _ => False
  | Promise.Pending => exists cmd, fate_of c cmd = Queued
  end.
Proof.
  unfold Redis.invalidatePattern, Promise.try_catch, mbind, Promise.Eff_bind,
    Promise.bind, mret, Promise.Eff_ret, Promise.ret.
  pose proof (ensure_open_fate c) as Hf0.
  pose proof (ensure_open_pending c) as Hp0.
  destruct (ensure_open c) as [[[]|e|] c1]; cbn [fst snd] in *;
    [|by split|split; [done|]; eexists; by apply Hp0].
  unfold client_keys.
  set (listing := fun c0 : Client => _).
  pose proof (send_fate (KEYS pattern) listing c1 eq_refl) as Hf1.
  pose proof (send_pending (KEYS pattern) listing c1) as Hp1.
  destruct (send (KEYS pattern) listing c1) as [[keys|e|] c2]; cbn [fst snd] in *;
    [|split; [congruence | done]
     |split; [congruence|]; eexists; rewrite <- Hf0; by apply Hp1].
  destruct (0 <? length keys)%nat; [|split; [congruence | done]].
  unfold client_del_keys.
  set (deleting := fun c0 : Client => _).
  pose proof (send_fate (DEL_keys keys) deleting c2 eq_refl) as Hf2.
  pose proof (send_pending (DEL_keys keys) deleting c2) as Hp2.
  destruct (send (DEL_keys keys) deleting c2) as [[[]|e|] c3]; cbn [fst snd] in *;
    [split; [congruence | done] | split; [congruence | done] |].
  split; [congruence|]. eexists. rewrite <- Hf0, <- Hf1. by apply Hp2.
Qed.

End InvalidationFacts.

Section UploadRouteFacts.
Import UploadRoute.

Variable record : Type.
Variable csvRowSchema_parse :
  record -> list Uploads.ZodIssue + MarketingMetrics.MetricInput.
Variable Date_parse : string -> option Z.
Variable channel_normalization : list ChannelNormalization.NormalizationRow.
Variable clock : nat -> Z * Z.
Variable csv_parse : string -> Js.outcome (list record).
Variable pg_date : string -> option Z.
Variable now : Z.
Variable Date_now : Z.
Variable s3_error : string -> option string.
Variable prototype_text : string -> string.
Variable glob_match : string -> string -> bool.
Variable fault : statement -> option string.
Variable redis_now : Z.

Local Abbreviation upload_csv :=
  (UploadRoute.upload_csv record csvRowSchema_parse Date_parse
     channel_normalization clock csv_parse pg_date now Date_now s3_error
     prototype_text glob_match fault redis_now).
Local Abbreviation store_upload :=
  (UploadRoute.store_upload pg_date now Date_now s3_error prototype_text
     glob_match fault redis_now).

Lemma bulkInsert_throw_unchanged (uuid_seed : nat) (accountId : string)
    (metrics : list MarketingMetrics.MetricInput) (d d' : MarketingMetrics.Db)
    (e : string) :
  MarketingMetrics.bulkInsert pg_date now uuid_seed accountId metrics d
  = (Js.Threw e, d') ->
  d' = d.
Proof.
  rewrite bulkInsert_unfold.
  set (begun := MarketingMetrics.mkClient _ _ _ _).
  destruct (for_each_INSERT_keeps pg_date now accountId metrics begun)
    as (Hs & Ha & _).
  destruct (Js.for_each _ _ _) as [[[]|e'] c']; [discriminate|].
  cbn [snd] in *. intros [= _ <-]. unfold MarketingMetrics.persisted.
  rewrite Hs, Ha. by destruct d.
Qed.

(** The line feeds of a text. *)
Fixpoint line_feeds (text : string) : nat :=
  match text with
  | EmptyString => 0
  | String c text' =>
      ((if Ascii.eqb c "010"%char then 1 else 0) + line_feeds text')%nat
  end.

Lemma split_lines_length (text : string) :
  length (split_lines text) = S (line_feeds text).
Proof.
  induction text as [|c text IH]; [reflexivity|]. cbn [split_lines line_feeds].
  destruct (Ascii.eqb c "010"%char); cbn [length]; [by rewrite IH|].
  destruct (split_lines text); [discriminate IH | exact IH].
Qed.

Lemma rowCount_line_feeds (text : string) : rowCount text = line_feeds text.
Proof. unfold rowCount. rewrite split_lines_length. lia. Qed.

(** A file of lines, each ended by a line feed. *)
Fixpoint terminated_lines (lines : list string) : string :=
  match lines with
  | [] => EmptyString
  | line :: lines' => line ++ String "010"%char (terminated_lines lines')
  end.

Lemma line_feeds_app (a b : string) :
  line_feeds (a ++ b) = (line_feeds a + line_feeds b)%nat.
Proof.
  induction a as [|c a IH]; [reflexivity|].
  change (line_feeds (String c (a ++ b))
          = (line_feeds (String c a) + line_feeds b)%nat).
  cbn [line_feeds]. rewrite IH. lia.
Qed.

Lemma line_feeds_terminated (lines : list string) :
  Forall (fun line => line_feeds line = 0%nat) lines ->
  line_feeds (terminated_lines lines) = length lines.
Proof.
  induction 1 as [|line lines Hline _ IH]; [reflexivity|].
  cbn [terminated_lines length]. rewrite line_feeds_app, Hline.
  cbn [line_feeds]. change (Ascii.eqb "010"%char "010"%char) with true.
  rewrite IH. lia.
Qed.

(** Unfolding one statement of the handler. *)
Ltac unfold_handler :=
  unfold UploadRoute.store_upload, UploadRoute.putObject,
    UploadRoute.query_INSERT_upload, UploadRoute.query_UPDATE,
    UploadRoute.bulkInsert, UploadRoute.invalidatePattern, UploadRoute.throw,
    Promise.try_catch, mbind, Promise.Eff_bind, Promise.bind, mret,
    Promise.Eff_ret, Promise.ret.

(** What the handler does once the rows are validated, case by case.
    [committed] says that the metrics of the result are those a
    [bulkInsert] that returned has left. *)
Definition committed (uuid_seed : nat) (account : string)
    (metrics : list Uploads.Metric) (w w' : World) : Prop :=
  MarketingMetrics.bulkInsert pg_date now (S uuid_seed) account
    (map (to_input prototype_text) metrics) (db w)
  = (Js.Returned tt, db w').

Definition processing (uuid_seed : nat) (f : File) (account : string)
    (metrics : list Uploads.Metric) : Upload :=
  mkUpload uuid_seed account (s3Key_of Date_now account f) (originalname f)
    (length metrics) "processing" None.


(** The outcomes of [store_upload] behind the [catch] of the handler. *)
Inductive ending (uuid_seed : nat) (f : File) (account : string)
    (metrics : list Uploads.Metric) (errors : list string) (w : World)
  : Promise.settled Response -> World -> Prop :=
| put_failed e :
    s3_error (s3Key_of Date_now account f) = Some e ->
    ending uuid_seed f account metrics errors w
      (Promise.Fulfilled (NextError e None)) w
| insert_failed e w' :
    db w' = db w -> csv_uploads w' = csv_uploads w ->
    ending uuid_seed f account metrics errors w
      (Promise.Fulfilled (NextError e None)) w'
| marked_failed e w' :
    fault UpdateFailed = None ->
    (db w' = db w \/
     (fault UpdateCompleted = Some e /\ committed uuid_seed account metrics w w')) ->
    csv_uploads w'
    = map (set_status uuid_seed "failed" (Some e))
        (csv_uploads w ++ [processing uuid_seed f account metrics]) ->
    ending uuid_seed f account metrics errors w
      (Promise.Fulfilled (NextError e None)) w'
| left_processing e e' w' :
    fault UpdateFailed = Some e' ->
    (db w' = db w \/
     (fault UpdateCompleted = Some e /\ committed uuid_seed account metrics w w')) ->
    csv_uploads w'
    = (csv_uploads w ++ [processing uuid_seed f account metrics])%list ->
    ending uuid_seed f account metrics errors w
      (Promise.Fulfilled (NextError e' None)) w'
| answered w' :
    committed uuid_seed account metrics w w' ->
    csv_uploads w'
    = map (set_status uuid_seed "completed" None)
        (csv_uploads w ++ [processing uuid_seed f account metrics]) ->
    ending uuid_seed f account metrics errors w
      (Promise.Fulfilled
         (Stored uuid_seed (length metrics)
            (match errors with [] => None | _ => Some errors end))) w'
| never_answered w' :
    (exists cmd, Redis.fate_of (redis w) cmd = Redis.Queued) ->
    committed uuid_seed account metrics w w' ->
    csv_uploads w'
    = map (set_status uuid_seed "completed" None)
        (csv_uploads w ++ [processing uuid_seed f account metrics]) ->
    ending uuid_seed f account metrics errors w Promise.Pending w'.

Lemma store_upload_ending (uuid_seed : nat) (f : File) (account : string)
    (metrics : list Uploads.Metric) (errors : list string) (w : World) :
  let '(result, w') :=
    Promise.try_catch (store_upload uuid_seed f account metrics errors)
      (fun error => mret (NextError error None)) w in
  ending uuid_seed f account metrics errors w result w'.
Proof.
  unfold_handler.
  destruct (s3_error _) as [e|] eqn:Hs3; [by apply put_failed|].
  destruct (fault InsertUpload) as [e|]; [by apply insert_failed|].
  cbn [db csv_uploads bucket redis].
  destruct (500 <? _)%nat; [by apply insert_failed|].
  destruct (255 <? _)%nat; [by apply insert_failed|].
  destruct (negb _); [by apply insert_failed|].
  cbn [db csv_uploads bucket redis].
  fold (processing uuid_seed f account metrics).
  destruct (MarketingMetrics.bulkInsert _ _ _ _ _ _) as [[[]|e] db'] eqn:Hbulk.
  - cbn [db csv_uploads bucket redis].
    destruct (fault UpdateCompleted) as [e|] eqn:Hcompleted.
    + destruct (fault UpdateFailed) as [e'|] eqn:Hfailed;
        cbn [db csv_uploads bucket redis].
      * apply (left_processing _ _ _ _ _ _ e e'); [done | by right | done].
      * apply marked_failed; [done | by right | done].
    + cbn [db csv_uploads bucket redis].
      pose proof (invalidatePattern_outcomes glob_match redis_now
                    ("data:summary:" ++ account ++ ":*") (redis w)) as H1.
      destruct (Redis.invalidatePattern glob_match redis_now
                  ("data:summary:" ++ account ++ ":*") (redis w))
        as [[[]|e|] r1]; destruct H1 as [Hf1 H1]; [|done|].
      * cbn [db csv_uploads bucket redis].
        pose proof (invalidatePattern_outcomes glob_match redis_now
                      ("data:timeseries:" ++ account ++ ":*") r1) as H2.
        destruct (Redis.invalidatePattern glob_match redis_now
                    ("data:timeseries:" ++ account ++ ":*") r1)
          as [[[]|e|] r2]; destruct H2 as [Hf2 H2]; [|done|].
        -- by apply answered.
        -- apply never_answered; [|done..].
           destruct H2 as [cmd Hq]. exists cmd. by rewrite <- Hf1.
      * by apply never_answered.
  - apply bulkInsert_throw_unchanged in Hbulk as ->.
    destruct (fault UpdateFailed) as [e'|] eqn:Hfailed;
      cbn [db csv_uploads bucket redis].
    + apply (left_processing _ _ _ _ _ _ e e'); [done | by left | done].
    + apply marked_failed; [done | by left | done].
Qed.

(** Up to the upload to S3 the handler changes nothing. *)
Lemma upload_csv_cases (uuid_seed : nat) (file : option File)
    (accountId tier : option string) (w : World) :
  (exists code message errors,
     upload_csv uuid_seed file accountId tier w
     = (Promise.Fulfilled (Refused code message errors), w) /\
     (code = 400%nat \/ code = 403%nat)) \/
  (exists e statusCode,
     upload_csv uuid_seed file accountId tier w
     = (Promise.Fulfilled (NextError e statusCode), w)) \/
  (exists f account metrics errors,
     file = Some f /\ accountId = Some account /\
     upload_csv uuid_seed file accountId tier w
     = Promise.try_catch (store_upload uuid_seed f account metrics errors)
         (fun error => mret (NextError error None)) w).
Proof.
  unfold UploadRoute.upload_csv.
  destruct file as [f|]; [|left; eexists _, _, _; split; [reflexivity | by left]].
  destruct (Routes.authenticated accountId) as [account|] eqn:Hauth;
    [|right; left; by eexists _, _].
  apply authenticated_Some in Hauth as [-> _].
  destruct (is_free tier && _);
    [left; eexists _, _, _; split; [reflexivity | by right]|].
  destruct (csv_parse (buffer f)) as [records|e]; [|right; left; by eexists _, _].
  destruct (Uploads.metrics _) as [|m ms].
  - destruct (Uploads.validate_upload _ _ _ _ _ _ _ _ _)
      as [errors|metrics errors].
    + left. eexists _, _, _. split; [reflexivity | by left].
    + right. right. by eexists _, _, _, _.
  - destruct (fault CountDays) as [e|]; [right; left; by eexists _, _|].
    destruct (Uploads.validate_upload _ _ _ _ _ _ _ _ _)
      as [errors|metrics errors].
    + left. eexists _, _, _. split; [reflexivity | by left].
    + right. right. by eexists _, _, _, _.
Qed.

(** X20: an upload that is refused (400 or 403) changes nothing at all:
    no S3 object, no upload record, no metric, no cache entry.  The
    metrics change only through a [bulkInsert] that returned, and such an
    upload is answered with success unless the UPDATE to 'completed' is
    rejected, when an error is passed on, or a command of the cache
    invalidation waits in the queue, when nothing is answered; in both
    cases the metrics stay committed. *)
Theorem upload_changes_metrics_only_through_bulkInsert (uuid_seed : nat)
    (file : option File) (accountId tier : option string) (w : World) :
  let '(result, w') := upload_csv uuid_seed file accountId tier w in
  match result with
  | Promise.Fulfilled (Refused code _ _) =>
      w' = w /\ (code = 400%nat \/ code = 403%nat)
  | Promise.Fulfilled (Stored _ _ _) =>
      exists account metrics, committed uuid_seed account metrics w w'
  | Promise.Fulfilled (NextError _ _) =>
      db w' = db w \/
      (fault UpdateCompleted <> None /\
       exists account metrics, committed uuid_seed account metrics w w')
  | Promise.Pending =>
      (exists cmd, Redis.fate_of (redis w) cmd = Redis.Queued) /\
      exists account metrics, committed uuid_seed account metrics w w'
  | Promise.Rejected _ => False
  end.
Proof.
  destruct (upload_csv_cases uuid_seed file accountId tier w)
    as [(code & message & errors & -> & Hcode)
       |[(e & statusCode & ->)
        |(f & account & metrics & errors & _ & _ & ->)]];
    [by split | by left |].
  pose proof (store_upload_ending uuid_seed f account metrics errors w) as Hend.
  destruct (Promise.try_catch _ _ w) as [result w'].
  destruct Hend as [e Hs3|e w' Hdb _|e w' _ Hdb _|e e' w' _ Hdb _|w' Hc _
                   |w' Hq Hc _].
  - by left.
  - by left.
  - destruct Hdb as [Hdb|[Hf Hc]]; [by left|].
    right. split; [congruence | by eexists _, _].
  - destruct Hdb as [Hdb|[Hf Hc]]; [by left|].
    right. split; [congruence | by eexists _, _].
  - by eexists _, _.
  - split; [exact Hq | by eexists _, _].
Qed.


(** X22: the free-tier limit is a limit on line feeds.  An authenticated
    free-tier upload is refused with 403 exactly when its file holds more
    than 500 line feeds; so a file of a header line and 500 data lines,
    each ended by a line feed, is refused although it has 500 rows. *)
Theorem free_tier_limit_counts_line_feeds (uuid_seed : nat) (f : File)
    (account : string) (w : World) :
  account <> "" ->
  (fst (upload_csv uuid_seed (Some f) (Some account) (Some "free") w)
   = Promise.Fulfilled (Refused 403 free_tier_message None) <->
   (500 < line_feeds (buffer f))%nat) /\
  (forall header rows,
     Forall (fun line => line_feeds line = 0%nat) (header :: rows) ->
     length rows = 500%nat ->
     buffer f = terminated_lines (header :: rows) ->
     upload_csv uuid_seed (Some f) (Some account) (Some "free") w
     = (Promise.Fulfilled (Refused 403 free_tier_message None), w)).
Proof.
  intros Hacc.
  assert (Hyes : (500 < line_feeds (buffer f))%nat ->
            upload_csv uuid_seed (Some f) (Some account) (Some "free") w
            = (Promise.Fulfilled (Refused 403 free_tier_message None), w)).
  { intros Hmany. unfold UploadRoute.upload_csv, Routes.authenticated.
    destruct (String.eqb_spec account ""); [done|].
    rewrite rowCount_line_feeds.
    destruct (Nat.ltb_spec 500 (line_feeds (buffer f))); [reflexivity | lia]. }
  split; [split|].
  - destruct (Nat.lt_ge_cases 500 (line_feeds (buffer f))) as [Hmany|Hfew];
      [done|].
    unfold UploadRoute.upload_csv, Routes.authenticated.
    destruct (String.eqb_spec account ""); [done|].
    rewrite rowCount_line_feeds.
    destruct (Nat.ltb_spec 500 (line_feeds (buffer f))); [lia|].
    rewrite andb_false_r.
    destruct (csv_parse (buffer f)) as [records|e]; [|discriminate].
    assert (Hstore : forall metrics errors,
      fst (Promise.try_catch (store_upload uuid_seed f account metrics errors)
             (fun error => mret (NextError error None)) w)
      <> Promise.Fulfilled (Refused 403 free_tier_message None)).
    { intros metrics errors.
      pose proof (store_upload_ending uuid_seed f account metrics errors w) as Hend.
      destruct (Promise.try_catch _ _ w) as [result w'].
      by destruct Hend. }
    destruct (Uploads.metrics _) as [|m ms].
    + destruct (Uploads.validate_upload _ _ _ _ _ _ _ _ _)
        as [errors|metrics errors]; [discriminate|].
      intros Hrefused. by apply Hstore in Hrefused.
    + destruct (fault CountDays); [discriminate|].
      destruct (Uploads.validate_upload _ _ _ _ _ _ _ _ _)
        as [errors|metrics errors]; [discriminate|].
      intros Hrefused. by apply Hstore in Hrefused.
  - intros Hmany. by rewrite Hyes.
  - intros header rows Hlines Hlen Hbuf. apply Hyes.
    rewrite Hbuf, (line_feeds_terminated _ Hlines). cbn [length]. lia.
Qed.

End UploadRouteFacts.

(** A header and 500 rows, each ended by a line feed. *)
Definition five_hundred_rows : UploadRoute.File :=
  UploadRoute.mkFile
    (terminated_lines ("date,channel,spend" :: replicate 500 "19000,fb,1"))
    "data.csv".

Definition no_fault (which : UploadRoute.statement) : option string := None.

Definition sample_world : UploadRoute.World :=
  UploadRoute.mkWorld sample_db [] [] sample_client.

Lemma free_tier_limit_counts_line_feeds_witness :
  fst (UploadRoute.upload_csv (string * string) sample_parse sample_Date_parse []
         sample_clock (fun _ => Js.Returned []) sample_pg_date 20 0
         (fun _ => None) (fun p => p) sample_glob no_fault 1000 0
         (Some five_hundred_rows) (Some "acct") (Some "free") sample_world)
  = Promise.Fulfilled (UploadRoute.Refused 403 UploadRoute.free_tier_message None).
Proof.
  apply (proj1 (free_tier_limit_counts_line_feeds (string * string) sample_parse
                  sample_Date_parse [] sample_clock (fun _ => Js.Returned [])
                  sample_pg_date 20 0 (fun _ => None) (fun p => p) sample_glob
                  no_fault 1000 0 five_hundred_rows "acct" sample_world
                  ltac:(discriminate))).
  vm_compute. lia.
Defined.



(** ** routes/uploads.ts: every record is accounted for *)

Section UploadAccounting.
Import Uploads.

Variable record : Type.
Variable csvRowSchema_parse : record -> list ZodIssue + MarketingMetrics.MetricInput.
Variable Date_parse : string -> option Z.
Variable channel_normalization : list ChannelNormalization.NormalizationRow.
Variable clock : nat -> Z * Z.
Variable accountId : string.
Variable tier : option string.

Local Abbreviation upload_row :=
  (Uploads.upload_row record csvRowSchema_parse Date_parse channel_normalization
     clock accountId tier).
Local Abbreviation upload_rows :=
  (Uploads.upload_rows record csvRowSchema_parse Date_parse channel_normalization
     clock accountId tier).

Definition date_of (m : Metric) : string := MarketingMetrics.date (row m).

Lemma upload_row_accounting (i : nat) (rec : record) (st : Collected) :
  let st' := upload_row i rec st in
  (length (metrics st') + length (errors st')
   = S (length (metrics st) + length (errors st)))%nat /\
  (dates st = map date_of (metrics st) ->
   dates st' = map date_of (metrics st')).
Proof.
  cbv zeta. unfold Uploads.upload_row.
  destruct (csvRowSchema_parse rec) as [issues|parsed]; cbn [metrics errors dates].
  - rewrite length_app. cbn [length]. split; [lia | done].
  - cbv zeta. destruct (negb _); cbn [metrics errors dates].
    + rewrite length_app. cbn [length]. split; [lia | done].
    + rewrite length_app. cbn [length]. split; [lia|].
      intros ->. by rewrite map_app.
Qed.

(** X23: the loop of the upload accounts for every record: each record
    adds either one accepted row or one message, so the accepted rows and
    the messages together are as many as the records, and the dates
    collected are the dates of the accepted rows, in order. *)
Theorem upload_rows_account_for_every_record (records : list record) :
  let st := upload_rows 0 records nothing in
  (length (metrics st) + length (errors st))%nat = length records /\
  dates st = map date_of (metrics st).
Proof.
  cbv zeta.
  enough (H : forall i st,
    dates st = map date_of (metrics st) ->
    (length (metrics (upload_rows i records st))
     + length (errors (upload_rows i records st))
     = length (metrics st) + length (errors st) + length records)%nat /\
    dates (upload_rows i records st)
    = map date_of (metrics (upload_rows i records st))).
  { destruct (H 0%nat nothing eq_refl) as [Hlen Hdates]. split; [|exact Hdates].
    rewrite Hlen. reflexivity. }
  induction records as [|rec records IH]; intros i st Hst.
  - cbn [Uploads.upload_rows length]. split; [lia | exact Hst].
  - cbn [Uploads.upload_rows length].
    destruct (upload_row_accounting i rec st) as [Hlen Hdates]. cbv zeta in *.
    destruct (IH (S i) _ (Hdates Hst)) as [Hlen' Hdates'].
    split; [lia | exact Hdates'].
Qed.

End UploadAccounting.

(** ** models/Account.ts and routes/auth.ts *)

Section AccountFacts.
Import Accounts.

Variable bcrypt_hash : nat -> string -> string.
Variable bcrypt_compare : string -> string -> bool.
Variable uuid : nat -> string.
Variable now : Z.
Variable is_email : string -> bool.
Variable jwt_sign :
  Z -> Auth.Claims -> option string -> string -> Js.outcome string.

Local Abbreviation signup :=
  (Accounts.signup bcrypt_hash uuid now is_email jwt_sign).
Local Abbreviation login :=
  (Accounts.login bcrypt_compare is_email jwt_sign).
Local Abbreviation create := (Accounts.create bcrypt_hash uuid now).

Definition emails (accounts : list Account) : list string := map email accounts.

Lemma findByEmail_None (accounts : list Account) (e : string) :
  findByEmail accounts e = None <-> e ∉ emails accounts.
Proof.
  unfold findByEmail, emails. induction accounts as [|a accounts IH]; simpl.
  - split; [intros _; apply not_elem_of_nil | done].
  - destruct (String.eqb_spec (email a) e) as [->|Hne].
    + split; [discriminate|]. intros H. exfalso. apply H. left.
    + rewrite IH, not_elem_of_cons. split; [by split|]. by intros [_ ?].
Qed.

Lemma findByEmail_app_new (accounts : list Account) (a : Account) :
  findByEmail accounts (email a) = None ->
  findByEmail (accounts ++ [a]) (email a) = Some a.
Proof.
  unfold findByEmail. induction accounts as [|a0 accounts IH]; simpl.
  - by rewrite String.eqb_refl.
  - destruct (String.eqb (email a0) (email a)); [discriminate | exact IH].
Qed.

Lemma create_cases (e p : string) (st : list Account * nat) :
  (exists err, create e p st = (Js.Threw err, st)) \/
  (findByEmail (fst st) e = None /\
   create e p st
   = (Js.Returned (mkCreated (uuid (snd st)) e "free" now now),
      ((fst st ++ [mkAccount (uuid (snd st)) e (bcrypt_hash (snd st) p) "free"
                     now now])%list,
       S (snd st)))).
Proof.
  destruct st as [accounts drawn]. unfold Accounts.create. cbn [fst snd].
  destruct (_ || _); [left; by eexists|].
  destruct (existsb _ accounts) eqn:Hex; [left; by eexists|].
  right. split; [|reflexivity].
  unfold findByEmail. destruct (List.find _ accounts) as [a|] eqn:Hfind;
    [|reflexivity].
  apply find_some in Hfind as [Hin Heq].
  assert (existsb (fun a => String.eqb (email a) e) accounts = true)
    by (apply existsb_exists; eauto).
  congruence.
Qed.

(** X24: signup keeps the e-mail addresses of the accounts different
    from each other.  It leaves the table as it is or adds one account,
    which is on the free tier, has an address no account had, and stores
    the bcrypt hash of the password. *)
Theorem signup_keeps_emails_unique (env : Env) (clock : Z * Z)
    (body : Credentials) (st : list Account * nat) :
  NoDup (emails (fst st)) ->
  let st' := snd (signup env clock body st) in
  NoDup (emails (fst st')) /\
  (fst st' = fst st \/
   exists e p,
     body = mkCredentials (Some e) (Some p) /\
     (e ∉ emails (fst st)) /\
     fst st'
     = (fst st ++ [mkAccount (uuid (snd st)) e (bcrypt_hash (snd st) p) "free"
                     now now])%list).
Proof.
  intros Hnd. cbv zeta. unfold Accounts.signup.
  destruct body as [[e|] [p|]]; cbn [cr_email cr_password];
    try (split; [exact Hnd | by left]).
  destruct (_ || _); [split; [exact Hnd | by left]|].
  destruct (findByEmail (fst st) e) eqn:Hfind; [split; [exact Hnd | by left]|].
  destruct (create_cases e p st) as [[err ->]|[_ ->]];
    [split; [exact Hnd | by left]|].
  apply findByEmail_None in Hfind.
  assert (Hnew : NoDup (emails (fst st ++
            [mkAccount (uuid (snd st)) e (bcrypt_hash (snd st) p) "free" now now]))).
  { unfold emails. rewrite map_app. apply NoDup_app. split; [exact Hnd|].
    split; [|apply NoDup_singleton].
    intros x Hx Hx'. apply list_elem_of_singleton in Hx'. by subst. }
  cbn [c_id c_tier c_email].
  destruct (generateTokens _ _ _ _ _ _) as [[a r]|err]; cbn [snd fst];
    (split; [exact Hnew | right; by exists e, p]).
Qed.

(** X25: who has signed up can log in.  After a signup answered with
    201, a login with the same address and password on the resulting
    table is answered with 200 for the same account, on the free tier,
    with tokens signed at the time of the login, provided bcrypt accepts
    the password against the hash made of it at the signup and the
    tokens can be signed. *)
Theorem signup_then_login (env : Env) (clock clock' : Z * Z) (e p : string)
    (st st' : list Account * nat)
    (account_id account_email account_tier accessToken refreshToken : string) :
  bcrypt_compare p (bcrypt_hash (snd st) p) = true ->
  signup env clock (mkCredentials (Some e) (Some p)) st
  = (Js.Returned (Session 201 account_id account_email account_tier
                    accessToken refreshToken), st') ->
  account_email = e /\ account_tier = "free" /\
  login env clock' (mkCredentials (Some e) (Some p)) (fst st')
  = match generateTokens jwt_sign env clock' account_id account_id "free" with
    | Js.Returned (accessToken', refreshToken') =>
        Session 200 account_id e "free" accessToken' refreshToken'
    | Js.Threw err => NextError err
    end.
Proof.
  intros Hbcrypt. unfold Accounts.signup, Accounts.login.
  cbn [cr_email cr_password].
  destruct (is_email e); cbn [negb orb]; [|discriminate].
  destruct (String.length p <? 8)%nat; [discriminate|].
  destruct (findByEmail (fst st) e) eqn:Hfind; [discriminate|].
  destruct (create_cases e p st) as [[err ->]|[_ ->]]; [discriminate|].
  cbn [c_id c_tier c_email].
  destruct (generateTokens jwt_sign env clock (uuid (snd st)) (uuid (snd st)) "free")
    as [[a r]|err] eqn:Htokens; [|discriminate].
  intros [= <- <- <- <- <- <-]. cbn [fst].
  set (new := mkAccount (uuid (snd st)) e (bcrypt_hash (snd st) p) "free" now now).
  assert (Hnew : findByEmail (fst st ++ [new]) e = Some new)
    by (apply (findByEmail_app_new (fst st) new); exact Hfind).
  rewrite Hnew. unfold verifyPassword. cbn [password_hash new id tier email].
  rewrite Hbcrypt. cbn [negb]. split; [reflexivity|]. split; [reflexivity|].
  by destruct (generateTokens _ _ _ _ _ _) as [[? ?]|?].
Qed.

End AccountFacts.

Section DeleteCascade.
Import MarketingMetrics Accounts.

Variable pg_date : string -> option Z.
Variable now : Z.

Lemma query_INSERT_needs_account (accountId : string) (m : MetricInput)
    (c c' : Client) :
  query_INSERT pg_date now accountId m c = (Js.Returned tt, c') ->
  accountId ∈ known_accounts c.
Proof.
  unfold query_INSERT.
  destruct (column_values pg_date m) as [v|]; [|discriminate].
  destruct (negb (checks v)); [discriminate|].
  case_bool_decide as Hin; [done | discriminate].
Qed.

(** X26: deleting an account takes its metrics with it and those of
    no other account: no record of the account is left, every record of
    another account stays, and a later [bulkInsert] of rows for the
    deleted account throws and leaves the database as the deletion left
    it. *)
Theorem delete_cascade_spec (uuid_seed : nat) (accountId : string) (d : Db) :
  let d' := delete_cascade accountId d in
  (forall r, In r (marketing_daily_metrics d') -> account_id r <> accountId) /\
  (forall r, In r (marketing_daily_metrics d) -> account_id r <> accountId ->
     In r (marketing_daily_metrics d')) /\
  (forall m metrics,
     exists e,
       bulkInsert pg_date now uuid_seed accountId (m :: metrics) d'
       = (Js.Threw e, d')).
Proof.
  cbv zeta. split; [|split].
  - intros r Hr. apply filter_In in Hr as [_ Hne].
    intros Heq. rewrite Heq, String.eqb_refl in Hne. discriminate.
  - intros r Hr Hne. apply filter_In. split; [exact Hr|].
    by destruct (String.eqb_spec (account_id r) accountId).
  - intros m metrics. rewrite bulkInsert_unfold, for_each_cons.
    set (begun := mkClient _ _ _ _).
    destruct (query_INSERT_cases pg_date now accountId m begun)
      as [[e ->]|(fresh & _ & _ & _ & Hq)].
    + exists e. unfold begun. cbn [known_accounts persisted saved].
      by destruct (delete_cascade accountId d).
    + exfalso. apply query_INSERT_needs_account in Hq.
      unfold begun, delete_cascade in Hq. cbn in Hq. set_solver.
Qed.

End DeleteCascade.

Definition sample_env : Accounts.Env :=
  Accounts.mkEnv (Some "secret") (Some "refresh") None None.

(** A signature that shows what went into it. *)
Definition sample_sign (issued_at : Z) (claims : Auth.Claims)
    (secret : option string) (expiresIn : string) : Js.outcome string :=
  match secret with
  | Some s =>
      Js.Returned
        (default "" (Auth.accountId claims) ++ "." ++ default "" (Auth.tier claims)
         ++ "." ++ s ++ "." ++ expiresIn ++ "@" ++ pretty issued_at)
  | None => Js.Threw "secretOrPrivateKey must have a value"
  end.

Definition sample_hash (salt : nat) (password : string) : string :=
  "$2b$10$" ++ pretty salt ++ "$" ++ password.

Definition sample_compare (password hash : string) : bool :=
  String.eqb
    (String.substring (String.length hash - String.length password)
       (String.length password) hash)
    password.

(** An address test that asks for one [@], with something before it and
    a dot in what follows, and for at least two characters after the last
    dot. *)
Fixpoint count_char (c : ascii) (s : string) : nat :=
  match s with
  | EmptyString => 0
  | String c' s' => ((if Ascii.eqb c' c then 1 else 0) + count_char c s')%nat
  end.

Fixpoint after_last (c : ascii) (s : string) : string :=
  match s with
  | EmptyString => EmptyString
  | String c' s' =>
      if (0 <? count_char c s)%nat then
        if Ascii.eqb c' c && (count_char c s' =? 0)%nat then s'
        else after_last c s'
      else s
  end.

Definition sample_is_email (s : string) : bool :=
  (count_char "@" s =? 1)%nat
  && negb (String.prefix "@" s)
  && (0 <? count_char "." (after_last "@" s))%nat
  && (2 <=? String.length (after_last "." (after_last "@" s)))%nat.

Definition sample_accounts : list Accounts.Account :=
  [Accounts.mkAccount "0" "ann@example.com" (sample_hash 0 "password1") "free" 5 5;
   Accounts.mkAccount "1" "bob@example.com" (sample_hash 1 "password2") "free" 6 6].

Lemma signup_keeps_emails_unique_witness :
  NoDup (emails
           (fst (snd (Accounts.signup sample_hash (fun n => pretty n) 7
                        sample_is_email sample_sign sample_env (8000, 8001)%Z
                        (Accounts.mkCredentials (Some "bob@example.com")
                           (Some "password3"))
                        (sample_accounts, 2%nat))))) /\
  emails
    (fst (snd (Accounts.signup sample_hash (fun n => pretty n) 7
                 sample_is_email sample_sign sample_env (8000, 8001)%Z
                 (Accounts.mkCredentials (Some "carol@example.com")
                    (Some "password3"))
                 (sample_accounts, 2%nat))))
  = ["ann@example.com"; "bob@example.com"; "carol@example.com"].
Proof.
  assert (Hunique : NoDup (emails (fst (sample_accounts, 2%nat)))).
  { vm_compute. repeat constructor; set_solver. }
  split.
  - apply (signup_keeps_emails_unique sample_hash (fun n => pretty n) 7
             sample_is_email sample_sign sample_env (8000, 8001)%Z
             (Accounts.mkCredentials (Some "bob@example.com") (Some "password3"))
             (sample_accounts, 2%nat) Hunique).
  - destruct (signup_keeps_emails_unique sample_hash (fun n => pretty n) 7
                sample_is_email sample_sign sample_env (8000, 8001)%Z
                (Accounts.mkCredentials (Some "carol@example.com")
                   (Some "password3"))
                (sample_accounts, 2%nat) Hunique) as [_ [Hsame|Hadded]].
    + vm_compute in Hsame. discriminate.
    + destruct Hadded as (e & p & [= <- <-] & _ & ->). reflexivity.
Defined.

Lemma signup_then_login_witness :
  Accounts.login sample_compare sample_is_email sample_sign sample_env
    (9000, 9001)%Z
    (Accounts.mkCredentials (Some "carol@example.com") (Some "password3"))
    (fst (snd (Accounts.signup sample_hash (fun n => pretty n) 7
                 sample_is_email sample_sign sample_env (8000, 8001)%Z
                 (Accounts.mkCredentials (Some "carol@example.com")
                    (Some "password3"))
                 (sample_accounts, 2%nat))))
  = Accounts.Session 200 "2" "carol@example.com" "free"
      "2.free.secret.15m@9000" "2.free.refresh.7d@9001".
Proof.
  refine (proj2 (proj2 (signup_then_login sample_hash sample_compare
                          (fun n => pretty n) 7 sample_is_email sample_sign
                          sample_env (8000, 8001)%Z (9000, 9001)%Z
                          "carol@example.com" "password3"
                          (sample_accounts, 2%nat) _
                          "2" "carol@example.com" "free"
                          "2.free.secret.15m@8000" "2.free.refresh.7d@8001"
                          _ _))).
  - reflexivity.
  - vm_compute. reflexivity.
Defined.

(** ** utils/performance.ts: throttle and debounce *)

Section ThrottleFacts.
Import Performance.

Variable A : Type.
Variable throws : A -> option string.
Variable limit : Z.

Local Abbreviation delay := (timer_delay limit).
Local Abbreviation step := (throttle_step throws limit).

(** A call of [func] that has returned is followed by the next one no
    sooner than the delay. *)
Definition spaced (log : list (Z * A)) : Prop :=
  forall i t1 a1 t2 a2,
    log !! i = Some (t1, a1) -> log !! S i = Some (t2, a2) ->
    throws a1 = None -> (t1 + delay <= t2)%Z.

Definition throttle_inv (now : Z) (st : Throttled A) : Prop :=
  spaced (th_invoked st) /\
  if inThrottle st
  then exists pre t a,
         th_invoked st = (pre ++ [(t, a)])%list /\ throws a = None /\
         th_timers st = [(t + delay)%Z]
  else th_timers st = [] /\
       forall t a, last (th_invoked st) = Some (t, a) -> throws a = None ->
                   (t + delay <= now)%Z.

Lemma spaced_snoc (log : list (Z * A)) (t' : Z) (a' : A) :
  spaced log ->
  (forall t a, last log = Some (t, a) -> throws a = None -> (t + delay <= t')%Z) ->
  spaced (log ++ [(t', a')]).
Proof.
  intros Hs Hl i t1 a1 t2 a2 H1 H2 Hth.
  destruct (decide (S i < length log)%nat) as [Hlt|Hge].
  - rewrite lookup_app_l in H1 by lia. rewrite lookup_app_l in H2 by lia.
    by eapply Hs.
  - pose proof (lookup_lt_Some _ _ _ H2) as Hlen.
    rewrite length_app in Hlen. cbn [length] in Hlen.
    assert (Hi : S i = length log) by lia.
    rewrite lookup_app_l in H1 by lia.
    rewrite lookup_app_r in H2 by lia.
    replace (S i - length log)%nat with 0%nat in H2 by lia.
    cbn in H2. injection H2 as <- <-.
    apply (Hl t1 a1); [|exact Hth].
    rewrite last_lookup. by replace (pred (length log)) with i by lia.
Qed.

Lemma throttle_step_inv (now : Z) (st : Throttled A) (e : event A) :
  (now <= time e)%Z -> throttle_inv now st ->
  throttle_inv (time e) (throttle_step throws limit st e).
Proof.
  intros Hnow [Hs Hst]. destruct st as [[|] timers log];
    cbn [inThrottle th_timers th_invoked] in *.
  - destruct Hst as (pre & t & a & -> & Hth & ->).
    destruct e as [t' a'|t']; cbn [throttle_step time].
    + unfold throttle_call. cbn. split; [exact Hs|]. by exists pre, t, a.
    + unfold throttle_tick. cbn [inThrottle th_timers th_invoked List.filter].
      destruct (Z.leb_spec (t + delay) t') as [Hle|Hgt]; cbn [negb].
      * split; [exact Hs|]. cbn [inThrottle th_timers th_invoked].
        split; [done|]. intros t1 a1. rewrite last_snoc. by intros [= <- <-] _.
      * split; [exact Hs|]. cbn [inThrottle th_timers th_invoked].
        by exists pre, t, a.
  - destruct Hst as [-> Hlast].
    destruct e as [t' a'|t']; cbn [throttle_step time] in *.
    + unfold throttle_call. cbn [inThrottle th_timers th_invoked negb].
      assert (Hs' : spaced (log ++ [(t', a')])).
      { apply spaced_snoc; [exact Hs|]. intros t a Hl Hth.
        specialize (Hlast t a Hl Hth). lia. }
      destruct (throws a') as [err|] eqn:Hth; cbn [snd].
      * split; [exact Hs'|]. cbn [inThrottle th_timers th_invoked].
        split; [done|]. intros t a. rewrite last_snoc. intros [= <- <-]. congruence.
      * split; [exact Hs'|]. cbn [inThrottle th_timers th_invoked app].
        by exists log, t', a'.
    + unfold throttle_tick. cbn [inThrottle th_timers th_invoked List.filter].
      split; [exact Hs|]. cbn [inThrottle th_timers th_invoked].
      split; [done|]. intros t a Hl Hth. specialize (Hlast t a Hl Hth). lia.
Qed.

Lemma throttle_run_inv (trace : list (event A)) (now : Z) (st : Throttled A) :
  chronological now trace = true -> throttle_inv now st ->
  spaced (th_invoked (fold_left step trace st)).
Proof.
  revert now st. induction trace as [|e trace IH]; intros now st Hchron Hinv.
  - exact (proj1 Hinv).
  - cbn [chronological] in Hchron. apply andb_true_iff in Hchron as [Hnow Hrest].
    apply Z.leb_le in Hnow. cbn [fold_left].
    apply (IH (time e)); [exact Hrest|]. by apply throttle_step_inv with now.
Qed.

(** X27: a throttled function leaves its delay between calls of [func].
    On a trace in the order of time, a call of [func] that returned is
    followed by the next call of [func] no sooner than the delay of the
    timer, which is [limit] when that is between 1 and 2147483647 and 1
    otherwise. *)
Theorem throttle_spacing (start : Z) (trace : list (event A)) (i : nat)
    (t1 t2 : Z) (a1 a2 : A) :
  chronological start trace = true ->
  th_invoked (throttle throws limit trace) !! i = Some (t1, a1) ->
  th_invoked (throttle throws limit trace) !! S i = Some (t2, a2) ->
  throws a1 = None ->
  (t1 + (if (1 <=? limit) && (limit <=? 2147483647) then limit else 1) <= t2)%Z.
Proof.
  intros Hchron H1 H2 Hth.
  assert (Hs : spaced (th_invoked (throttle throws limit trace))).
  { unfold throttle. apply throttle_run_inv with start; [exact Hchron|].
    split; [|by split].
    intros j ? ? ? ? Hj. cbn [th_invoked] in Hj. by rewrite lookup_nil in Hj. }
  exact (Hs i t1 a1 t2 a2 H1 H2 Hth).
Qed.

(** The calls of a trace, with their times. *)
Definition calls_of (trace : list (event A)) : list (Z * A) :=
  omap (fun e => match e with Call t a => Some (t, a) | Tick _ => None end) trace.

Lemma throttle_step_log (st : Throttled A) (e : event A) :
  th_invoked (step st e) = th_invoked st \/
  exists t a, e = Call t a /\ th_invoked (step st e) = (th_invoked st ++ [(t, a)])%list.
Proof.
  destruct e as [t a|t]; cbn [throttle_step]; [|by left].
  unfold throttle_call. destruct (negb (inThrottle st)); [|by left].
  right. exists t, a. split; [done|]. by destruct (throws a).
Qed.

Lemma throttle_snoc (trace : list (event A)) (e : event A) :
  throttle throws limit (trace ++ [e]) = step (throttle throws limit trace) e.
Proof. unfold throttle. by rewrite fold_left_app. Qed.

Lemma throttle_log_grows (trace : list (event A)) (st : Throttled A) :
  exists rest, th_invoked (fold_left step trace st) = (th_invoked st ++ rest)%list.
Proof.
  revert st. induction trace as [|e trace IH]; intros st.
  - exists []. cbn [fold_left]. by rewrite app_nil_r.
  - cbn [fold_left]. destruct (IH (step st e)) as [rest ->].
    destruct (throttle_step_log st e) as [->|(t' & a' & _ & ->)].
    + by exists rest.
    + exists ((t', a') :: rest). by rewrite <- app_assoc.
Qed.

(** X28: a throttled function calls [func] only from within a call of
    its own, at once and with the arguments of that call: the calls of
    [func] are a selection, in order, of the calls of the trace.  The
    first call of a trace always goes through. *)
Theorem throttle_invokes_calls_only (trace : list (event A)) :
  sublist (th_invoked (throttle throws limit trace)) (calls_of trace) /\
  forall t a rest,
    trace = Call t a :: rest ->
    exists later_calls,
      th_invoked (throttle throws limit trace) = (t, a) :: later_calls.
Proof.
  split.
  - induction trace as [|e trace IH] using rev_ind; [done|].
    rewrite throttle_snoc. unfold calls_of. rewrite omap_app.
    destruct (throttle_step_log (throttle throws limit trace) e)
      as [->|(t & a & -> & ->)].
    + rewrite <- (app_nil_r (th_invoked _)). apply sublist_app; [exact IH|].
      apply sublist_nil_l.
    + by apply sublist_app.
  - intros t a rest ->. unfold throttle. cbn [fold_left throttle_step].
    destruct (throttle_log_grows rest
                (snd (throttle_call throws limit t a (mkThrottled false [] []))))
      as [later_calls ->].
    unfold throttle_call. cbn [inThrottle negb th_invoked th_timers app].
    destruct (throws a); cbn [snd th_invoked app]; by eexists.
Qed.

End ThrottleFacts.

Section DebounceFacts.
Import Performance.

Variable A : Type.
Variable throws : A -> option string.
Variable wait : Z.

Local Abbreviation delay := (timer_delay wait).
Local Abbreviation step := (debounce_step throws wait).

Definition quiet (mid : list (event A)) : Prop :=
  Forall (fun e => is_call e = false) mid.

(** The call a run of [func] at [t] with [a] comes from. *)
Definition origin (trace : list (event A)) (t : Z) (a : A) : Prop :=
  exists pre mid post t0,
    trace = (pre ++ Call t0 a :: mid ++ Tick t :: post)%list /\
    quiet mid /\ (t0 + delay <= t)%Z.

Definition pending (trace : list (event A)) (due : Z) (a : A) : Prop :=
  exists pre mid t0,
    trace = (pre ++ Call t0 a :: mid)%list /\ quiet mid /\ due = (t0 + delay)%Z.

Definition debounce_inv (trace : list (event A)) (st : Debounced A) : Prop :=
  (forall t a, (t, a) ∈ db_invoked st -> origin trace t a) /\
  (crashed st = false ->
   (timeout st = None /\ db_timers st = []) \/
   exists h due a,
     timeout st = Some h /\ db_timers st = [(h, (due, a))] /\ pending trace due a).

Lemma origin_snoc (trace : list (event A)) (e : event A) (t : Z) (a : A) :
  origin trace t a -> origin (trace ++ [e]) t a.
Proof.
  intros (pre & mid & post & t0 & -> & Hq & Hle).
  exists pre, mid, (post ++ [e])%list, t0. split; [|done].
  rewrite <- !app_assoc. cbn [app]. by rewrite <- !app_assoc.
Qed.

Lemma debounce_step_inv (trace : list (event A)) (st : Debounced A)
    (e : event A) :
  debounce_inv trace st -> debounce_inv (trace ++ [e]) (step st e).
Proof.
  intros [Hlog Hst]. unfold debounce_step.
  destruct (crashed st) eqn:Hcr.
  { split; [|congruence]. intros t a Hin. apply origin_snoc. by apply Hlog. }
  specialize (Hst eq_refl).
  destruct st as [tm timers handles log cr].
  cbn [timeout db_timers db_handles db_invoked crashed] in *. subst cr.
  destruct e as [t a|t].
  - (* a call clears the pending timer and sets its own *)
    assert (Htimers :
      match tm with Some h => clearTimeout h timers | None => timers end = []).
    { destruct Hst as [[-> ->]|(h & due & a0 & -> & -> & _)]; [done|].
      unfold clearTimeout. cbn [List.filter fst]. by rewrite Nat.eqb_refl. }
    unfold debounce_call.
    cbn [timeout db_timers db_handles db_invoked crashed].
    rewrite Htimers. cbn [app]. split.
    + cbn [db_invoked]. intros t1 a1 Hin. apply origin_snoc. by apply Hlog.
    + intros _. right. exists handles, (t + delay)%Z, a.
      cbn [timeout db_timers]. split; [done|]. split; [done|].
      exists trace, [], t. split; [done|]. split; [constructor | done].
  - unfold debounce_tick.
    cbn [timeout db_timers db_handles db_invoked crashed].
    destruct Hst as [[-> ->]|(h & due & a0 & -> & -> & Hp)].
    + cbn [List.filter run_due]. split.
      * cbn [db_invoked]. intros t1 a1 Hin. apply origin_snoc. by apply Hlog.
      * intros _. by left.
    + cbn [List.filter fst snd].
      destruct (Z.leb_spec due t) as [Hle|Hgt]; cbn [negb run_due].
      * (* the timer is due: [later] runs *)
        assert (Hnew : origin (trace ++ [Tick t]) t a0).
        { destruct Hp as (pre & mid & t0 & -> & Hq & ->).
          exists pre, mid, [], t0. split; [|done].
          rewrite <- app_assoc. reflexivity. }
        assert (Hall : forall t1 a1, (t1, a1) ∈ (log ++ [(t, a0)])%list ->
                                     origin (trace ++ [Tick t]) t1 a1).
        { intros t1 a1 Hin. apply elem_of_app in Hin as [Hin|Hin].
          - apply origin_snoc. by apply Hlog.
          - apply list_elem_of_singleton in Hin. by injection Hin as -> ->. }
        unfold later. cbn [timeout db_timers db_handles db_invoked crashed].
        destruct (throws a0); cbn [crashed run_due].
        -- split; [exact Hall | discriminate].
        -- split; [exact Hall|]. intros _. by left.
      * split.
        -- cbn [db_invoked]. intros t1 a1 Hin. apply origin_snoc. by apply Hlog.
        -- intros _. right. exists h, due, a0.
           cbn [timeout db_timers]. split; [done|]. split; [done|].
           destruct Hp as (pre & mid & t0 & -> & Hq & ->).
           exists pre, (mid ++ [Tick t])%list, t0.
           split; [by rewrite <- app_assoc|]. split; [|done].
           apply Forall_app. split; [exact Hq|]. by repeat constructor.
Qed.

Lemma debounce_run_inv (trace : list (event A)) :
  debounce_inv trace (debounce throws wait trace).
Proof.
  induction trace as [|e trace IH] using rev_ind.
  - split; [|by left]. intros t a Hin. by apply elem_of_nil in Hin.
  - unfold debounce. rewrite fold_left_app. by apply debounce_step_inv.
Qed.

(** X29: a debounced function calls [func] only after a quiet time.
    Each call of [func], at [t] with arguments [a], comes from a call of
    the debounced function with these arguments that is followed in the
    trace by no other call before the timers run at [t], and that was
    made at least the delay of the timer before [t]. *)
Theorem debounce_waits_for_quiet (trace : list (event A)) (t : Z) (a : A) :
  In (t, a) (db_invoked (debounce throws wait trace)) ->
  exists pre mid post t0,
    trace = (pre ++ Call t0 a :: mid ++ Tick t :: post)%list /\
    Forall (fun e => is_call e = false) mid /\
    (t0 + timer_delay wait <= t)%Z.
Proof.
  intros Hin. apply list_elem_of_In in Hin.
  exact (proj1 (debounce_run_inv trace) t a Hin).
Qed.

End DebounceFacts.

Definition never_throws (args : string) : option string := None.

Definition sample_trace : list (Performance.event string) :=
  [Performance.Call 0 "a"; Performance.Call 5 "b"; Performance.Tick 10;
   Performance.Call 12 "c"].

Lemma throttle_spacing_witness : (0 + 10 <= 12)%Z.
Proof.
  apply (throttle_spacing string never_throws 10 0 sample_trace 0 0 12 "a" "c");
    reflexivity.
Defined.

Lemma debounce_waits_for_quiet_witness :
  exists pre mid post t0,
    sample_trace
    = (pre ++ Performance.Call t0 "b" :: mid ++ Performance.Tick 10 :: post)%list /\
    Forall (fun e => Performance.is_call e = false) mid /\
    (t0 + Performance.timer_delay 3 <= 10)%Z.
Proof.
  apply (debounce_waits_for_quiet string never_throws 3 sample_trace 10 "b").
  vm_compute. by left.
Defined.

(** ** models/Account.ts: upgradeToPremium *)

Section UpgradeFacts.
Import Accounts.

Variable bcrypt_compare : string -> string -> bool.
Variable now : Z.
Variable is_email : string -> bool.
Variable jwt_sign :
  Z -> Auth.Claims -> option string -> string -> Js.outcome string.

Local Abbreviation login := (Accounts.login bcrypt_compare is_email jwt_sign).
Local Abbreviation upgradeToPremium := (Accounts.upgradeToPremium now).

(** What the UPDATE does to one row. *)
Definition upgraded (accountId : string) (a : Account) : Account :=
  if String.eqb (id a) accountId
  then mkAccount (id a) (email a) (password_hash a) "premium" (created_at a) now
  else a.

Lemma upgraded_email (accountId : string) (a : Account) :
  email (upgraded accountId a) = email a.
Proof. unfold upgraded. by destruct (String.eqb _ _). Qed.

Lemma findByEmail_upgradeToPremium (accountId e : string)
    (accounts : list Account) :
  findByEmail (upgradeToPremium accountId accounts) e
  = option_map (upgraded accountId) (findByEmail accounts e).
Proof.
  unfold findByEmail, Accounts.upgradeToPremium.
  induction accounts as [|a accounts IH]; [done|].
  cbn [map List.find]. fold (upgraded accountId a).
  rewrite upgraded_email. destruct (String.eqb (email a) e); [done | exact IH].
Qed.

(** X30: an upgrade shows at the next login, and only for the account
    upgraded.  After [upgradeToPremium] a login to that account that
    passes the checks is answered with the tier premium and tokens signed
    for it; a login with an address of any other account, or of none, is
    answered as before the upgrade. *)
Theorem login_after_upgrade (env : Env) (clock : Z * Z)
    (accountId e p : string) (accounts : list Account) :
  is_email e = true ->
  (forall a,
     findByEmail accounts e = Some a -> id a = accountId ->
     verifyPassword bcrypt_compare a p = true ->
     login env clock (mkCredentials (Some e) (Some p))
       (upgradeToPremium accountId accounts)
     = match generateTokens jwt_sign env clock accountId accountId "premium" with
       | Js.Threw err => NextError err
       | Js.Returned (accessToken, refreshToken) =>
           Session 200 accountId e "premium" accessToken refreshToken
       end) /\
  ((forall a, findByEmail accounts e = Some a -> id a <> accountId) ->
   login env clock (mkCredentials (Some e) (Some p))
     (upgradeToPremium accountId accounts)
   = login env clock (mkCredentials (Some e) (Some p)) accounts).
Proof.
  intros He. unfold Accounts.login. cbn [cr_email cr_password].
  rewrite He. cbn [negb]. rewrite findByEmail_upgradeToPremium. split.
  - intros a Hfind Hid Hpw. rewrite Hfind. cbn [option_map].
    assert (Hemail : email a = e).
    { unfold findByEmail in Hfind. apply find_some in Hfind as [_ Heq].
      by apply String.eqb_eq. }
    unfold upgraded. rewrite Hid, String.eqb_refl.
    unfold verifyPassword in *. cbn [password_hash id tier email].
    rewrite Hpw. cbn [negb]. rewrite <- Hid, Hemail.
    by destruct (generateTokens _ _ _ _ _ _) as [[? ?]|?].
  - intros Hother. destruct (findByEmail accounts e) as [a|]; [|done].
    cbn [option_map]. unfold upgraded.
    destruct (String.eqb_spec (id a) accountId) as [Heq|_]; [|done].
    by destruct (Hother a eq_refl).
Qed.

End UpgradeFacts.

Lemma login_after_upgrade_witness :
  Accounts.login sample_compare sample_is_email sample_sign sample_env
    (9000, 9001)%Z
    (Accounts.mkCredentials (Some "ann@example.com") (Some "password1"))
    (Accounts.upgradeToPremium 9 "0" sample_accounts)
  = Accounts.Session 200 "0" "ann@example.com" "premium"
      "0.premium.secret.15m@9000" "0.premium.refresh.7d@9001".
Proof.
  refine (proj1 (login_after_upgrade sample_compare 9 sample_is_email sample_sign
                   sample_env (9000, 9001)%Z "0" "ann@example.com" "password1"
                   sample_accounts _)
            (Accounts.mkAccount "0" "ann@example.com" (sample_hash 0 "password1")
               "free" 5 5)
            _ _ _); reflexivity.
Defined.
